(** * math_formula: the stack interpreter and the Pratt parser

    A shallow embedding of [src/math_formula/interpreter.py] and
    [src/math_formula/mf_parser.py], with the properties of the written
    specification stated and settled against it.

    Python objects are modelled by one universe of dynamic values, Python
    lists keep their orientation (the top of the stack is the LAST element),
    dictionaries are finite maps, exceptions are a [Raise] result, and the
    one unbounded [while] loop of the interpreter takes fuel. *)

From Stdlib Require Import ZArith List String Ascii Bool Lia DecimalString.
From stdpp Require Import base gmap strings list fin_maps.

Open Scope string_scope.
Open Scope list_scope.
Open Scope Z_scope.

(** ** Python results *)

Inductive exn : Type :=
| AssertionError (msg : string)
| IndexError
| KeyError
| TypeError
| ValueError
| OverflowError
| RuntimeError
| RecursionError
| NotImplementedError
| SyntaxError
| NameError
| ZeroDivisionError
| OtherError (name : string).

(** [Diverge]: the fuel of a [while] loop ran out before the loop exited. *)
Inductive result (A : Type) : Type :=
| Ok (a : A)
| Raise (e : exn)
| Diverge.
Arguments Ok {A} a.
Arguments Raise {A} e.
Arguments Diverge {A}.

Definition bind {A B : Type} (r : result A) (k : A -> result B) : result B :=
  match r with
  | Ok a => k a
  | Raise e => Raise e
  | Diverge => Diverge
  end.

#[global] Instance result_bind : MBind result := fun A B k r => bind r k.
#[global] Instance result_ret : MRet result := fun A a => Ok a.

Definition py_assert {A : Type} (b : bool) (msg : string) (k : result A) : result A :=
  if b then k else Raise (AssertionError msg).

(** ** Python list primitives (index [-1] is the last element) *)

Section PyList.
Context {A : Type}.

(** [l[i]] with Python's negative indices; [None] is [IndexError]. *)
Definition py_index (l : list A) (i : Z) : option A :=
  let n := Z.of_nat (length l) in
  if (0 <=? i) && (i <? n) then l !! Z.to_nat i
  else if (- n <=? i) && (i <? 0) then l !! Z.to_nat (n + i)
  else None.

(** [l[i] = x]; [None] is [IndexError]. *)
Definition py_setitem (l : list A) (i : Z) (x : A) : option (list A) :=
  let n := Z.of_nat (length l) in
  if (0 <=? i) && (i <? n) then Some (<[Z.to_nat i := x]> l)
  else if (- n <=? i) && (i <? 0) then Some (<[Z.to_nat (n + i) := x]> l)
  else None.

(** [l.pop()]: the last element and the list without it. *)
Definition py_pop (l : list A) : option (A * list A) :=
  match rev l with
  | [] => None
  | x :: r => Some (x, rev r)
  end.

(** [l[-n:]] for [n > 0]: the last [n] elements (all of [l] if shorter). *)
Definition py_last_n (l : list A) (n : nat) : list A :=
  skipn (length l - n)%nat l.

(** [l[:-n]] for [n > 0]: [l] without its last [n] elements. *)
Definition py_drop_last_n (l : list A) (n : nat) : list A :=
  firstn (length l - n)%nat l.
End PyList.

(** ** Handles and enumerations of [backends/type_defs] and of the host *)

(** Modelled from the spec: a port handle ([bpy.types.NodeSocket]), named
    by the node that owns it, its side and its position. *)
Record NodeSocket : Type := Build_NodeSocket {
  sk_node : nat;
  sk_is_output : bool;
  sk_pos : nat
}.

(** Modelled from the spec: [DataType] of [backends/type_defs], with the
    members the interpreter and the parser name. *)
Inductive DataType : Type :=
| UNKNOWN | DEFAULT | BOOL | INT | FLOAT | RGBA | VEC3 | GEOMETRY | STRING
| SHADER | OBJECT | IMAGE | COLLECTION | TEXTURE | MATERIAL | ROTATION.

(** Modelled from the spec: [OpType] of [backends/type_defs], in the order
    of the spec, which is the order in which [END_OF_STATEMENT] has the
    value 11 that [operation] asserts. *)
Inductive OpType : Type :=
| PUSH_VALUE | CREATE_VAR | GET_VAR | GET_OUTPUT | SET_OUTPUT
| SET_FUNCTION_OUT | SPLIT_STRUCT | CALL_FUNCTION | CALL_NODEGROUP
| CALL_BUILTIN | RENAME_NODE | END_OF_STATEMENT | PACK_LIST.

(** ** The universe of Python values the interpreter meets *)

#[local] Unset Elimination Schemes.
(** Modelled from the spec: the payload of an operation and the values on
    the stack are dynamically typed. Constants ([None], [bool], [int],
    [float] kept as its text, [str]), Python lists and tuples, port
    handles, the two syntax-tree nodes the interpreter looks for
    ([ast_defs.Name], [ast_defs.ListLiteral]), the three descriptors
    carried by call operations ([CompiledFunction], [CompiledNodeGroup],
    [NodeInstance], with the fields the interpreter reads), and any other
    object. An operation stream is a finite tree: a descriptor carries
    the operations of its body. *)
Inductive value : Type :=
| VNone
| VBool (b : bool)
| VInt (z : Z)
| VFloat (repr : string)
| VStr (s : string)
| VList (items : list value)
| VTuple (items : list value)
| VSocket (sk : NodeSocket)
| VName (id : string)
| VListLiteral (elements : list value)
| VFunction (f : CompiledFunction)
| VNodeGroup (g : CompiledNodeGroup)
| VNodeInstance (n : NodeInstance)
| VOther (tag : string)
with Operation : Type :=
| Build_Operation (op_type : OpType) (data : value)
with CompiledFunction : Type :=
| Build_CompiledFunction (inputs : list string) (num_outputs : Z)
                         (body : list Operation)
with CompiledNodeGroup : Type :=
| Build_CompiledNodeGroup (name : string) (inputs outputs : list TyArg)
                          (body : list Operation)
with NodeInstance : Type :=
| Build_NodeInstance (key : string) (inputs outputs : list value)
                     (props : list (string * value))
with TyArg : Type :=
| Build_TyArg (name : string) (dtype : DataType) (val : value).

#[local] Set Elimination Schemes.

Definition op_type (o : Operation) : OpType :=
  match o with Build_Operation t _ => t end.
Definition data (o : Operation) : value :=
  match o with Build_Operation _ d => d end.

Definition fn_inputs (f : CompiledFunction) : list string :=
  match f with Build_CompiledFunction i _ _ => i end.
Definition fn_num_outputs (f : CompiledFunction) : Z :=
  match f with Build_CompiledFunction _ n _ => n end.
Definition fn_body (f : CompiledFunction) : list Operation :=
  match f with Build_CompiledFunction _ _ b => b end.

Definition ng_name (g : CompiledNodeGroup) : string :=
  match g with Build_CompiledNodeGroup n _ _ _ => n end.
Definition ng_inputs (g : CompiledNodeGroup) : list TyArg :=
  match g with Build_CompiledNodeGroup _ i _ _ => i end.
Definition ng_outputs (g : CompiledNodeGroup) : list TyArg :=
  match g with Build_CompiledNodeGroup _ _ o _ => o end.
Definition ng_body (g : CompiledNodeGroup) : list Operation :=
  match g with Build_CompiledNodeGroup _ _ _ b => b end.

Definition ni_key (n : NodeInstance) : string :=
  match n with Build_NodeInstance k _ _ _ => k end.
Definition ni_inputs (n : NodeInstance) : list value :=
  match n with Build_NodeInstance _ i _ _ => i end.
Definition ni_outputs (n : NodeInstance) : list value :=
  match n with Build_NodeInstance _ _ o _ => o end.
Definition ni_props (n : NodeInstance) : list (string * value) :=
  match n with Build_NodeInstance _ _ _ p => p end.

Definition ta_name (a : TyArg) : string :=
  match a with Build_TyArg n _ _ => n end.
Definition ta_dtype (a : TyArg) : DataType :=
  match a with Build_TyArg _ d _ => d end.
Definition ta_value (a : TyArg) : value :=
  match a with Build_TyArg _ _ v => v end.

(** [isinstance(v, int)] ([bool] is a subclass of [int]) and the integer. *)
Definition as_int (v : value) : option Z :=
  match v with
  | VInt z => Some z
  | VBool b => Some (if b then 1 else 0)
  | _ => None
  end.

Definition as_str (v : value) : option string :=
  match v with VStr s => Some s | _ => None end.

Definition is_none (v : value) : bool :=
  match v with VNone => true | _ => false end.

(** ** The graph backend ([bpy]) *)

(** Modelled from the spec: the host owns trees, nodes and ports. The
    model keeps what the interpreter reads back (a tree's type and
    declared ports, a node's ports) and logs every mutating call in
    order. A gateway node and a reference node have the declared ports of
    their graph. Setting a property, a default value or a link is taken
    to succeed. A declared port: *)
Record SocketDecl : Type := Build_SocketDecl {
  sd_name : string;
  sd_type : string;      (* the port class, e.g. NodeSocketGeometry *)
  sd_multi : bool        (* is_multi_input *)
}.

Record NodeDecl : Type := Build_NodeDecl {
  nd_inputs : list SocketDecl;
  nd_outputs : list SocketDecl
}.

Record TreeRec : Type := Build_TreeRec {
  nt_name : string;
  nt_idname : string;
  nt_inputs : list SocketDecl;
  nt_outputs : list SocketDecl
}.

Record NodeRec : Type := Build_NodeRec {
  nr_tree : nat;
  nr_idname : string;
  nr_inputs : list SocketDecl;
  nr_outputs : list SocketDecl
}.

Inductive Event : Type :=
| EvNodeGroupsNew (name idname : string) (tree : nat)
| EvInterfaceNewSocket (tree : nat) (name in_out socket_type : string)
| EvInterfaceDefault (tree : nat) (in_out : string) (pos : nat) (v : value)
| EvNodesNew (tree : nat) (type : string) (node : nat)
| EvSetNodeTree (node tree : nat)
| EvLinksNew (tree : nat) (src dst : NodeSocket)
| EvSetDefault (sk : NodeSocket) (v : value)
| EvSetAttr (node : nat) (name : string) (v : value)
| EvSetLabel (node : nat) (v : value).

Record Backend : Type := Build_Backend {
  trees : list TreeRec;
  bnodes : list NodeRec;
  events : list Event
}.

Definition log (e : Event) (b : Backend) : Backend :=
  {| trees := trees b; bnodes := bnodes b; events := events b ++ [e] |}.

Definition tree_idname (b : Backend) (t : nat) : string :=
  match trees b !! t with Some r => nt_idname r | None => "" end.

(** [bpy.data.node_groups.new(name, idname)] *)
Definition node_groups_new (name idname : string) (b : Backend) : nat * Backend :=
  let t := length (trees b) in
  (t, log (EvNodeGroupsNew name idname t)
        {| trees := trees b ++ [Build_TreeRec name idname [] []];
           bnodes := bnodes b; events := events b |}).

(** [tree.interface.new_socket(name, in_out=..., socket_type=...)]; the
    position of the new declared port on its side is returned. *)
Definition interface_new_socket (t : nat) (name : string) (is_input : bool)
    (socket_type : string) (b : Backend) : nat * Backend :=
  let d := Build_SocketDecl name socket_type false in
  let pos := match trees b !! t with
             | Some r => length (if is_input then nt_inputs r else nt_outputs r)
             | None => 0%nat
             end in
  let upd r := if is_input
               then Build_TreeRec (nt_name r) (nt_idname r) (nt_inputs r ++ [d]) (nt_outputs r)
               else Build_TreeRec (nt_name r) (nt_idname r) (nt_inputs r) (nt_outputs r ++ [d]) in
  (pos, log (EvInterfaceNewSocket t name (if is_input then "INPUT" else "OUTPUT") socket_type)
          {| trees := alter upd t (trees b); bnodes := bnodes b; events := events b |}).

(** [tree.nodes.new(type)] for a node whose ports are [ins] and [outs]. *)
Definition nodes_new (t : nat) (type : string) (ins outs : list SocketDecl)
    (b : Backend) : nat * Backend :=
  let n := length (bnodes b) in
  (n, log (EvNodesNew t type n)
        {| trees := trees b; bnodes := bnodes b ++ [Build_NodeRec t type ins outs];
           events := events b |}).

(** [node.node_tree = tree]: the reference node takes the declared ports
    of the inner graph. *)
Definition set_node_tree (n t : nat) (b : Backend) : Backend :=
  let '(ins, outs) := match trees b !! t with
                      | Some r => (nt_inputs r, nt_outputs r)
                      | None => ([], [])
                      end in
  let upd r := Build_NodeRec (nr_tree r) (nr_idname r) ins outs in
  log (EvSetNodeTree n t)
    {| trees := trees b; bnodes := alter upd n (bnodes b); events := events b |}.

Definition node_inputs (b : Backend) (n : nat) : list SocketDecl :=
  match bnodes b !! n with Some r => nr_inputs r | None => [] end.
Definition node_outputs (b : Backend) (n : nat) : list SocketDecl :=
  match bnodes b !! n with Some r => nr_outputs r | None => [] end.
Definition node_idname (b : Backend) (n : nat) : string :=
  match bnodes b !! n with Some r => nr_idname r | None => "" end.

(** Position of the first port called [nm]. *)
Fixpoint find_socket (nm : string) (ds : list SocketDecl) (pos : nat) : option nat :=
  match ds with
  | [] => None
  | d :: ds' => if String.eqb (sd_name d) nm then Some pos
                else find_socket nm ds' (S pos)
  end.

(** [ports[key]] for an integer or a name. *)
Definition socket_at (ds : list SocketDecl) (k : value) : result nat :=
  match k with
  | VStr nm => match find_socket nm ds 0 with
               | Some p => Ok p
               | None => Raise KeyError
               end
  | _ => match as_int k with
         | Some i => match py_index (seq 0 (length ds)) i with
                     | Some p => Ok p
                     | None => Raise IndexError
                     end
         | None => Raise TypeError
         end
  end.

(** ** The interpreter state ([Interpreter.__init__])

    [bpy] is the backend the interpreter mutates through its handles. *)
Record Interpreter : Type := Build_Interpreter {
  tree : nat;
  stack : list value;
  nodes : list nat;
  node_group_trees : gmap string nat;
  variables : gmap string value;
  function_outputs : list value;
  socket_table : gmap string NodeSocket;
  bpy : Backend
}.

Definition new_Interpreter (t : nat) (b : Backend) : Interpreter :=
  Build_Interpreter t [] [] ∅ ∅ [] ∅ b.

Definition set_tree (t : nat) (s : Interpreter) : Interpreter :=
  Build_Interpreter t (stack s) (nodes s) (node_group_trees s) (variables s)
    (function_outputs s) (socket_table s) (bpy s).
Definition set_stack (st : list value) (s : Interpreter) : Interpreter :=
  Build_Interpreter (tree s) st (nodes s) (node_group_trees s) (variables s)
    (function_outputs s) (socket_table s) (bpy s).
Definition set_nodes (ns : list nat) (s : Interpreter) : Interpreter :=
  Build_Interpreter (tree s) (stack s) ns (node_group_trees s) (variables s)
    (function_outputs s) (socket_table s) (bpy s).
Definition set_node_group_trees (c : gmap string nat) (s : Interpreter) : Interpreter :=
  Build_Interpreter (tree s) (stack s) (nodes s) c (variables s)
    (function_outputs s) (socket_table s) (bpy s).
Definition set_variables (vs : gmap string value) (s : Interpreter) : Interpreter :=
  Build_Interpreter (tree s) (stack s) (nodes s) (node_group_trees s) vs
    (function_outputs s) (socket_table s) (bpy s).
Definition set_function_outputs (fo : list value) (s : Interpreter) : Interpreter :=
  Build_Interpreter (tree s) (stack s) (nodes s) (node_group_trees s) (variables s)
    fo (socket_table s) (bpy s).
Definition set_socket_table (tb : gmap string NodeSocket) (s : Interpreter) : Interpreter :=
  Build_Interpreter (tree s) (stack s) (nodes s) (node_group_trees s) (variables s)
    (function_outputs s) tb (bpy s).
Definition set_bpy (b : Backend) (s : Interpreter) : Interpreter :=
  Build_Interpreter (tree s) (stack s) (nodes s) (node_group_trees s) (variables s)
    (function_outputs s) (socket_table s) b.

(** [self.stack.append(v)] *)
Definition push (v : value) (s : Interpreter) : Interpreter :=
  set_stack (stack s ++ [v]) s.

(** [self.stack.pop()] *)
Definition pop (s : Interpreter) : result (value * Interpreter) :=
  match py_pop (stack s) with
  | Some (v, st) => Ok (v, set_stack st s)
  | None => Raise IndexError
  end.

(** [Interpreter.get_args]: the arguments and what is left of the stack. *)
Definition get_args (stack : list value) (num_args : nat) : list value * list value :=
  if (num_args =? 0)%nat then ([], stack)
  else (py_last_n stack num_args, py_drop_last_n stack num_args).

(** [Interpreter.data_type_to_socket_type]; the last branch is
    [assert False, "Unreachable"]. *)
Definition data_type_to_socket_type (dtype : DataType) : result string :=
  match dtype with
  | BOOL => Ok "NodeSocketBool"
  | INT => Ok "NodeSocketInt"
  | FLOAT => Ok "NodeSocketFloat"
  | RGBA => Ok "NodeSocketColor"
  | VEC3 => Ok "NodeSocketVector"
  | GEOMETRY => Ok "NodeSocketGeometry"
  | STRING => Ok "NodeSocketString"
  | SHADER => Ok "NodeSocketShader"
  | OBJECT => Ok "NodeSocketObject"
  | IMAGE => Ok "NodeSocketImage"
  | COLLECTION => Ok "NodeSocketCollection"
  | TEXTURE => Ok "NodeSocketTexture"
  | MATERIAL => Ok "NodeSocketMaterial"
  | ROTATION => Ok "NodeSocketRotation"
  | UNKNOWN | DEFAULT => Raise (AssertionError "Unreachable")
  end.

(** The [while isinstance(socket, ast_defs.Name)] loop of [CREATE_VAR]:
    [socket = self.variables.get(var_id, socket)] until [socket] is no
    longer a name. One unit of fuel per iteration. *)
Fixpoint resolve_name (fuel : nat) (vars : gmap string value) (socket : value)
    : result value :=
  match socket with
  | VName var_id =>
      match fuel with
      | O => Diverge
      | S fuel' => resolve_name fuel' vars (default socket (vars !! var_id))
      end
  | _ => Ok socket
  end.

(** [self.function_outputs = [None for _ in range(n)]] *)
Definition fresh_outputs (n : nat) : list value := replicate n VNone.

(** The output pushed after a function body: nothing for no slot, the
    port for one slot, the reversed list of ports for several. *)
Definition is_socket (v : value) : bool :=
  match v with VSocket _ => true | _ => false end.

Definition push_function_outputs (fo : list value) (s : Interpreter)
    : result Interpreter :=
  match fo with
  | [] => Ok s
  | [output] =>
      py_assert (is_socket output) "" (Ok (push output s))
  | _ =>
      py_assert (forallb is_socket fo) "" (Ok (push (VList (rev fo)) s))
  end.

Section Interp.
(** What the host knows and the repository does not say: the ports of
    each builtin node type ([None]: no such type, [nodes.new] raises),
    and [str(object)]. *)
Variable node_types : string -> option NodeDecl.
Variable py_str : value -> string.

Definition link (src dst : NodeSocket) (s : Interpreter) : Interpreter :=
  set_bpy (log (EvLinksNew (tree s) src dst) (bpy s)) s.

Definition set_default (sk : NodeSocket) (v : value) (s : Interpreter) : Interpreter :=
  set_bpy (log (EvSetDefault sk v) (bpy s)) s.

(** [Interpreter.get_output_socket]; no value of the model carries a
    [socket] attribute. *)
Fixpoint get_output_socket (tb : gmap string NodeSocket) (v : value) : value :=
  match v with
  | VList vs => VList (map (get_output_socket tb) vs)
  | _ => match tb !! py_str v with
         | Some sk => VSocket sk
         | None => v
         end
  end.

(** One element of a fan-in list: resolve a name through the variables,
    then the port table; link it to [dst] when it is a port. *)
Definition link_geo_input (dst : result nat) (n : nat) (geo_input : value)
    (s : Interpreter) : result Interpreter :=
  let geo_input :=
    match geo_input with
    | VName id => default geo_input (variables s !! id)
    | _ => geo_input
    end in
  match get_output_socket (socket_table s) geo_input with
  | VSocket sk => p ← dst; Ok (link sk (Build_NodeSocket n false p) s)
  | _ => Ok s
  end.

Fixpoint link_geo_inputs (dst : result nat) (n : nat) (l : list value)
    (s : Interpreter) : result Interpreter :=
  match l with
  | [] => Ok s
  | g :: l' => s' ← link_geo_input dst n g s; link_geo_inputs dst n l' s'
  end.

(** The body of [for i, input_index in enumerate(node_info.inputs)]. *)
Definition connect_arg (n : nat) (args : list value) (i : nat)
    (input_index : value) (s : Interpreter) : result Interpreter :=
  match args !! i with
  | None => Raise IndexError
  | Some arg =>
      let ins := node_inputs (bpy s) n in
      match arg with
      | VSocket a =>
          p ← socket_at ins input_index;
          Ok (link a (Build_NodeSocket n false p) s)
      | VList items =>
          if String.eqb (node_idname (bpy s) n) "GeometryNodeJoinGeometry"
          then link_geo_inputs (socket_at ins (VStr "Geometry")) n (rev items) s
          else
            p ← socket_at ins input_index;
            match ins !! p with
            | Some d =>
                if String.eqb (sd_type d) "NodeSocketGeometry" then
                  if sd_multi d then link_geo_inputs (Ok p) n items s
                  else match items with
                       | [] => Raise IndexError
                       | VSocket a :: _ => Ok (link a (Build_NodeSocket n false p) s)
                       | _ :: _ => Ok s
                       end
                else Ok s
            | None => Ok s
            end
      | _ =>
          p ← socket_at ins input_index;
          if is_none arg then Ok s
          else Ok (set_default (Build_NodeSocket n false p) arg s)
      end
  end.

Fixpoint connect_args (n : nat) (args : list value) (i : nat)
    (inputs : list value) (s : Interpreter) : result Interpreter :=
  match inputs with
  | [] => Ok s
  | input_index :: inputs' =>
      s' ← connect_arg n args i input_index s;
      connect_args n args (S i) inputs' s'
  end.

(** [Interpreter.add_builtin] *)
Definition add_builtin (node_info : NodeInstance) (args : list value)
    (s : Interpreter) : result (nat * Interpreter) :=
  match node_types (ni_key node_info) with
  | None => Raise RuntimeError
  | Some d =>
      let '(n, b) := nodes_new (tree s) (ni_key node_info)
                       (nd_inputs d) (nd_outputs d) (bpy s) in
      let b := fold_left (fun b '(name, v) => log (EvSetAttr n name v) b)
                 (ni_props node_info) b in
      s' ← connect_args n args 0 (ni_inputs node_info) (set_bpy b s);
      Ok (n, s')
  end.

(** [node.outputs[o]] for each [o] of [os], in order. *)
Fixpoint output_sockets (b : Backend) (n : nat) (os : list value)
    : result (list value) :=
  match os with
  | [] => Ok []
  | o :: os' =>
      p ← socket_at (node_outputs b n) o;
      r ← output_sockets b n os';
      Ok (VSocket (Build_NodeSocket n true p) :: r)
  end.

(** The [CALL_BUILTIN] branch. *)
Definition call_builtin (node_info : NodeInstance) (self : Interpreter)
    : result Interpreter :=
  let '(args, st) := get_args (stack self) (length (ni_inputs node_info)) in
  '(node, s) ← add_builtin node_info args (set_stack st self);
  let outputs := ni_outputs node_info in
  s ← match outputs with
      | [] => Ok s
      | [o] =>
          p ← socket_at (node_outputs (bpy s) node) o;
          let socket := Build_NodeSocket node true p in
          Ok (push (VSocket socket)
                (set_socket_table
                   (<[py_str (VSocket socket) := socket]> (socket_table s)) s))
      | _ =>
          l ← output_sockets (bpy s) node (rev outputs);
          Ok (push (VList l) s)
      end;
  Ok (set_nodes (nodes s ++ [node]) s).

(** The two [for ... in node_group.inputs / outputs] loops that declare
    the ports of a new inner graph. *)
Fixpoint add_interface_sockets (t : nat) (is_input : bool) (l : list TyArg)
    (b : Backend) : result Backend :=
  match l with
  | [] => Ok b
  | a :: l' =>
      ty ← data_type_to_socket_type (ta_dtype a);
      let '(pos, b) := interface_new_socket t (ta_name a) is_input ty b in
      let b := if is_none (ta_value a) then b
               else log (EvInterfaceDefault t (if is_input then "INPUT" else "OUTPUT")
                           pos (ta_value a)) b in
      add_interface_sockets t is_input l' b
  end.

(** [for socket in group_input.outputs: self.variables[socket.name] = socket] *)
Fixpoint bind_gateway (n : nat) (ds : list SocketDecl) (pos : nat)
    (vars : gmap string value) : gmap string value :=
  match ds with
  | [] => vars
  | d :: ds' =>
      bind_gateway n ds' (S pos)
        (<[sd_name d := VSocket (Build_NodeSocket n true pos)]> vars)
  end.

(** [for index, foutput in enumerate(self.function_outputs)]: wire each
    collected output to the output gateway. *)
Fixpoint connect_group_outputs (group_output : nat) (index : nat)
    (fo : list value) (s : Interpreter) : result Interpreter :=
  match fo with
  | [] => Ok s
  | foutput :: fo' =>
      s' ← match foutput with
           | VSocket sk =>
               p ← socket_at (node_inputs (bpy s) group_output) (VInt (Z.of_nat index));
               Ok (link sk (Build_NodeSocket group_output false p) s)
           | VNone => Ok s
           | _ =>
               p ← socket_at (node_inputs (bpy s) group_output) (VInt (Z.of_nat index));
               Ok (set_default (Build_NodeSocket group_output false p) foutput s)
           end;
      connect_group_outputs group_output (S index) fo' s'
  end.

(** [for i, arg in enumerate(args)]: connect the arguments of a
    reference node. *)
Fixpoint connect_group_args (node : nat) (i : nat) (args : list value)
    (s : Interpreter) : result Interpreter :=
  match args with
  | [] => Ok s
  | arg :: args' =>
      s' ← match arg with
           | VSocket sk =>
               p ← socket_at (node_inputs (bpy s) node) (VInt (Z.of_nat i));
               Ok (link sk (Build_NodeSocket node false p) s)
           | VNone => Ok s
           | _ =>
               p ← socket_at (node_inputs (bpy s) node) (VInt (Z.of_nat i));
               Ok (set_default (Build_NodeSocket node false p) arg s)
           end;
      connect_group_args node (S i) args' s'
  end.

(** The head of the [else] branch of [execute_node_group]: create the
    inner graph, declare its input and output ports, add its two gateway
    nodes. The handles of the graph and of the gateways are returned with
    the backend. *)
Definition new_inner_tree (node_group : CompiledNodeGroup) (self : Interpreter)
    : result (nat * nat * nat * Backend) :=
  let '(node_tree, b) :=
    node_groups_new (ng_name node_group) (tree_idname (bpy self) (tree self))
      (bpy self) in
  b ← add_interface_sockets node_tree true (ng_inputs node_group) b;
  b ← add_interface_sockets node_tree false (ng_outputs node_group) b;
  let iface := match trees b !! node_tree with
               | Some r => (nt_inputs r, nt_outputs r)
               | None => ([], [])
               end in
  let '(group_input, b) := nodes_new node_tree "NodeGroupInput" [] (fst iface) b in
  let '(group_output, b) := nodes_new node_tree "NodeGroupOutput" (snd iface) [] b in
  Ok (node_tree, group_input, group_output, b).

(** The [else] branch of [execute_node_group]: build the inner graph,
    run the body in a fresh frame, wire the outputs, restore the frame
    and store the graph under the group's name. [exec_body] runs
    [node_group.body]. *)
Definition build_node_group (exec_body : Interpreter -> result Interpreter)
    (node_group : CompiledNodeGroup) (self : Interpreter)
    : result (nat * Interpreter) :=
  '(node_tree, group_input, group_output, b) ← new_inner_tree node_group self;
  let outer_tree := tree self in
  let outer_vars := variables self in
  let outer_function_outputs := function_outputs self in
  let outer_stack := stack self in
  let inner :=
    set_stack []
      (set_function_outputs (fresh_outputs (length (ng_outputs node_group)))
         (set_variables
            (bind_gateway group_input (node_outputs b group_input) 0 ∅)
            (set_tree node_tree (set_bpy b self)))) in
  s ← exec_body inner;
  s ← connect_group_outputs group_output 0 (function_outputs s) s;
  let s := set_tree outer_tree
             (set_variables outer_vars
                (set_function_outputs outer_function_outputs
                   (set_stack outer_stack s))) in
  Ok (node_tree,
      set_node_group_trees (<[ng_name node_group := node_tree]> (node_group_trees s)) s).

(** The tail of [execute_node_group], run on first and later uses: add a
    reference node for [node_tree], connect the arguments and push the
    node's output ports. *)
Definition instantiate_group (node_tree : nat) (args : list value)
    (self : Interpreter) : result Interpreter :=
  let group_name :=
    if String.eqb (tree_idname (bpy self) (tree self)) "GeometryNodeTree"
    then "GeometryNodeGroup" else "ShaderNodeGroup" in
  let '(node, b) := nodes_new (tree self) group_name [] [] (bpy self) in
  let b := set_node_tree node node_tree b in
  s ← connect_group_args node 0 args (set_bpy b self);
  let s := set_nodes (nodes s ++ [node]) s in
  let n := length (node_outputs (bpy s) node) in
  match n with
  | O => Ok s
  | S O => Ok (push (VSocket (Build_NodeSocket node true 0)) s)
  | _ => Ok (push (VList (map (fun i => VSocket (Build_NodeSocket node true i))
                            (rev (seq 0 n)))) s)
  end.

(** [Interpreter.execute_node_group] *)
Definition execute_node_group (exec_body : Interpreter -> result Interpreter)
    (node_group : CompiledNodeGroup) (args : list value) (self : Interpreter)
    : result Interpreter :=
  match node_group_trees self !! ng_name node_group with
  | Some node_tree => instantiate_group node_tree args self
  | None =>
      '(node_tree, s) ← build_node_group exec_body node_group self;
      instantiate_group node_tree args s
  end.

(** The [CALL_FUNCTION] branch; [exec_body] runs [op_data.body]. *)
Definition call_function (exec_body : Interpreter -> result Interpreter)
    (f : CompiledFunction) (self : Interpreter) : result Interpreter :=
  let '(args, st) := get_args (stack self) (length (fn_inputs f)) in
  let self := set_stack st self in
  let outer_vars := variables self in
  let inner_vars :=
    fold_left (fun m '(name, arg) => <[name := arg]> m)
      (zip (fn_inputs f) args) (∅ : gmap string value) in
  let outer_function_outputs := function_outputs self in
  let outer_stack := stack self in
  s ← exec_body
        (set_stack []
           (set_function_outputs (fresh_outputs (Z.to_nat (fn_num_outputs f)))
              (set_variables inner_vars self)));
  let s := set_stack outer_stack s in
  s ← push_function_outputs (function_outputs s) s;
  Ok (set_variables outer_vars
        (set_function_outputs outer_function_outputs s)).

(** The loop of the list-literal guard at the head of [operation]:
    [for e in op_data.elements: self.operation(Operation(PUSH_VALUE, e));
    evaluated_elements.append(self.stack.pop())], for the executor [pv] of a
    push. *)
Definition eval_elements_with (pv : value -> Interpreter -> result Interpreter)
    : list value -> list value -> Interpreter -> result (list value * Interpreter) :=
  fix each (es : list value) (acc : list value) (s : Interpreter)
    : result (list value * Interpreter) :=
    match es with
    | [] => Ok (acc, s)
    | e :: es' =>
        s1 ← pv e s;
        '(v, s2) ← pop s1;
        each es' (acc ++ [v]) s2
    end.

(** [self.operation(Operation(OpType.PUSH_VALUE, e))]: a list literal is
    evaluated element by element, each pushed then popped; anything else
    is appended to the stack. *)
Fixpoint push_value (e : value) (self : Interpreter) {struct e}
    : result Interpreter :=
  match e with
  | VListLiteral elements =>
      '(evaluated_elements, s) ← eval_elements_with push_value elements [] self;
      Ok (push (VList evaluated_elements) s)
  | _ => Ok (push e self)
  end.

Definition eval_elements : list value -> list value -> Interpreter
    -> result (list value * Interpreter) :=
  eval_elements_with push_value.

(** The [CREATE_VAR] branch. *)
Definition create_var (fuel : nat) (op_data : value) (self : Interpreter)
    : result Interpreter :=
  match as_str op_data with
  | None => Raise (AssertionError "Variable name should be a string.")
  | Some name =>
      '(socket, s) ← pop self;
      socket ← resolve_name fuel (variables s) socket;
      match socket with
      | VSocket _ | VList _ | VInt _ | VBool _ =>
          Ok (set_variables (<[name := socket]> (variables s)) s)
      | _ => Raise (AssertionError
               "Create var expects a node socket or struct or loop index.")
      end
  end.

(** The [PACK_LIST] comprehension [[self.stack.pop() for _ in range(n)]]. *)
Fixpoint pop_n (n : nat) (s : Interpreter) : result (list value * Interpreter) :=
  match n with
  | O => Ok ([], s)
  | S n' =>
      '(v, s1) ← pop s;
      '(vs, s2) ← pop_n n' s1;
      Ok (v :: vs, s2)
  end.

(** [for operation in body: self.operation(operation)], for the
    executor [exec] of one operation. *)
Definition run_with (exec : Operation -> Interpreter -> result Interpreter)
    : list Operation -> Interpreter -> result Interpreter :=
  fix go (ops : list Operation) (s : Interpreter) : result Interpreter :=
    match ops with
    | [] => Ok s
    | o :: ops' => s' ← exec o s; go ops' s'
    end.

(** [Interpreter.operation]. The list-literal guard comes first, for
    every operation kind; then the dispatch on the kind. *)
Fixpoint operation (fuel : nat) (op : Operation) (self : Interpreter)
    {struct op} : result Interpreter :=
  match op with
  | Build_Operation op_type op_data =>
    match op_data with
    | VListLiteral elements =>
        '(evaluated_elements, s) ← eval_elements elements [] self;
        Ok (push (VList evaluated_elements) s)
    | _ =>
      match op_type with
      | PUSH_VALUE => Ok (push op_data self)
      | CREATE_VAR => create_var fuel op_data self
      | GET_VAR =>
          match as_str op_data with
          | None => Raise (AssertionError "Variable name should be a string.")
          | Some name =>
              match variables self !! name with
              | Some v => Ok (push v self)
              | None => Raise KeyError
              end
          end
      | GET_OUTPUT =>
          match as_int op_data with
          | None => Raise (AssertionError "Bug in type checker, index should be int.")
          | Some index =>
              '(struct, s) ← pop self;
              match struct with
              | VList items =>
                  match py_index items (- index - 1) with
                  | Some v => Ok (push v s)
                  | None => Raise IndexError
                  end
              | _ => Raise (AssertionError
                       "Bug in type checker, GET_OUTPUT only works on structs.")
              end
          end
      | SET_OUTPUT =>
          match op_data with
          | VTuple [index; val] =>
              match py_index (nodes self) (-1) with
              | None => Raise IndexError
              | Some n =>
                  p ← socket_at (node_outputs (bpy self) n) index;
                  Ok (set_default (Build_NodeSocket n true p) val self)
              end
          | VTuple _ => Raise ValueError
          | _ => Raise (AssertionError "Data should be tuple of index and value")
          end
      | SET_FUNCTION_OUT =>
          match as_int op_data with
          | None => Raise (AssertionError "Data should be an index")
          | Some index =>
              '(socket, s) ← pop self;
              py_assert (is_socket socket) ""
                match py_setitem (function_outputs s) index socket with
                | Some fo => Ok (set_function_outputs fo s)
                | None => Raise IndexError
                end
          end
      | SPLIT_STRUCT =>
          '(struct, s) ← pop self;
          match struct with
          | VList items => Ok (set_stack (stack s ++ items) s)
          | _ => Raise (AssertionError
                   "Bug in type checker, GET_OUTPUT only works on structs.")
          end
      | CALL_FUNCTION =>
          match op_data with
          | VFunction f =>
              call_function (run_with (operation fuel) (fn_body f)) f self
          | _ => Raise (AssertionError "Bug in type checker.")
          end
      | CALL_NODEGROUP =>
          match op_data with
          | VNodeGroup g =>
              let '(args, st) := get_args (stack self) (length (ng_inputs g)) in
              execute_node_group (run_with (operation fuel) (ng_body g)) g args
                (set_stack st self)
          | _ => Raise (AssertionError "Bug in type checker.")
          end
      | CALL_BUILTIN =>
          match op_data with
          | VNodeInstance n => call_builtin n self
          | _ => Raise (AssertionError "Bug in compiler.")
          end
      | RENAME_NODE =>
          match py_index (nodes self) (-1) with
          | None => Raise IndexError
          | Some n => Ok (set_bpy (log (EvSetLabel n op_data) (bpy self)) self)
          end
      | END_OF_STATEMENT => Ok (set_stack [] self)
      | PACK_LIST =>
          match as_int op_data with
          | None => Raise (AssertionError "PACK_LIST expects an integer count.")
          | Some count =>
              '(elements, s) ← pop_n (Z.to_nat count) self;
              Ok (push (VList (rev elements)) s)
          end
      end
    end
  end.

(** An operation stream run from its first operation to its last. *)
Definition run (fuel : nat) (ops : list Operation) (s : Interpreter)
    : result Interpreter :=
  run_with (operation fuel) ops s.
End Interp.

(** ** What the backend observed

    Counters over the log of backend calls: inner graphs constructed
    (for one name, or at all) and reference nodes bound to an inner
    graph. *)

Definition count_events (p : Event -> bool) (evs : list Event) : nat :=
  length (List.filter p evs).

Definition is_build (e : Event) : bool :=
  match e with EvNodeGroupsNew _ _ _ => true | _ => false end.

Definition is_build_of (name : string) (e : Event) : bool :=
  match e with EvNodeGroupsNew n _ _ => String.eqb n name | _ => false end.

Definition is_reference (e : Event) : bool :=
  match e with EvSetNodeTree _ _ => true | _ => false end.

(** Links and default values: the calls that wire ports. *)
Definition is_wiring (e : Event) : bool :=
  match e with EvLinksNew _ _ _ | EvSetDefault _ _ => true | _ => false end.

(** ** A small host for the examples: one math node type with two inputs
    and one output, and [str] of a port spelled from its coordinates. *)

Definition demo_node_types (key : string) : option NodeDecl :=
  if String.eqb key "ShaderNodeMath"
  then Some (Build_NodeDecl
               [Build_SocketDecl "Value" "NodeSocketFloat" false;
                Build_SocketDecl "Value" "NodeSocketFloat" false]
               [Build_SocketDecl "Value" "NodeSocketFloat" false])
  else None.

Definition demo_str (v : value) : string :=
  match v with
  | VSocket sk =>
      "socket:" ++ String (ascii_of_nat (48 + sk_node sk)) ""
        ++ (if sk_is_output sk then ":out:" else ":in:")
        ++ String (ascii_of_nat (48 + sk_pos sk)) ""
  | VName id => "Name:" ++ id
  | VStr s => s
  | _ => "object"
  end.

(** An empty graph of type [ShaderNodeTree] with handle [0], and an
    interpreter started on it. *)
Definition demo_backend : Backend :=
  Build_Backend [Build_TreeRec "main" "ShaderNodeTree" [] []] [] [].

Definition demo_interpreter : Interpreter := new_Interpreter 0 demo_backend.

(** Descriptors and streams of the examples. *)

(** A function of one parameter [p] and one output that binds a local
    variable [x] to its argument and returns it. *)
Definition demo_shadowing_function : CompiledFunction :=
  Build_CompiledFunction ["p"] 1
    [Build_Operation GET_VAR (VStr "p");
     Build_Operation CREATE_VAR (VStr "x");
     Build_Operation GET_VAR (VStr "x");
     Build_Operation SET_FUNCTION_OUT (VInt 0)].

(** A function without parameters or outputs whose body adds one math
    node. *)
Definition demo_node_adding_function : CompiledFunction :=
  Build_CompiledFunction [] 0
    [Build_Operation CALL_BUILTIN
       (VNodeInstance (Build_NodeInstance "ShaderNodeMath" [] [] []))].

(** Two node groups called [A]: the first declares one output and has an
    empty body, the second declares none. *)
Definition demo_group_one_output : CompiledNodeGroup :=
  Build_CompiledNodeGroup "A" [] [Build_TyArg "o" FLOAT VNone] [].

Definition demo_group_no_output : CompiledNodeGroup :=
  Build_CompiledNodeGroup "A" [] [] [].

(** A node group called [A] whose body invokes the other group called
    [A]. *)
Definition demo_group_nested : CompiledNodeGroup :=
  Build_CompiledNodeGroup "A" [] []
    [Build_Operation CALL_NODEGROUP (VNodeGroup demo_group_no_output)].

(** A caller whose variable [x] is bound to a port of node 7 and whose
    stack holds one argument, a port of node 8. *)
Definition demo_caller : Interpreter :=
  set_variables (<[ "x" := VSocket (Build_NodeSocket 7 true 0) ]> ∅)
    (set_stack [VSocket (Build_NodeSocket 8 true 0)] demo_interpreter).

(** ** Notions used to state the properties of the interpreter *)

(** The state [s] with [evs] appended to the log of backend calls. *)
Definition add_events (evs : list Event) (s : Interpreter) : Interpreter :=
  set_bpy (Build_Backend (trees (bpy s)) (bnodes (bpy s)) (events (bpy s) ++ evs)) s.

(** [wiring s s']: [s'] is [s] with links and default values added to
    the log, and nothing else changed. *)
Definition wiring (s s' : Interpreter) : Prop :=
  exists evs, forallb is_wiring evs = true /\ s' = add_events evs s.

(** The Python list a pushed expression evaluates to: a list literal
    becomes the list of its evaluated elements, anything else is itself. *)
Fixpoint literal_value (e : value) : value :=
  match e with
  | VListLiteral elements => VList (map literal_value elements)
  | _ => e
  end.

(** [gframe s s']: the cache of inner graphs keeps its entries, the
    backend keeps the graphs it has, the log of backend calls is only
    extended, and no inner graph is constructed for a name that is
    already cached. *)
Definition gframe (s s' : Interpreter) : Prop :=
  (forall n t, node_group_trees s !! n = Some t ->
               node_group_trees s' !! n = Some t) /\
  (forall i r, trees (bpy s) !! i = Some r -> trees (bpy s') !! i = Some r) /\
  (exists evs, events (bpy s') = events (bpy s) ++ evs /\
     forall n, is_Some (node_group_trees s !! n) ->
               count_events (is_build_of n) evs = 0%nat).

(** [frame s s']: moreover the current tree is the same and the output
    slots keep their number. *)
Definition frame (s s' : Interpreter) : Prop :=
  tree s' = tree s /\
  length (function_outputs s') = length (function_outputs s) /\
  gframe s s'.

(** What a reference node pushes: nothing for no output port, the port
    for one, the list of ports from last to first for several. *)
Definition group_node_outputs (node n : nat) : list value :=
  match n with
  | O => []
  | S O => [VSocket (Build_NodeSocket node true 0)]
  | _ => [VList (map (fun i => VSocket (Build_NodeSocket node true i))
                   (rev (seq 0 n)))]
  end.

(** The number of output ports declared by the inner graph [t]. *)
Definition tree_num_outputs (b : Backend) (t : nat) : nat :=
  match trees b !! t with
  | Some r => length (nt_outputs r)
  | None => 0%nat
  end.

Definition group_node_type (s : Interpreter) : string :=
  if String.eqb (tree_idname (bpy s) (tree s)) "GeometryNodeTree"
  then "GeometryNodeGroup" else "ShaderNodeGroup".

(** The state in which the body of the function [f] starts, for a call
    made in [self]: the arguments are popped and bound to the parameters,
    the output slots are empty and so is the stack. *)
Definition function_entry (f : CompiledFunction) (self : Interpreter) : Interpreter :=
  let '(args, st) := get_args (stack self) (length (fn_inputs f)) in
  set_stack []
    (set_function_outputs (fresh_outputs (Z.to_nat (fn_num_outputs f)))
       (set_variables
          (fold_left (fun m '(name, arg) => <[name := arg]> m)
             (zip (fn_inputs f) args) (∅ : gmap string value))
          (set_stack st self))).

(** The state in which the body of the node group [g] starts when its
    inner graph is built in [self]: the graph and its gateways are
    created, the variables are the output ports of the input gateway, the
    output slots are empty and so is the stack. *)
Definition group_entry (g : CompiledNodeGroup) (self : Interpreter)
    : result Interpreter :=
  '(node_tree, group_input, group_output, b) ← new_inner_tree g self;
  Ok (set_stack []
        (set_function_outputs (fresh_outputs (length (ng_outputs g)))
           (set_variables
              (bind_gateway group_input (node_outputs b group_input) 0 ∅)
              (set_tree node_tree (set_bpy b self))))).

(** What a function call pushes for its collected outputs [fo]. *)
Definition function_result (fo : list value) : list value :=
  match fo with
  | [] => []
  | [o] => [o]
  | _ => [VList (rev fo)]
  end.

(** A call operation whose descriptor declares no output. *)
Definition call_without_outputs (t : OpType) (d : value) : Prop :=
  match t, d with
  | CALL_BUILTIN, VNodeInstance n => ni_outputs n = []
  | CALL_FUNCTION, VFunction f => fn_num_outputs f = 0
  | CALL_NODEGROUP, VNodeGroup g => ng_outputs g = []
  | _, _ => False
  end.

(** The number of arguments a call operation pops. *)
Definition call_arity (d : value) : nat :=
  match d with
  | VNodeInstance n => length (ni_inputs n)
  | VFunction f => length (fn_inputs f)
  | VNodeGroup g => length (ng_inputs g)
  | _ => 0%nat
  end.

(** The inner graph a node-group call would reuse, if it is cached, has
    no declared output. *)
Definition cached_graph_without_outputs (d : value) (s : Interpreter) : Prop :=
  match d with
  | VNodeGroup g =>
      forall t, node_group_trees s !! ng_name g = Some t ->
                tree_num_outputs (bpy s) t = 0%nat
  | _ => True
  end.

(** A function of two parameters that returns them as its two outputs,
    in the same order, and a caller with a value below its two
    arguments, the ports of the nodes 8 and 9. *)
Definition demo_pair_function : CompiledFunction :=
  Build_CompiledFunction ["a"; "b"] 2
    [Build_Operation GET_VAR (VStr "a");
     Build_Operation SET_FUNCTION_OUT (VInt 0);
     Build_Operation GET_VAR (VStr "b");
     Build_Operation SET_FUNCTION_OUT (VInt 1)].

Definition demo_pair_caller : Interpreter :=
  set_variables (<[ "a" := VInt 1 ]> ∅)
    (set_stack [VInt 5; VSocket (Build_NodeSocket 8 true 0);
                VSocket (Build_NodeSocket 9 true 0)] demo_interpreter).

(** * The parser ([mf_parser.py]) *)

(** ** Tokens *)

(** Modelled from the spec: [TokenType] of the scanner, in the order of
    the rule table of the parser ([rules] is indexed by
    [token_type.value], one commented entry per kind). *)
Module TokenType.
Inductive t : Type :=
| LEFT_PAREN | RIGHT_PAREN | LEFT_SQUARE_BRACKET | RIGHT_SQUARE_BRACKET
| LEFT_BRACE | RIGHT_BRACE | COMMA | DOT | SEMICOLON | EQUAL | MINUS | PLUS
| PERCENT | SLASH | HAT | GREATER | LESS | COLON | UNDERSCORE | STAR
| STAR_STAR | ARROW | LESS_EQUAL | GREATER_EQUAL | EQUAL_EQUAL | BANG_EQUAL
| IDENTIFIER | INT | FLOAT | PYTHON | STRING | GROUP_NAME | OUT | FUNCTION
| NODEGROUP | LOOP | TRUE | FALSE | NOT | OR | AND | ERROR | EOL.

Definition value (k : t) : nat :=
  match k with
  | LEFT_PAREN => 0 | RIGHT_PAREN => 1 | LEFT_SQUARE_BRACKET => 2
  | RIGHT_SQUARE_BRACKET => 3 | LEFT_BRACE => 4 | RIGHT_BRACE => 5
  | COMMA => 6 | DOT => 7 | SEMICOLON => 8 | EQUAL => 9 | MINUS => 10
  | PLUS => 11 | PERCENT => 12 | SLASH => 13 | HAT => 14 | GREATER => 15
  | LESS => 16 | COLON => 17 | UNDERSCORE => 18 | STAR => 19
  | STAR_STAR => 20 | ARROW => 21 | LESS_EQUAL => 22 | GREATER_EQUAL => 23
  | EQUAL_EQUAL => 24 | BANG_EQUAL => 25 | IDENTIFIER => 26 | INT => 27
  | FLOAT => 28 | PYTHON => 29 | STRING => 30 | GROUP_NAME => 31 | OUT => 32
  | FUNCTION => 33 | NODEGROUP => 34 | LOOP => 35 | TRUE => 36 | FALSE => 37
  | NOT => 38 | OR => 39 | AND => 40 | ERROR => 41 | EOL => 42
  end%nat.

Definition eqb (a b : t) : bool := Nat.eqb (value a) (value b).
End TokenType.

(** [Precedence(IntEnum)]: [NONE = 0], then [auto()]. *)
Module Precedence.
Inductive t : Type :=
| NONE | ASSIGNMENT | OR | AND | NOT | COMPARISON | TERM | FACTOR | UNARY
| EXPONENT | ATTRIBUTE | CALL | PRIMARY.

Definition value (p : t) : nat :=
  match p with
  | NONE => 0 | ASSIGNMENT => 1 | OR => 2 | AND => 3 | NOT => 4
  | COMPARISON => 5 | TERM => 6 | FACTOR => 7 | UNARY => 8 | EXPONENT => 9
  | ATTRIBUTE => 10 | CALL => 11 | PRIMARY => 12
  end%nat.

(** [Precedence(n)]; [None] is the [ValueError] of an invalid value. *)
Definition of_value (n : nat) : option t :=
  match n with
  | 0 => Some NONE | 1 => Some ASSIGNMENT | 2 => Some OR | 3 => Some AND
  | 4 => Some NOT | 5 => Some COMPARISON | 6 => Some TERM | 7 => Some FACTOR
  | 8 => Some UNARY | 9 => Some EXPONENT | 10 => Some ATTRIBUTE
  | 11 => Some CALL | 12 => Some PRIMARY | _ => None
  end%nat.
End Precedence.

(** Modelled from the spec: [Token] of the scanner. *)
Record Token : Type := Build_Token {
  lexeme : string;
  token_type : TokenType.t;
  line : nat;
  col : nat;
  start : nat;
  error_msg : string     (* [token.error], for a token of type ERROR *)
}.

(** ** Syntax trees *)

(** Modelled from the spec: the nodes of [ast_defs], with the fields the
    constructor calls of the parser give them. Every node carries the
    token it comes from. *)
Module ast_defs.

Inductive operator : Type :=
| Add (t : Token) | Sub (t : Token) | Div (t : Token) | Mult (t : Token)
| Mod (t : Token) | Pow (t : Token) | Gt (t : Token) | GtE (t : Token)
| Lt (t : Token) | LtE (t : Token) | Eq (t : Token) | NotEq (t : Token)
| And (t : Token) | Or (t : Token).

Inductive unaryop : Type :=
| USub (t : Token) | Not (t : Token).

(** The value of a [Constant]: a float is kept as its text. *)
Inductive constant : Type :=
| CNone | CInt (z : Z) | CFloat (repr : string) | CStr (s : string)
| CBool (b : bool).

#[local] Unset Elimination Schemes.
Inductive expr : Type :=
| Constant (token : Token) (value : constant) (dtype : DataType)
| Name (token : Token) (id : string)
| Vec3 (token : Token) (x y z : expr)
| ListLiteral (token : Token) (elements : list expr)
| UnaryOp (token : Token) (op : unaryop) (operand : expr)
| BinOp (token : Token) (left : expr) (op : operator) (right : expr)
| Call (token : Token) (func : expr) (pos_args : list expr)
       (keyword_args : list (Token * string * expr))
| Attribute (token : Token) (value : expr) (attr : string).
#[local] Set Elimination Schemes.

(** [Keyword(token, arg, value)] *)
Definition Keyword (token : Token) (arg : string) (value : expr)
    : Token * string * expr := (token, arg, value).

Record arg : Type := Build_arg {
  arg_token : Token;
  arg_name : string;
  arg_type : DataType;
  arg_default : option expr
}.

(** An assignment target: a name, or [None] for the discard [_]. *)
Definition target : Type := option (Token * string).

#[local] Unset Elimination Schemes.
Inductive stmt : Type :=
| Expr (e : expr)
| Assign (token : Token) (targets : list target) (value : expr)
| Out (token : Token) (targets : list target) (value : expr)
| FunctionDef (token : Token) (name : string) (args : list arg)
              (body : list stmt) (returns : list arg)
| NodegroupDef (token : Token) (name : string) (args : list arg)
               (body : list stmt) (returns : list arg)
| Loop (token : Token) (var : option (Token * string)) (start end_ : Z)
       (body : list stmt).
#[local] Set Elimination Schemes.

Record Module_ : Type := Build_Module { body : list stmt }.

End ast_defs.

(** ** Parse rules *)

Module Rule.
Inductive prefix : Type :=
| grouping | make_vector | unary | default | identifier | make_int
| make_float | python | string | group_name | boolean.
Inductive infix : Type :=
| call | dot | binary.
End Rule.

Record ParseRule : Type := Build_ParseRule {
  prefix : option Rule.prefix;
  infix : option Rule.infix;
  precedence : Precedence.t
}.

(** The table [rules], one entry per token type. *)
Definition rules (k : TokenType.t) : ParseRule :=
  match k with
  | TokenType.LEFT_PAREN =>
      Build_ParseRule (Some Rule.grouping) (Some Rule.call) Precedence.CALL
  | TokenType.RIGHT_PAREN => Build_ParseRule None None Precedence.NONE
  | TokenType.LEFT_SQUARE_BRACKET => Build_ParseRule None None Precedence.NONE
  | TokenType.RIGHT_SQUARE_BRACKET => Build_ParseRule None None Precedence.NONE
  | TokenType.LEFT_BRACE =>
      Build_ParseRule (Some Rule.make_vector) None Precedence.NONE
  | TokenType.RIGHT_BRACE => Build_ParseRule None None Precedence.NONE
  | TokenType.COMMA => Build_ParseRule None None Precedence.NONE
  | TokenType.DOT => Build_ParseRule None (Some Rule.dot) Precedence.ATTRIBUTE
  | TokenType.SEMICOLON => Build_ParseRule None None Precedence.NONE
  | TokenType.EQUAL => Build_ParseRule None None Precedence.NONE
  | TokenType.MINUS =>
      Build_ParseRule (Some Rule.unary) (Some Rule.binary) Precedence.TERM
  | TokenType.PLUS => Build_ParseRule None (Some Rule.binary) Precedence.TERM
  | TokenType.PERCENT => Build_ParseRule None (Some Rule.binary) Precedence.FACTOR
  | TokenType.SLASH => Build_ParseRule None (Some Rule.binary) Precedence.FACTOR
  | TokenType.HAT => Build_ParseRule None (Some Rule.binary) Precedence.EXPONENT
  | TokenType.GREATER =>
      Build_ParseRule None (Some Rule.binary) Precedence.COMPARISON
  | TokenType.LESS => Build_ParseRule None (Some Rule.binary) Precedence.COMPARISON
  | TokenType.COLON => Build_ParseRule None None Precedence.NONE
  | TokenType.UNDERSCORE =>
      Build_ParseRule (Some Rule.default) None Precedence.NONE
  | TokenType.STAR => Build_ParseRule None (Some Rule.binary) Precedence.FACTOR
  | TokenType.STAR_STAR =>
      Build_ParseRule None (Some Rule.binary) Precedence.EXPONENT
  | TokenType.ARROW => Build_ParseRule None None Precedence.NONE
  | TokenType.LESS_EQUAL =>
      Build_ParseRule None (Some Rule.binary) Precedence.COMPARISON
  | TokenType.GREATER_EQUAL =>
      Build_ParseRule None (Some Rule.binary) Precedence.COMPARISON
  | TokenType.EQUAL_EQUAL =>
      Build_ParseRule None (Some Rule.binary) Precedence.COMPARISON
  | TokenType.BANG_EQUAL =>
      Build_ParseRule None (Some Rule.binary) Precedence.COMPARISON
  | TokenType.IDENTIFIER =>
      Build_ParseRule (Some Rule.identifier) None Precedence.NONE
  | TokenType.INT => Build_ParseRule (Some Rule.make_int) None Precedence.NONE
  | TokenType.FLOAT => Build_ParseRule (Some Rule.make_float) None Precedence.NONE
  | TokenType.PYTHON => Build_ParseRule (Some Rule.python) None Precedence.NONE
  | TokenType.STRING => Build_ParseRule (Some Rule.string) None Precedence.NONE
  | TokenType.GROUP_NAME =>
      Build_ParseRule (Some Rule.group_name) None Precedence.NONE
  | TokenType.OUT => Build_ParseRule None None Precedence.NONE
  | TokenType.FUNCTION => Build_ParseRule None None Precedence.NONE
  | TokenType.NODEGROUP => Build_ParseRule None None Precedence.NONE
  | TokenType.LOOP => Build_ParseRule None None Precedence.NONE
  | TokenType.TRUE => Build_ParseRule (Some Rule.boolean) None Precedence.NONE
  | TokenType.FALSE => Build_ParseRule (Some Rule.boolean) None Precedence.NONE
  | TokenType.NOT => Build_ParseRule (Some Rule.unary) None Precedence.NOT
  | TokenType.OR => Build_ParseRule None (Some Rule.binary) Precedence.OR
  | TokenType.AND => Build_ParseRule None (Some Rule.binary) Precedence.AND
  | TokenType.ERROR => Build_ParseRule None None Precedence.NONE
  | TokenType.EOL => Build_ParseRule None None Precedence.NONE
  end.

(** ** The scanner, at its boundary *)

(** Modelled from the spec: the scanner hands out the tokens of the source
    one by one and, once they are exhausted, the end-of-input marker for
    ever. [pending] are the tokens not yet handed out; the three numbers
    place the end-of-input marker. *)
Record Scanner : Type := Build_Scanner {
  pending : list Token;
  eol_line : nat;
  eol_col : nat;
  eol_start : nat
}.

Definition scan_token (sc : Scanner) : Token * Scanner :=
  match pending sc with
  | tok :: rest =>
      (tok, Build_Scanner rest (eol_line sc) (eol_col sc) (eol_start sc))
  | [] =>
      (Build_Token "" TokenType.EOL (eol_line sc) (eol_col sc) (eol_start sc) "", sc)
  end.

(** ** The parser state ([Parser.__init__]) *)

Record Error : Type := Build_Error {
  err_token : Token;
  err_message : string
}.

Record Parser : Type := Build_Parser {
  scanner : Scanner;
  token_buffer : list Token;
  current : Token;
  previous : Token;
  had_error : bool;
  panic_mode : bool;
  curr_node : option ast_defs.stmt;
  errors : list Error
}.

Definition new_Parser (sc : Scanner) : Parser :=
  let '(tok, sc) := scan_token sc in
  Build_Parser sc [] tok tok false false None [].

Definition set_curr_node (n : option ast_defs.stmt) (p : Parser) : Parser :=
  Build_Parser (scanner p) (token_buffer p) (current p) (previous p)
    (had_error p) (panic_mode p) n (errors p).

Definition set_panic_mode (b : bool) (p : Parser) : Parser :=
  Build_Parser (scanner p) (token_buffer p) (current p) (previous p)
    (had_error p) b (curr_node p) (errors p).

Definition set_previous (tok : Token) (p : Parser) : Parser :=
  Build_Parser (scanner p) (token_buffer p) (current p) tok
    (had_error p) (panic_mode p) (curr_node p) (errors p).

(** ** Text helpers *)

Definition dquote : string := String (ascii_of_nat 34) EmptyString.

(** [str(n)] for a natural number. *)
Definition str_nat (n : nat) : string := NilZero.string_of_uint (Nat.to_uint n).

(** [s[1:]], [s[1:-1]] and [s[2:-1]]. *)
Definition slice_1 (s : string) : string :=
  String.substring 1 (String.length s - 1) s.
Definition slice_1_m1 (s : string) : string :=
  String.substring 1 (String.length s - 2) s.
Definition slice_2_m1 (s : string) : string :=
  String.substring 2 (String.length s - 3) s.

(** The integer written by a text of decimal digits, for the host of
    the examples. *)
Definition digit_of (c : ascii) : option Z :=
  let n := nat_of_ascii c in
  if ((48 <=? n) && (n <=? 57))%nat then Some (Z.of_nat (n - 48)) else None.

Fixpoint int_digits (s : string) (acc : Z) : option Z :=
  match s with
  | EmptyString => Some acc
  | String c s' =>
      match digit_of c with
      | Some d => int_digits s' (10 * acc + d)
      | None => None
      end
  end.

Definition decimal_int (s : string) : option Z :=
  match s with
  | EmptyString => None
  | _ => int_digits s 0
  end.

(** ** Errors and the token window *)

(** [Parser.error_at] *)
Definition error_at (token : Token) (message : string) (p : Parser) : Parser :=
  if panic_mode p then p
  else
    let error : string :=
      ("line:" ++ str_nat (line token) ++ ":" ++ str_nat (col token)
       ++ ": Error")%string in
    let error : string :=
      match token_type token with
      | TokenType.EOL => (error ++ " at end:")%string
      | TokenType.ERROR => error
      | _ => (error ++ " at " ++ dquote ++ lexeme token ++ dquote ++ ":")%string
      end in
    Build_Parser (scanner p) (token_buffer p) (current p) (previous p)
      true true (curr_node p)
      (errors p ++ [Build_Error token (error ++ " " ++ message)%string]).

(** [Parser.error_at_current] *)
Definition error_at_current (message : string) (p : Parser) : Parser :=
  error_at (current p) message p.

(** [Parser.error] *)
Definition error (message : string) (p : Parser) : Parser :=
  error_at (previous p) message p.

(** The number of tokens the parser can still fetch before the
    end-of-input marker. *)
Definition tokens_left (p : Parser) : nat :=
  (length (token_buffer p) + length (pending (scanner p)))%nat.

(** One turn of the loop of [advance]: take the next token from the
    buffer (its last element) or from the scanner. *)
Definition fetch (p : Parser) : Parser :=
  match py_pop (token_buffer p) with
  | Some (tok, buf) =>
      Build_Parser (scanner p) buf tok (previous p) (had_error p)
        (panic_mode p) (curr_node p) (errors p)
  | None =>
      let '(tok, sc) := scan_token (scanner p) in
      Build_Parser sc (token_buffer p) tok (previous p) (had_error p)
        (panic_mode p) (curr_node p) (errors p)
  end.

(** The [while True] loop of [advance]: fetch until the token is not an
    ERROR token, reporting each ERROR token on the way. [n] bounds the
    tokens left, so the loop has exited when it reaches [0]. *)
Fixpoint advance_loop (n : nat) (p : Parser) : Parser :=
  let p := fetch p in
  if TokenType.eqb (token_type (current p)) TokenType.ERROR then
    let token := current p in
    let p := error_at (Build_Token (lexeme token) TokenType.ERROR (line token)
                         (col token) (start token) "")
               (error_msg token) p in
    match n with
    | O => p
    | S n' => advance_loop n' p
    end
  else p.

(** [Parser.advance] *)
Definition advance (p : Parser) : Parser :=
  advance_loop (tokens_left p) (set_previous (current p) p).

(** [Parser.check] *)
Definition check (k : TokenType.t) (p : Parser) : bool :=
  TokenType.eqb (token_type (current p)) k.

(** [Parser.match] *)
Definition match_ (k : TokenType.t) (p : Parser) : bool * Parser :=
  if check k p then (true, advance p) else (false, p).

(** [Parser.consume] *)
Definition consume (k : TokenType.t) (message : string) (p : Parser) : Parser :=
  if check k p then advance p else error_at_current message p.

(** [Parser.get_rule] *)
Definition get_rule (k : TokenType.t) : ParseRule := rules k.

(** [Parser.synchronize]: leave panic mode, then skip tokens until the
    previous token is the end of input or a semicolon, or the current
    token starts a declaration. [n] bounds the tokens left. *)
Fixpoint synchronize_loop (n : nat) (p : Parser) : Parser :=
  if TokenType.eqb (token_type (previous p)) TokenType.EOL then p
  else if TokenType.eqb (token_type (previous p)) TokenType.SEMICOLON then p
  else if TokenType.eqb (token_type (current p)) TokenType.OUT
          || TokenType.eqb (token_type (current p)) TokenType.FUNCTION
          || TokenType.eqb (token_type (current p)) TokenType.NODEGROUP then p
  else match n with
       | O => p
       | S n' => synchronize_loop n' (advance p)
       end.

Definition synchronize (p : Parser) : Parser :=
  synchronize_loop (tokens_left p + 2) (set_panic_mode false p).

(** ** The host: Python's builtins

    [int], [float] and [eval] are the host interpreter's: what they make
    of a text is a parameter of the parser. The outcome of [eval] is an
    object, an exception with its text, or no return at all; of an object
    the parser only needs to know what [float] makes of it. *)
Inductive py_object : Type :=
| PyNumber (as_float : string)          (* [float(v)] succeeds *)
| PyStr (conv : string + string)        (* a string: its float, or the text of the [ValueError] *)
| PyOther                               (* an object that is no number or string: [float(v)] raises [TypeError] *)
| PyRaises (e : exn) (err : string).    (* an object whose conversion raises [e] with the text [err]:
                                           [OverflowError] for an integer too large for a float *)

Inductive eval_outcome : Type :=
| EvalReturns (v : py_object)
| EvalRaises (e : exn) (err : string)
| EvalLoops.

(** [py_int s] is [int(s)] and [py_float s] is [float(s)], a float being
    kept as a text: [None] is their [ValueError]. [py_eval s] is
    [eval(s, vars(math))]. *)
Record Python : Type := Build_Python {
  py_int : string -> option Z;
  py_float : string -> option string;
  py_eval : string -> eval_outcome
}.

(** [except (SyntaxError, NameError, TypeError, ZeroDivisionError)] *)
Definition caught_by_python_rule (e : exn) : bool :=
  match e with
  | SyntaxError | NameError | TypeError | ZeroDivisionError => true
  | _ => false
  end.

(** A piece of message text between double quotes. *)
Definition quoted (s : string) : string := (dquote ++ s ++ dquote)%string.

Section Rules.
(** [string_to_data_type] of [type_defs], the host, the parser of
    sub-expressions ([parse_precedence] with less fuel) and the fuel of
    the loops. *)
Variable string_to_data_type : string -> option DataType.
Variable py : Python.
Variable pp : Precedence.t -> bool -> Parser -> result (option ast_defs.stmt * Parser).
Variable n : nat.

(** [isinstance(node, ast_defs.expr)], where the code asserts it. *)
Definition as_expr (node : option ast_defs.stmt) : result (option ast_defs.expr) :=
  match node with
  | None => Ok None
  | Some (ast_defs.Expr e) => Ok (Some e)
  | Some _ => Raise (AssertionError "")
  end.

(** [Parser.expression] *)
Definition expression (p : Parser) : result (option ast_defs.expr * Parser) :=
  '(node, p) ← pp Precedence.OR false p;
  e ← as_expr node;
  Ok (e, p).

(** The inner [while self.match(TokenType.COMMA)] of [call_args]. *)
Fixpoint keyword_loop (k : nat) (keyword_args : list (Token * string * ast_defs.expr))
    (p : Parser)
    : result (option (list (Token * string * ast_defs.expr)) * Parser) :=
  match k with
  | O => Diverge
  | S k' =>
      let '(b, p) := match_ TokenType.COMMA p in
      if negb b then Ok (Some keyword_args, p)
      else
        let p := consume TokenType.IDENTIFIER
                   "No positional arguments allowed after keyword argument." p in
        let arg_token := previous p in
        let p := consume TokenType.EQUAL
                   ("Expect " ++ quoted "=" ++ " after keyword.")%string p in
        '(value, p) ← expression p;
        match value with
        | None => Ok (None, p)
        | Some v =>
            keyword_loop k'
              (keyword_args ++ [ast_defs.Keyword arg_token (lexeme arg_token) v]) p
        end
  end.

(** The outer [while] of [call_args]. *)
Fixpoint call_args_loop (k : nat) (pos_args : list ast_defs.expr)
    (keyword_args : list (Token * string * ast_defs.expr)) (p : Parser)
    : result (option (list ast_defs.expr * list (Token * string * ast_defs.expr))
              * Parser) :=
  match k with
  | O => Diverge
  | S k' =>
      let '(b, p) := match_ TokenType.COMMA p in
      if b || TokenType.eqb (token_type (previous p)) TokenType.LEFT_PAREN then
        let '(b, p) := match_ TokenType.IDENTIFIER p in
        if b then
          if check TokenType.EQUAL p then
            let arg_token := previous p in
            let p := advance p in
            '(value, p) ← expression p;
            match value with
            | None => Ok (None, p)
            | Some v =>
                '(kws, p) ← keyword_loop k'
                              (keyword_args
                               ++ [ast_defs.Keyword arg_token (lexeme arg_token) v]) p;
                match kws with
                | None => Ok (None, p)
                | Some kws => call_args_loop k' pos_args kws p
                end
            end
          else
            '(node, p) ← pp Precedence.OR true p;
            pos_arg ← as_expr node;
            match pos_arg with
            | None => Ok (None, p)
            | Some e => call_args_loop k' (pos_args ++ [e]) keyword_args p
            end
        else
          '(pos_arg, p) ← expression p;
          match pos_arg with
          | None => Ok (None, p)
          | Some e => call_args_loop k' (pos_args ++ [e]) keyword_args p
          end
      else Ok (Some (pos_args, keyword_args), p)
  end.

(** [Parser.call_args] *)
Definition call_args (p : Parser)
    : result (option (list ast_defs.expr * list (Token * string * ast_defs.expr))
              * Parser) :=
  '(ret, p) ← (if negb (check TokenType.RIGHT_PAREN p)
               then call_args_loop n [] [] p
               else Ok (Some ([], []), p));
  match ret with
  | None => Ok (None, p)
  | Some r =>
      Ok (Some r,
          consume TokenType.RIGHT_PAREN
            ("Expect " ++ quoted ")" ++ " after arguments.")%string p)
  end.

(** The rewrite of [join_geometry(a, b, c)] into [join_geometry([a, b, c])]. *)
Definition join_geometry_args (token : Token) (func : ast_defs.expr)
    (pos_args : list ast_defs.expr) : list ast_defs.expr :=
  match func with
  | ast_defs.Name _ id =>
      if String.eqb id "join_geometry" && (1 <? length pos_args)%nat
      then [ast_defs.ListLiteral token pos_args]
      else pos_args
  | _ => pos_args
  end.

Definition make_int (can_assign : bool) (p : Parser) : result Parser :=
  let token := previous p in
  match py_int py (lexeme token) with
  | None => Raise ValueError
  | Some value =>
      Ok (set_curr_node
            (Some (ast_defs.Expr (ast_defs.Constant token (ast_defs.CInt value) INT))) p)
  end.

Definition make_float (can_assign : bool) (p : Parser) : result Parser :=
  let token := previous p in
  match py_float py (lexeme token) with
  | None => Raise ValueError
  | Some value =>
      Ok (set_curr_node
            (Some (ast_defs.Expr (ast_defs.Constant token (ast_defs.CFloat value) FLOAT)))
            p)
  end.

Definition python (can_assign : bool) (p : Parser) : result Parser :=
  let token := previous p in
  let expression := slice_1 (lexeme token) in
  '(value, p) ← match py_eval py expression with
                | EvalReturns v => Ok (v, p)
                | EvalRaises e err =>
                    if caught_by_python_rule e
                    then Ok (PyNumber "0.0",
                             error ("Invalid python syntax: " ++ err ++ ".")%string p)
                    else Raise e
                | EvalLoops => Diverge
                end;
  '(converted_value, p) ←
     match value with
     | PyNumber f => Ok (f, p)
     | PyStr (inl f) => Ok (f, p)
     | PyStr (inr err) =>
         Ok ("0.0",
             error ("Expected result of python expression to be a number: "
                    ++ err ++ ".")%string p)
     | PyOther => Raise TypeError
     | PyRaises ValueError err =>
         Ok ("0.0",
             error ("Expected result of python expression to be a number: "
                    ++ err ++ ".")%string p)
     | PyRaises e _ => Raise e
     end;
  Ok (set_curr_node
        (Some (ast_defs.Expr
                 (ast_defs.Constant token (ast_defs.CFloat converted_value) FLOAT))) p).

Definition default_ (can_assign : bool) (p : Parser) : result Parser :=
  Ok (set_curr_node
        (Some (ast_defs.Expr (ast_defs.Constant (previous p) ast_defs.CNone DEFAULT))) p).

(** The [while not self.check(TokenType.EQUAL)] loop of [identifier]. *)
Fixpoint identifier_targets (k : nat) (targets : list ast_defs.target) (p : Parser)
    : result (list ast_defs.target * Parser) :=
  match k with
  | O => Diverge
  | S k' =>
      if check TokenType.EQUAL p then Ok (targets, p)
      else
        let '(targets, p) :=
          let '(b, p) := match_ TokenType.IDENTIFIER p in
          if b then (targets ++ [Some (previous p, lexeme (previous p))], p)
          else
            let '(b, p) := match_ TokenType.UNDERSCORE p in
            if b then (targets ++ [None], p)
            else (targets,
                  error_at_current
                    ("Expect variable name or " ++ quoted "_" ++ " separated by "
                     ++ quoted "," ++ ". ")%string p) in
        let '(b, p) := match_ TokenType.COMMA p in
        if negb b then Ok (targets, p)
        else identifier_targets k' targets p
  end.

Definition identifier (can_assign : bool) (p : Parser) : result Parser :=
  let identifier_token := previous p in
  let name := lexeme identifier_token in
  let '(is_assignment, p) :=
    if can_assign
    then (if check TokenType.EQUAL p then (true, p) else match_ TokenType.COMMA p)
    else (false, p) in
  if is_assignment then
    '(targets, p) ← identifier_targets n [Some (identifier_token, name)] p;
    let p := consume TokenType.EQUAL ("Expect " ++ quoted "=")%string p in
    let equal_token := previous p in
    '(value, p) ← expression p;
    match value with
    | None => Ok p
    | Some v => Ok (set_curr_node (Some (ast_defs.Assign equal_token targets v)) p)
    end
  else Ok (set_curr_node (Some (ast_defs.Expr (ast_defs.Name identifier_token name))) p).

Definition string_ (can_assign : bool) (p : Parser) : result Parser :=
  let token := previous p in
  Ok (set_curr_node
        (Some (ast_defs.Expr
                 (ast_defs.Constant token (ast_defs.CStr (slice_1_m1 (lexeme token)))
                    STRING))) p).

Definition boolean (can_assign : bool) (p : Parser) : result Parser :=
  let token := previous p in
  Ok (set_curr_node
        (Some (ast_defs.Expr
                 (ast_defs.Constant token
                    (ast_defs.CBool (String.eqb (lexeme token) "true")) BOOL))) p).

Definition grouping (can_assign : bool) (p : Parser) : result Parser :=
  '(e, p) ← expression p;
  let p := set_curr_node (option_map ast_defs.Expr e) p in
  Ok (consume TokenType.RIGHT_PAREN
        ("Expect closing " ++ quoted ")" ++ " after expression.")%string p).

Definition unary (can_assign : bool) (p : Parser) : result Parser :=
  let operator_token := previous p in
  let operator_type := token_type operator_token in
  '(node, p) ← pp Precedence.UNARY false p;
  operand ← as_expr node;
  match operand with
  | None => Ok p
  | Some operand =>
      match operator_type with
      | TokenType.MINUS =>
          Ok (set_curr_node
                (Some (ast_defs.Expr
                         (ast_defs.UnaryOp operator_token
                            (ast_defs.USub operator_token) operand))) p)
      | TokenType.NOT =>
          Ok (set_curr_node
                (Some (ast_defs.Expr
                         (ast_defs.UnaryOp operator_token
                            (ast_defs.Not operator_token) operand))) p)
      | _ => Raise (AssertionError "Unreachable code")
      end
  end.

Definition make_vector (can_assign : bool) (p : Parser) : result Parser :=
  let bracket_token := previous p in
  let zero := Some (ast_defs.Constant bracket_token (ast_defs.CInt 0) DEFAULT) in
  let '(b, p) := match_ TokenType.RIGHT_BRACE p in
  '(xyz, p) ←
     (if negb b then
        '(x, p) ← expression p;
        let '(b, p) := match_ TokenType.COMMA p in
        '(y, p) ← (if b then expression p else Ok (zero, p));
        let '(b, p) := match_ TokenType.COMMA p in
        '(z, p) ← (if b then expression p else Ok (zero, p));
        Ok ((x, y, z),
            consume TokenType.RIGHT_BRACE
              ("Expect closing " ++ quoted "}" ++ ".")%string p)
      else Ok ((zero, zero, zero), p));
  match xyz with
  | (Some x, Some y, Some z) =>
      Ok (set_curr_node
            (Some (ast_defs.Expr (ast_defs.Vec3 bracket_token x y z))) p)
  | _ => Ok p
  end.

Definition group_name (can_assign : bool) (p : Parser) : result Parser :=
  let token := previous p in
  let func := ast_defs.Name token (slice_2_m1 (lexeme token)) in
  let p := consume TokenType.LEFT_PAREN
             ("Expect " ++ quoted "(" ++ " after node group name.")%string p in
  '(ret, p) ← call_args p;
  match ret with
  | None => Ok p
  | Some (pos_args, keyword_args) =>
      Ok (set_curr_node
            (Some (ast_defs.Expr
                     (ast_defs.Call token func
                        (join_geometry_args token func pos_args) keyword_args))) p)
  end.

Definition call (can_assign : bool) (p : Parser) : result Parser :=
  let token := previous p in
  match curr_node p with
  | None => Raise (AssertionError "Error in the parser")
  | Some func =>
      match func with
      | ast_defs.Expr ((ast_defs.Name _ _ | ast_defs.Attribute _ _ _) as func) =>
          '(ret, p) ← call_args p;
          match ret with
          | None => Ok p
          | Some (pos_args, keyword_args) =>
              Ok (set_curr_node
                    (Some (ast_defs.Expr
                             (ast_defs.Call token func
                                (join_geometry_args token func pos_args)
                                keyword_args))) p)
          end
      | _ => Ok (error "Expected function name to call." p)
      end
  end.

Definition dot (can_assign : bool) (p : Parser) : result Parser :=
  let token := previous p in
  let p := consume TokenType.IDENTIFIER
             ("Expect output name or function call after " ++ quoted "." ++ ".")%string
             p in
  let identifier_token := previous p in
  match curr_node p with
  | None => Ok p
  | Some (ast_defs.Expr value) =>
      Ok (set_curr_node
            (Some (ast_defs.Expr
                     (ast_defs.Attribute token value (lexeme identifier_token)))) p)
  | Some _ => Raise (AssertionError "")
  end.

(** The operator node of [binary]; [None] is its [assert False]. *)
Definition binary_operation (operator_token : Token) : option ast_defs.operator :=
  match token_type operator_token with
  | TokenType.PLUS => Some (ast_defs.Add operator_token)
  | TokenType.MINUS => Some (ast_defs.Sub operator_token)
  | TokenType.SLASH => Some (ast_defs.Div operator_token)
  | TokenType.STAR => Some (ast_defs.Mult operator_token)
  | TokenType.PERCENT => Some (ast_defs.Mod operator_token)
  | TokenType.STAR_STAR | TokenType.HAT => Some (ast_defs.Pow operator_token)
  | TokenType.GREATER => Some (ast_defs.Gt operator_token)
  | TokenType.GREATER_EQUAL => Some (ast_defs.GtE operator_token)
  | TokenType.LESS => Some (ast_defs.Lt operator_token)
  | TokenType.LESS_EQUAL => Some (ast_defs.LtE operator_token)
  | TokenType.EQUAL_EQUAL => Some (ast_defs.Eq operator_token)
  | TokenType.BANG_EQUAL => Some (ast_defs.NotEq operator_token)
  | TokenType.AND => Some (ast_defs.And operator_token)
  | TokenType.OR => Some (ast_defs.Or operator_token)
  | _ => None
  end.

Definition binary (can_assign : bool) (p : Parser) : result Parser :=
  let operator_token := previous p in
  let operator_type := token_type operator_token in
  let left_node := curr_node p in
  let rule := get_rule operator_type in
  match Precedence.of_value (Precedence.value (precedence rule) + 1) with
  | None => Raise ValueError
  | Some right_precedence =>
      '(right_node, p) ← pp right_precedence false p;
      match left_node, right_node with
      | None, _ | _, None => Ok p
      | Some (ast_defs.Expr l), Some (ast_defs.Expr r) =>
          match binary_operation operator_token with
          | None => Raise (AssertionError "Unreachable code")
          | Some operation =>
              Ok (set_curr_node
                    (Some (ast_defs.Expr
                             (ast_defs.BinOp operator_token l operation r)))
                    p)
          end
      | Some _, Some _ => Raise (AssertionError "")
      end
  end.

(** The call of a prefix or infix rule taken from the table. *)
Definition run_prefix (r : Rule.prefix) (can_assign : bool) (p : Parser)
    : result Parser :=
  match r with
  | Rule.grouping => grouping can_assign p
  | Rule.make_vector => make_vector can_assign p
  | Rule.unary => unary can_assign p
  | Rule.default => default_ can_assign p
  | Rule.identifier => identifier can_assign p
  | Rule.make_int => make_int can_assign p
  | Rule.make_float => make_float can_assign p
  | Rule.python => python can_assign p
  | Rule.string => string_ can_assign p
  | Rule.group_name => group_name can_assign p
  | Rule.boolean => boolean can_assign p
  end.

(** [infix_rule(self, can_assign)]; calling [None] raises [TypeError]. *)
Definition run_infix (r : option Rule.infix) (can_assign : bool) (p : Parser)
    : result Parser :=
  match r with
  | None => Raise TypeError
  | Some Rule.call => call can_assign p
  | Some Rule.dot => dot can_assign p
  | Some Rule.binary => binary can_assign p
  end.

(** The [while] loop of [parse_precedence]: as long as the current token
    binds at least as tightly as [precedence], consume it and run its
    infix rule. *)
Fixpoint infix_loop (k : nat) (precedence_ : Precedence.t) (can_assign : bool)
    (p : Parser) : result Parser :=
  match k with
  | O => Diverge
  | S k' =>
      if (Precedence.value precedence_
          <=? Precedence.value (precedence (get_rule (token_type (current p)))))%nat
      then
        let p := advance p in
        p ← run_infix (infix (get_rule (token_type (previous p)))) can_assign p;
        infix_loop k' precedence_ can_assign p
      else Ok p
  end.

(** The body of [Parser.parse_precedence]. *)
Definition parse_precedence_body (precedence_ : Precedence.t) (skip_advance : bool)
    (p : Parser) : result (option ast_defs.stmt * Parser) :=
  let p := if skip_advance then p else advance p in
  match prefix (get_rule (token_type (previous p))) with
  | None => Ok (None, error "Expect expression." p)
  | Some prefix_rule =>
      let can_assign :=
        (Precedence.value precedence_ <=? Precedence.value Precedence.ASSIGNMENT)%nat in
      p ← run_prefix prefix_rule can_assign p;
      p ← infix_loop n precedence_ can_assign p;
      let '(b, p) := if can_assign then match_ TokenType.EQUAL p else (false, p) in
      let p := if b then error "Invalid assignment target." p else p in
      let p := match curr_node p with
               | None => error "Expected expression with a value." p
               | Some _ => p
               end in
      match curr_node p, can_assign with
      | Some (ast_defs.Expr _), _ | Some _, true | None, _ => Ok (curr_node p, p)
      | Some _, false => Raise (AssertionError "")
      end
  end.
End Rules.

Section Declarations.
(** As above, with [decl], the parser of the statements of a body
    ([declaration] with less fuel). *)
Variable string_to_data_type : string -> option DataType.
Variable py : Python.
Variable pp : Precedence.t -> bool -> Parser -> result (option ast_defs.stmt * Parser).
Variable decl : Parser -> result (option ast_defs.stmt * Parser).
Variable n : nat.

(** [Parser.statement] *)
Definition statement (p : Parser) : result (option ast_defs.stmt * Parser) :=
  '(node, p) ← pp Precedence.ASSIGNMENT false p;
  let '(_, p) := match_ TokenType.SEMICOLON p in
  Ok (node, set_curr_node None p).

(** [Parser.parse_type] *)
Definition parse_type (p : Parser) : DataType * Parser :=
  let p := consume TokenType.COLON "Expected type after argument name." p in
  let '(b, p) := match_ TokenType.IDENTIFIER p in
  if b then
    match string_to_data_type (lexeme (previous p)) with
    | Some ty => (ty, p)
    | None =>
        (UNKNOWN,
         error ("Invalid data type: " ++ lexeme (previous p) ++ ".")%string p)
    end
  else (UNKNOWN, error "Expected a data type" p).

(** [Parser.parse_arg] *)
Definition parse_arg (p : Parser) : result (ast_defs.arg * Parser) :=
  let p := consume TokenType.IDENTIFIER "Expect argument name" p in
  let token := previous p in
  let name := lexeme token in
  let '(var_type, p) := parse_type p in
  let '(b, p) := match_ TokenType.EQUAL p in
  '(default, p) ← (if b then expression pp p else Ok (None, p));
  Ok (ast_defs.Build_arg token name var_type default, p).

(** The [while not self.match(TokenType.EQUAL)] loop of [out]. *)
Fixpoint out_targets (k : nat) (targets : list ast_defs.target) (p : Parser)
    : result (list ast_defs.target * Parser) :=
  match k with
  | O => Diverge
  | S k' =>
      let '(b, p) := match_ TokenType.EQUAL p in
      if b then Ok (targets, p)
      else
        let '(targets, p) :=
          let '(b, p) := match_ TokenType.IDENTIFIER p in
          if b then (targets ++ [Some (previous p, lexeme (previous p))], p)
          else
            let '(b, p) := match_ TokenType.UNDERSCORE p in
            if b then (targets ++ [None], p)
            else (targets,
                  error_at_current
                    ("Expect variable name or " ++ quoted "_" ++ " after "
                     ++ quoted "out" ++ ".")%string p) in
        let '(b, p) := match_ TokenType.COMMA p in
        if negb b
        then Ok (targets,
                 consume TokenType.EQUAL ("Expected " ++ quoted "=" ++ ". ")%string p)
        else out_targets k' targets p
  end.

(** [Parser.out] *)
Definition out (p : Parser) : result (option ast_defs.stmt * Parser) :=
  let token := previous p in
  '(targets, p) ← out_targets n [] p;
  let p := match targets with
           | [] => error_at token
                     ("Expect variable name or " ++ quoted "_" ++ " after "
                      ++ quoted "out" ++ ".")%string p
           | _ => p
           end in
  '(value, p) ← expression pp p;
  match value with
  | None => Ok (None, p)
  | Some v =>
      let '(_, p) := match_ TokenType.SEMICOLON p in
      Ok (Some (ast_defs.Out token targets v), set_curr_node None p)
  end.

(** The three loops of [parse_func_structure]: the arguments, the
    returned arguments after the first, the statements of the body. *)
Fixpoint func_args (k : nat) (args : list ast_defs.arg) (p : Parser)
    : result (list ast_defs.arg * Parser) :=
  match k with
  | O => Diverge
  | S k' =>
      if check TokenType.RIGHT_PAREN p then Ok (args, p)
      else
        '(a, p) ← parse_arg p;
        let '(b, p) := match_ TokenType.COMMA p in
        if negb b then Ok (args ++ [a], p)
        else func_args k' (args ++ [a]) p
  end.

Fixpoint func_returns (k : nat) (returns : list ast_defs.arg) (p : Parser)
    : result (list ast_defs.arg * Parser) :=
  match k with
  | O => Diverge
  | S k' =>
      let '(b, p) := match_ TokenType.COMMA p in
      if negb b then Ok (returns, p)
      else
        '(a, p) ← parse_arg p;
        func_returns k' (returns ++ [a]) p
  end.

Fixpoint block_body (k : nat) (body : list ast_defs.stmt) (p : Parser)
    : result (list ast_defs.stmt * Parser) :=
  match k with
  | O => Diverge
  | S k' =>
      if check TokenType.RIGHT_BRACE p then Ok (body, p)
      else
        let '(b, p) := match_ TokenType.EOL p in
        if b then Ok (body, p)
        else
          '(stmt, p) ← decl p;
          match stmt with
          | None => block_body k' body p
          | Some s => block_body k' (body ++ [s]) p
          end
  end.

(** [Parser.parse_func_structure] *)
Definition parse_func_structure (p : Parser)
    : result (list ast_defs.arg * list ast_defs.stmt * list ast_defs.arg * Parser) :=
  let p := consume TokenType.LEFT_PAREN
             ("Expect " ++ quoted "(" ++ " after name.")%string p in
  '(args, p) ← func_args n [] p;
  let p := consume TokenType.RIGHT_PAREN
             ("Expect closing " ++ quoted ")" ++ ".")%string p in
  let '(b, p) := match_ TokenType.ARROW p in
  '(returns, p) ← (if b then
                     '(a, p) ← parse_arg p;
                     func_returns n [a] p
                   else Ok ([], p));
  let p := consume TokenType.LEFT_BRACE "Expect function body." p in
  '(body, p) ← block_body n [] p;
  let p := consume TokenType.RIGHT_BRACE
             ("Expect closing " ++ quoted "}" ++ ".")%string p in
  Ok (args, body, returns, set_curr_node None p).

(** The head shared by [function_def] and [nodegroup_def]: the name. *)
Definition def_name (message : string) (p : Parser) : Token * string * Parser :=
  let '(b, p) := match_ TokenType.IDENTIFIER p in
  let '(b, p) := if b then (true, p) else match_ TokenType.STRING p in
  let p := if b then p else error message p in
  let token := previous p in
  let name := if TokenType.eqb (token_type token) TokenType.STRING
              then slice_1_m1 (lexeme token) else lexeme token in
  (token, name, p).

(** [Parser.function_def] *)
Definition function_def (p : Parser) : result (option ast_defs.stmt * Parser) :=
  let '(token, name, p) := def_name "Expected function name." p in
  '(args, body, returns, p) ← parse_func_structure p;
  Ok (Some (ast_defs.FunctionDef token name args body returns), p).

(** [Parser.nodegroup_def] *)
Definition nodegroup_def (p : Parser) : result (option ast_defs.stmt * Parser) :=
  let '(token, name, p) := def_name "Expected node group name." p in
  '(args, body, returns, p) ← parse_func_structure p;
  Ok (Some (ast_defs.NodegroupDef token name args body returns), p).

(** [Parser.parse_int] *)
Definition parse_int (p : Parser) : result (Z * Parser) :=
  let '(negative, p) := match_ TokenType.MINUS p in
  let p := consume TokenType.INT "Expected an integer" p in
  if panic_mode p then Ok (0, p)
  else match py_int py (lexeme (previous p)) with
       | None => Raise ValueError
       | Some z => Ok (if negative then - z else z, p)
       end.

(** [Parser.loop] *)
Definition loop (p : Parser) : result (option ast_defs.stmt * Parser) :=
  let token := previous p in
  let '(b, p) := match_ TokenType.IDENTIFIER p in
  let '(var, p) :=
    if b then
      let name := (previous p, lexeme (previous p)) in
      (Some name,
       consume TokenType.EQUAL
         ("Expect " ++ quoted "=" ++ " after loop variable.")%string p)
    else (None, p) in
  '(end_, p) ← parse_int p;
  let '(b, p) := match_ TokenType.ARROW p in
  '(bounds, p) ← (if b then
                    '(e, p) ← parse_int p;
                    Ok ((end_, e), p)
                  else Ok ((1, end_), p));
  let p := consume TokenType.LEFT_BRACE "Expect loop body." p in
  '(body, p) ← block_body n [] p;
  let p := consume TokenType.RIGHT_BRACE
             ("Expect closing " ++ quoted "}" ++ ".")%string p in
  Ok (Some (ast_defs.Loop token var (fst bounds) (snd bounds) body),
      set_curr_node None p).

(** [Parser.declaration] *)
Definition declaration_body (p : Parser) : result (option ast_defs.stmt * Parser) :=
  let '(b, p) := match_ TokenType.OUT p in
  if b then out p
  else
    let '(b, p) := match_ TokenType.FUNCTION p in
    if b then function_def p
    else
      let '(b, p) := match_ TokenType.NODEGROUP p in
      if b then nodegroup_def p
      else
        let '(b, p) := match_ TokenType.LOOP p in
        if b then loop p
        else statement p.
End Declarations.

Section Parse.
Variable string_to_data_type : string -> option DataType.
Variable py : Python.

(** [Parser.parse_precedence]. Python bounds the depth of its call
    stack: [fuel] is the number of nested calls of [parse_precedence] and
    [declaration] the host still has room for, and a call beyond it
    raises [RecursionError]. What is left also bounds the loops below
    the call. *)
Fixpoint parse_precedence (fuel : nat) (precedence_ : Precedence.t)
    (skip_advance : bool) (p : Parser) : result (option ast_defs.stmt * Parser) :=
  match fuel with
  | O => Raise RecursionError
  | S fuel' =>
      parse_precedence_body py (parse_precedence fuel') fuel'
        precedence_ skip_advance p
  end.

(** [Parser.declaration] *)
Fixpoint declaration (fuel : nat) (p : Parser)
    : result (option ast_defs.stmt * Parser) :=
  match fuel with
  | O => Raise RecursionError
  | S fuel' =>
      declaration_body string_to_data_type py (parse_precedence fuel')
        (declaration fuel') fuel' p
  end.

(** The [while not self.match(TokenType.EOL)] loop of [parse]. *)
Fixpoint parse_loop (fuel : nat) (k : nat) (body : list ast_defs.stmt) (p : Parser)
    : result (ast_defs.Module_ * Parser) :=
  match k with
  | O => Diverge
  | S k' =>
      let '(b, p) := match_ TokenType.EOL p in
      if b then Ok (ast_defs.Build_Module body, p)
      else
        '(statement, p) ← declaration fuel p;
        let body := match statement with
                    | Some s => body ++ [s]
                    | None => body
                    end in
        let p := if panic_mode p then synchronize p else p in
        parse_loop fuel k' body p
  end.

(** [Parser.parse] *)
Definition parse (fuel : nat) (p : Parser) : result (ast_defs.Module_ * Parser) :=
  parse_loop fuel fuel [] p.
End Parse.

(** ** Tokens and hosts of the examples *)

Definition tok (k : TokenType.t) (s : string) (c : nat) : Token :=
  Build_Token s k 1 c (c - 1) "".

Definition demo_data_types (s : string) : option DataType :=
  if String.eqb s "float" then Some FLOAT
  else if String.eqb s "int" then Some INT
  else None.

(** A host whose [eval] gives a list for the text [[1]] and the number
    itself for anything else. *)
Definition demo_eval (s : string) : eval_outcome :=
  if String.eqb s "[1]" then EvalReturns PyOther else EvalReturns (PyNumber s).

(** The host of the examples: decimal integers, any text as a float. *)
Definition demo_python : Python :=
  Build_Python decimal_int (fun s => Some s) demo_eval.

(** The parser started on the tokens [toks], the end of input at column
    [c]. *)
Definition parser_on (toks : list Token) (c : nat) : Parser :=
  new_Parser (Build_Scanner toks 1 c (c - 1)).

(** The token sequences of the examples: [1 not 2], [-)(], an
    embedded expression whose value is a list, and [) x ? ;] where [?] is a
    character the scanner rejects. *)
Definition demo_stray_not : list Token :=
  [tok TokenType.INT "1" 1; tok TokenType.NOT "not" 3; tok TokenType.INT "2" 7].

Definition demo_stray_call : list Token :=
  [tok TokenType.MINUS "-" 1; tok TokenType.RIGHT_PAREN ")" 2;
   tok TokenType.LEFT_PAREN "(" 3].

Definition demo_python_list : list Token :=
  [tok TokenType.PYTHON "#[1]" 1].


(** ** Notions used to state the properties of the parser *)

(** ** Arithmetic expressions, as the parser reads them *)

(** The table precedence of a token, the tokens whose infix rule is
    [binary] and those whose prefix rule is [unary]. *)
Definition level (op : Token) : nat :=
  Precedence.value (precedence (rules (token_type op))).

Definition is_binary (op : Token) : bool :=
  match infix (rules (token_type op)) with
  | Some Rule.binary => true
  | _ => false
  end.

Definition is_unary (op : Token) : bool :=
  match prefix (rules (token_type op)) with
  | Some Rule.unary => true
  | _ => false
  end.

(** The tokens that are an operand by themselves: an integer, a float, a
    string, [true] or [false], the default [_], a name, an embedded
    Python expression. *)
Definition is_literal (a : Token) : bool :=
  match prefix (rules (token_type a)) with
  | Some (Rule.make_int | Rule.make_float | Rule.string | Rule.boolean
          | Rule.default | Rule.identifier | Rule.python) => true
  | _ => false
  end.

(** The tokens an expression can start with: those with a prefix rule. *)
Definition starts_expression (t : Token) : bool :=
  match prefix (rules (token_type t)) with
  | Some _ => true
  | None => false
  end.

(** The operator node of [unary]; [None] is its [assert False]. *)
Definition unary_operation (operator_token : Token) : option ast_defs.unaryop :=
  match token_type operator_token with
  | TokenType.MINUS => Some (ast_defs.USub operator_token)
  | TokenType.NOT => Some (ast_defs.Not operator_token)
  | _ => None
  end.

(** What [call] accepts as the function: a name or an attribute. *)
Definition callable (func : ast_defs.expr) : bool :=
  match func with
  | ast_defs.Name _ _ | ast_defs.Attribute _ _ _ => true
  | _ => false
  end.

(** An expression is a chain: a first operand followed by suffixes. An
    operand is a literal token; a chain between parentheses; a prefix
    operator with the chain it applies to; a vector of up to three
    components between braces; or the name of a node group with its
    arguments. A suffix is a binary operator with its right operand,
    itself a chain; the arguments of a call between parentheses; or a
    dot with the name of an attribute. Arguments and components are a
    series of items separated by commas, an item being a chain, or a
    name and an equal sign before a chain. *)
#[local] Unset Elimination Schemes.
Inductive chain : Type :=
| Chain (first : operand) (rest : list suffix)
with operand : Type :=
| OLit (a : Token)
| OGroup (lp : Token) (inner : chain) (rp : Token)
| OUnary (op : Token) (inner : chain)
| OVector (lb : Token) (components : series) (rb : Token)
| OGroupCall (name lp : Token) (args : series) (rp : Token)
with suffix : Type :=
| LBinary (op : Token) (right : chain)
| LCall (lp : Token) (args : series) (rp : Token)
| LDot (dot name : Token)
with series : Type :=
| NoItems
| Items (first : item) (more : list (Token * item))
with item : Type :=
| Positional (x : chain)
| Named (name eq : Token) (x : chain).
#[local] Set Elimination Schemes.

Definition is_named (it : item) : bool :=
  match it with
  | Positional _ => false
  | Named _ _ _ => true
  end.

(** The token a suffix starts with. *)
Definition suffix_token (l : suffix) : Token :=
  match l with
  | LBinary op _ => op
  | LCall lp _ _ => lp
  | LDot dot _ => dot
  end.

(** What can follow an expression without being read into it: a token
    of at most this precedence. The operand of a prefix operator is read
    at the precedence [UNARY] whatever the precedence the operator itself
    is read at, so an expression that ends with one is followed by a
    token that binds less tightly than [UNARY]; and a binary operator has
    read, as its right operand, everything that binds more tightly than
    itself. *)
Section SpineTail.
Variable suffix_tail : suffix -> nat.

Fixpoint spine_tail_with (hi : nat) (rest : list suffix) : nat :=
  match rest with
  | [] => hi
  | l :: rest' => spine_tail_with (suffix_tail l) rest'
  end.
End SpineTail.

Fixpoint tail (ch : chain) : nat :=
  match ch with
  | Chain first rest => spine_tail_with suffix_tail (operand_tail first) rest
  end
with operand_tail (o : operand) : nat :=
  match o with
  | OUnary _ inner =>
      Nat.min (Nat.pred (Precedence.value Precedence.UNARY)) (tail inner)
  | _ => Precedence.value Precedence.PRIMARY
  end
with suffix_tail (l : suffix) : nat :=
  match l with
  | LBinary op r => Nat.min (level op) (tail r)
  | _ => Precedence.value Precedence.PRIMARY
  end.

Definition spine_tail : nat -> list suffix -> nat := spine_tail_with suffix_tail.

(** The token sequence of an expression. *)
Fixpoint tokens_of (ch : chain) : list Token :=
  match ch with
  | Chain first rest => operand_tokens first ++ flat_map suffix_tokens rest
  end
with operand_tokens (o : operand) : list Token :=
  match o with
  | OLit a => [a]
  | OGroup lp inner rp => lp :: tokens_of inner ++ [rp]
  | OUnary op inner => op :: tokens_of inner
  | OVector lb components rb => lb :: items_tokens components ++ [rb]
  | OGroupCall name lp args rp => name :: lp :: items_tokens args ++ [rp]
  end
with suffix_tokens (l : suffix) : list Token :=
  match l with
  | LBinary op r => op :: tokens_of r
  | LCall lp args rp => lp :: items_tokens args ++ [rp]
  | LDot dot name => [dot; name]
  end
with items_tokens (a : series) : list Token :=
  match a with
  | NoItems => []
  | Items first more =>
      item_tokens first
      ++ flat_map (fun '(comma, it) => comma :: item_tokens it) more
  end
with item_tokens (it : item) : list Token :=
  match it with
  | Positional x => tokens_of x
  | Named name eq x => name :: eq :: tokens_of x
  end.

Definition spine_tokens (rest : list suffix) : list Token :=
  flat_map suffix_tokens rest.

Definition more_tokens (more : list (Token * item)) : list Token :=
  flat_map (fun '(comma, it) => comma :: item_tokens it) more.

(** The tree of an expression. The suffixes nest to the left: the node
    built so far is the left operand of the next binary operator, the
    function of the next call, the value of the next attribute. *)
Section NestLeft.
Variable step : option ast_defs.expr -> suffix -> option ast_defs.expr.

Fixpoint nest_left_with (acc : option ast_defs.expr) (rest : list suffix)
    : option ast_defs.expr :=
  match rest with
  | [] => acc
  | l :: rest' => nest_left_with (step acc l) rest'
  end.
End NestLeft.

(** The positional and the keyword arguments among the items. *)
Definition keyword : Type := Token * string * ast_defs.expr.

Section Collect.
Variable tree : item -> option (ast_defs.expr + keyword).

Fixpoint collect_with (more : list (Token * item))
    : option (list ast_defs.expr * list keyword) :=
  match more with
  | [] => Some ([], [])
  | (_, it) :: more' =>
      match tree it, collect_with more' with
      | Some (inl e), Some (pos_args, keyword_args) =>
          Some (e :: pos_args, keyword_args)
      | Some (inr k), Some (pos_args, keyword_args) =>
          Some (pos_args, k :: keyword_args)
      | _, _ => None
      end
  end.
End Collect.

(** The components of a vector: the missing ones are the constant [0]
    at the opening brace. *)
Definition vector_expr (lb : Token) (xs : list ast_defs.expr)
    : option ast_defs.expr :=
  let zero := ast_defs.Constant lb (ast_defs.CInt 0) DEFAULT in
  match xs with
  | [] => Some (ast_defs.Vec3 lb zero zero zero)
  | [x] => Some (ast_defs.Vec3 lb x zero zero)
  | [x; y] => Some (ast_defs.Vec3 lb x y zero)
  | [x; y; z] => Some (ast_defs.Vec3 lb x y z)
  | _ => None
  end.

Section Trees.
Variable py : Python.

(** The node of a literal token, as its prefix rule builds it; [None]
    when the rule raises or reports an error. *)
Definition literal_expr (a : Token) : option ast_defs.expr :=
  match prefix (rules (token_type a)) with
  | Some Rule.make_int =>
      match py_int py (lexeme a) with
      | Some z => Some (ast_defs.Constant a (ast_defs.CInt z) INT)
      | None => None
      end
  | Some Rule.make_float =>
      match py_float py (lexeme a) with
      | Some f => Some (ast_defs.Constant a (ast_defs.CFloat f) FLOAT)
      | None => None
      end
  | Some Rule.string =>
      Some (ast_defs.Constant a (ast_defs.CStr (slice_1_m1 (lexeme a))) STRING)
  | Some Rule.boolean =>
      Some (ast_defs.Constant a (ast_defs.CBool (String.eqb (lexeme a) "true")) BOOL)
  | Some Rule.default => Some (ast_defs.Constant a ast_defs.CNone DEFAULT)
  | Some Rule.identifier => Some (ast_defs.Name a (lexeme a))
  | Some Rule.python =>
      match py_eval py (slice_1 (lexeme a)) with
      | EvalReturns (PyNumber f) | EvalReturns (PyStr (inl f)) =>
          Some (ast_defs.Constant a (ast_defs.CFloat f) FLOAT)
      | _ => None
      end
  | _ => None
  end.

Fixpoint to_expr (ch : chain) : option ast_defs.expr :=
  match ch with
  | Chain first rest => nest_left_with suffix_expr (operand_expr first) rest
  end
with operand_expr (o : operand) : option ast_defs.expr :=
  match o with
  | OLit a => literal_expr a
  | OGroup _ inner _ => to_expr inner
  | OUnary op inner =>
      match unary_operation op, to_expr inner with
      | Some u, Some e => Some (ast_defs.UnaryOp op u e)
      | _, _ => None
      end
  | OVector lb components _ =>
      match items_exprs components with
      | Some (xs, _) => vector_expr lb xs
      | None => None
      end
  | OGroupCall name _ args _ =>
      let func := ast_defs.Name name (slice_2_m1 (lexeme name)) in
      match items_exprs args with
      | Some (pos_args, keyword_args) =>
          Some (ast_defs.Call name func (join_geometry_args name func pos_args)
                  keyword_args)
      | None => None
      end
  end
with suffix_expr (acc : option ast_defs.expr) (l : suffix) {struct l}
    : option ast_defs.expr :=
  match l with
  | LBinary op r =>
      match acc, binary_operation op, to_expr r with
      | Some lhs, Some o, Some e => Some (ast_defs.BinOp op lhs o e)
      | _, _, _ => None
      end
  | LCall lp args _ =>
      match acc, items_exprs args with
      | Some func, Some (pos_args, keyword_args) =>
          if callable func
          then Some (ast_defs.Call lp func (join_geometry_args lp func pos_args)
                       keyword_args)
          else None
      | _, _ => None
      end
  | LDot dot name =>
      match acc with
      | Some value => Some (ast_defs.Attribute dot value (lexeme name))
      | None => None
      end
  end
with items_exprs (a : series) : option (list ast_defs.expr * list keyword) :=
  match a with
  | NoItems => Some ([], [])
  | Items first more =>
      match item_expr first, collect_with item_expr more with
      | Some (inl e), Some (pos_args, keyword_args) =>
          Some (e :: pos_args, keyword_args)
      | Some (inr k), Some (pos_args, keyword_args) =>
          Some (pos_args, k :: keyword_args)
      | _, _ => None
      end
  end
with item_expr (it : item) : option (ast_defs.expr + keyword) :=
  match it with
  | Positional x =>
      match to_expr x with
      | Some e => Some (inl e)
      | None => None
      end
  | Named name _ x =>
      match to_expr x with
      | Some v => Some (inr (ast_defs.Keyword name (lexeme name) v))
      | None => None
      end
  end.

Definition nest_left : option ast_defs.expr -> list suffix -> option ast_defs.expr :=
  nest_left_with suffix_expr.

Definition collect : list (Token * item) -> option (list ast_defs.expr * list keyword) :=
  collect_with item_expr.
End Trees.

(** The suffixes of a chain read at minimal precedence [q]: each starts
    with a token of precedence at least [q], and at most [hi], what the
    operand or suffix before allows. The right operand of a binary
    operator is a chain read above the precedence of the operator: it has
    only suffixes of higher precedence at its top level, and operators of
    equal precedence follow each other in one chain. *)
Section SpineFits.
Variable suffix_ok : suffix -> bool.

Fixpoint spine_fits_with (q hi : nat) (rest : list suffix) : bool :=
  match rest with
  | [] => true
  | l :: rest' =>
      (q <=? level (suffix_token l))%nat && (level (suffix_token l) <=? hi)%nat
      && suffix_ok l
      && spine_fits_with q (suffix_tail l) rest'
  end.
End SpineFits.

(** Items separated by commas; after a named one all are named. *)
Section MoreFit.
Variable item_ok : item -> bool.

Fixpoint more_fit (named : bool) (more : list (Token * item)) : bool :=
  match more with
  | [] => true
  | (comma, it) :: more' =>
      TokenType.eqb (token_type comma) TokenType.COMMA
      && item_ok it
      && implb named (is_named it)
      && more_fit (is_named it) more'
  end.
End MoreFit.

Fixpoint fits (q : nat) (ch : chain) {struct ch} : bool :=
  match ch with
  | Chain first rest =>
      operand_fits first
      && spine_fits_with suffix_fits q (operand_tail first) rest
  end
with operand_fits (o : operand) : bool :=
  match o with
  | OLit a => is_literal a
  | OGroup lp inner rp =>
      TokenType.eqb (token_type lp) TokenType.LEFT_PAREN
      && fits (Precedence.value Precedence.OR) inner
      && TokenType.eqb (token_type rp) TokenType.RIGHT_PAREN
  | OUnary op inner =>
      is_unary op && fits (Precedence.value Precedence.UNARY) inner
  | OVector lb components rb =>
      TokenType.eqb (token_type lb) TokenType.LEFT_BRACE
      && components_fit components
      && TokenType.eqb (token_type rb) TokenType.RIGHT_BRACE
  | OGroupCall name lp args rp =>
      TokenType.eqb (token_type name) TokenType.GROUP_NAME
      && TokenType.eqb (token_type lp) TokenType.LEFT_PAREN
      && items_fit args
      && TokenType.eqb (token_type rp) TokenType.RIGHT_PAREN
  end
with suffix_fits (l : suffix) : bool :=
  match l with
  | LBinary op r => is_binary op && fits (S (level op)) r
  | LCall lp args rp =>
      TokenType.eqb (token_type lp) TokenType.LEFT_PAREN
      && items_fit args
      && TokenType.eqb (token_type rp) TokenType.RIGHT_PAREN
  | LDot dot name =>
      TokenType.eqb (token_type dot) TokenType.DOT
      && TokenType.eqb (token_type name) TokenType.IDENTIFIER
  end
with items_fit (a : series) : bool :=
  match a with
  | NoItems => true
  | Items first more => item_fits first && more_fit item_fits (is_named first) more
  end
with components_fit (a : series) : bool :=
  match a with
  | NoItems => true
  | Items first more =>
      item_fits first && negb (is_named first) && (length more <=? 2)%nat
      && forallb (fun '(comma, it) =>
                    TokenType.eqb (token_type comma) TokenType.COMMA
                    && item_fits it && negb (is_named it)) more
  end
with item_fits (it : item) : bool :=
  match it with
  | Positional x => fits (Precedence.value Precedence.OR) x
  | Named name eq x =>
      TokenType.eqb (token_type name) TokenType.IDENTIFIER
      && TokenType.eqb (token_type eq) TokenType.EQUAL
      && fits (Precedence.value Precedence.OR) x
  end.

Definition spine_fits : nat -> nat -> list suffix -> bool :=
  spine_fits_with suffix_fits.

(** The nested calls of [parse_precedence] an expression takes, which is
    the room the stack of the host must have, and at least one more than
    the turns of each loop on the way. *)
Section Needs.
Variable A : Type.
Variable nd : A -> nat.

Fixpoint max_need (l : list A) : nat :=
  match l with
  | [] => 0%nat
  | x :: l' => Nat.max (nd x) (max_need l')
  end.
End Needs.
Arguments max_need {A} nd l.

Fixpoint need (ch : chain) : nat :=
  match ch with
  | Chain first rest =>
      S (Nat.max (S (length rest))
           (Nat.max (operand_need first) (max_need suffix_need rest)))
  end
with operand_need (o : operand) : nat :=
  match o with
  | OLit _ => 0%nat
  | OGroup _ inner _ => need inner
  | OUnary _ inner => need inner
  | OVector _ components _ => items_need components
  | OGroupCall _ _ args _ => items_need args
  end
with suffix_need (l : suffix) : nat :=
  match l with
  | LBinary _ r => need r
  | LCall _ args _ => items_need args
  | LDot _ _ => 0%nat
  end
with items_need (a : series) : nat :=
  match a with
  | NoItems => 0%nat
  | Items first more =>
      Nat.max (S (S (S (length more))))
        (Nat.max (item_need first) (max_need (fun '(_, it) => item_need it) more))
  end
with item_need (it : item) : nat :=
  match it with
  | Positional x => need x
  | Named _ _ x => need x
  end.

Definition spine_need : list suffix -> nat := max_need suffix_need.

Definition more_need : list (Token * item) -> nat :=
  max_need (fun '(_, it) => item_need it).

(** A token at which an expression read at minimal precedence [q] ends:
    it binds less tightly than [q], and it is neither a scanner error nor
    an equal sign. *)
Definition stops (q : nat) (t : Token) : bool :=
  negb (TokenType.eqb (token_type t) TokenType.ERROR)
  && negb (TokenType.eqb (token_type t) TokenType.EQUAL)
  && (level t <? q)%nat.

(** The expressions of the examples: [2^3^2] as the parser reads it,
    [2^(3^2)] written with parentheses, [2 ^ - 3 ^ 2] whose prefix
    operator takes the whole power to its right, and
    [-f(x, 1.5, n=2).y * {a} <= not _]. *)
Definition demo_power_chain : chain :=
  Chain (OLit (tok TokenType.INT "2" 1))
    [LBinary (tok TokenType.HAT "^" 2) (Chain (OLit (tok TokenType.INT "3" 3)) []);
     LBinary (tok TokenType.HAT "^" 4) (Chain (OLit (tok TokenType.INT "2" 5)) [])].

Definition demo_power_grouped : chain :=
  Chain (OLit (tok TokenType.INT "2" 1))
    [LBinary (tok TokenType.HAT "^" 2)
       (Chain (OGroup (tok TokenType.LEFT_PAREN "(" 3)
                 (Chain (OLit (tok TokenType.INT "3" 4))
                    [LBinary (tok TokenType.HAT "^" 5)
                       (Chain (OLit (tok TokenType.INT "2" 6)) [])])
                 (tok TokenType.RIGHT_PAREN ")" 7)) [])].

Definition demo_power_negated : chain :=
  Chain (OLit (tok TokenType.INT "2" 1))
    [LBinary (tok TokenType.HAT "^" 3)
       (Chain (OUnary (tok TokenType.MINUS "-" 5)
                 (Chain (OLit (tok TokenType.INT "3" 7))
                    [LBinary (tok TokenType.HAT "^" 9)
                       (Chain (OLit (tok TokenType.INT "2" 11)) [])])) [])].

Definition demo_mixed : chain :=
  Chain (OUnary (tok TokenType.MINUS "-" 1)
           (Chain (OLit (tok TokenType.IDENTIFIER "f" 2))
              [LCall (tok TokenType.LEFT_PAREN "(" 3)
                 (Items (Positional (Chain (OLit (tok TokenType.IDENTIFIER "x" 4)) []))
                    [(tok TokenType.COMMA "," 5,
                      Positional (Chain (OLit (tok TokenType.FLOAT "1.5" 7)) []));
                     (tok TokenType.COMMA "," 10,
                      Named (tok TokenType.IDENTIFIER "n" 12) (tok TokenType.EQUAL "=" 13)
                        (Chain (OLit (tok TokenType.INT "2" 14)) []))])
                 (tok TokenType.RIGHT_PAREN ")" 15);
               LDot (tok TokenType.DOT "." 16) (tok TokenType.IDENTIFIER "y" 17)]))
    [LBinary (tok TokenType.STAR "*" 19)
       (Chain (OVector (tok TokenType.LEFT_BRACE "{" 21)
                 (Items (Positional (Chain (OLit (tok TokenType.IDENTIFIER "a" 22)) [])) [])
                 (tok TokenType.RIGHT_BRACE "}" 23)) []);
     LBinary (tok TokenType.LESS_EQUAL "<=" 25)
       (Chain (OUnary (tok TokenType.NOT "not" 28)
                 (Chain (OLit (tok TokenType.UNDERSCORE "_" 32)) [])) [])].

(** The end-of-input marker at column [c], and a parser in the middle of
    its input: no error so far, [cur] and [prev] in the window, [toks]
    still to come. *)
Definition eol_token (c : nat) : Token :=
  Build_Token "" TokenType.EOL 1 c (c - 1) "".

Definition next_token (c : nat) (toks : list Token) : Token :=
  hd (eol_token c) toks.

Definition parser_at (c : nat) (cur prev : Token) (toks : list Token)
    (node : option ast_defs.stmt) : Parser :=
  Build_Parser (Build_Scanner toks 1 c (c - 1)) [] cur prev false false node [].

(** The parser about to read [toks]: their first token is the current
    one. *)
Definition parser_before (c : nat) (toks : list Token) (prev : Token)
    (node : option ast_defs.stmt) : Parser :=
  parser_at c (next_token c toks) prev (tl toks) node.

(** [parse_precedence] with room for [f] nested calls reads the
    expressions that need no more: started before the tokens of a chain
    that fits the minimal precedence [q], and followed by a token at
    which the chain ends, it returns the tree of the chain and stops
    before that token, no diagnostic recorded. Where an assignment can
    start, the token that follows is no comma either. The last token
    read is no opening parenthesis. *)
Definition reads_chains (py : Python) (c f : nat) : Prop :=
  forall (ch : chain) (q : Precedence.t) (prev : Token)
         (node : option ast_defs.stmt) (cont : list Token) (e : ast_defs.expr),
    (need ch <= f)%nat ->
    fits (Precedence.value q) ch = true ->
    to_expr py ch = Some e ->
    stops (Nat.min (Precedence.value q) (S (tail ch))) (next_token c cont) = true ->
    ((Precedence.value q <= Precedence.value Precedence.ASSIGNMENT)%nat ->
     TokenType.eqb (token_type (next_token c cont)) TokenType.COMMA = false) ->
    exists prev' : Token,
      parse_precedence py f q false
        (parser_before c (tokens_of ch ++ cont) prev node)
      = Ok (Some (ast_defs.Expr e),
            parser_before c cont prev' (Some (ast_defs.Expr e))) /\
      TokenType.eqb (token_type prev') TokenType.LEFT_PAREN = false.

(** [panic_step p p']: from [p] to [p'] at most one diagnostic was
    recorded, and none if [p] was in panic mode; panic mode is on in [p']
    exactly when it was on in [p] or a diagnostic was recorded. *)
Definition panic_step (p p' : Parser) : Prop :=
  if panic_mode p
  then panic_mode p' = true /\ errors p' = errors p
  else (panic_mode p' = false /\ errors p' = errors p)
       \/ (panic_mode p' = true /\ exists e, errors p' = errors p ++ [e]).





(** ** Notions used to state further properties of the interpreter *)

(** [isinstance(socket, (NodeSocket, list, int))], the assertion of
    [CREATE_VAR] ([bool] is a subclass of [int]). *)
Definition storable (v : value) : bool :=
  match v with
  | VSocket _ | VList _ | VInt _ | VBool _ => true
  | _ => false
  end.

(** The variables bind [id] to the name [id1], [id1] to [id2], and so on
    along [ids], and the last name to the value [v]. *)
Fixpoint alias_chain (vars : gmap string value) (id : string)
    (ids : list string) (v : value) : Prop :=
  match ids with
  | [] => vars !! id = Some v
  | id' :: ids' => vars !! id = Some (VName id') /\ alias_chain vars id' ids' v
  end.

(** [isinstance(op_data, ast_defs.ListLiteral)] *)
Definition is_list_literal (v : value) : bool :=
  match v with VListLiteral _ => true | _ => false end.

(** Every entry of the port table is stored under the text of its port. *)
Definition table_by_str (py_str : value -> string) (s : Interpreter) : Prop :=
  forall k sk, socket_table s !! k = Some sk -> k = py_str (VSocket sk).

(** [grows s s']: the list of added nodes is only appended to, the port
    table keeps its keys, and its entries stay stored under the text of
    their port. *)
Definition grows (py_str : value -> string) (s s' : Interpreter) : Prop :=
  (exists ns, nodes s' = nodes s ++ ns) /\
  (forall k, is_Some (socket_table s !! k) -> is_Some (socket_table s' !! k)) /\
  (table_by_str py_str s -> table_by_str py_str s').

(** A math node with two outputs, for the examples. *)
Definition demo_two_outputs (key : string) : option NodeDecl :=
  if String.eqb key "ShaderNodeSeparate"
  then Some (Build_NodeDecl
               [Build_SocketDecl "Vector" "NodeSocketVector" false]
               [Build_SocketDecl "X" "NodeSocketFloat" false;
                Build_SocketDecl "Y" "NodeSocketFloat" false])
  else demo_node_types key.

(** A function that declares one output and sets none. *)
Definition demo_function_without_return : CompiledFunction :=
  Build_CompiledFunction [] 1 [].

(** Variables in which [a] is an alias of [b], and [b] is a port. *)
Definition demo_aliases : Interpreter :=
  set_variables
    (<[ "a" := VName "b" ]> (<[ "b" := VSocket (Build_NodeSocket 7 true 0) ]> ∅))
    demo_interpreter.

(** A node with one input and the two outputs [Y] and [X], in that
    order. *)
Definition demo_separate : NodeInstance :=
  Build_NodeInstance "ShaderNodeSeparate" [VInt 0] [VStr "Y"; VStr "X"] [].

(** ** Notions used to state further properties of the parser *)

(** [Parser.add_tokens]; [tokens[0]] of an empty list raises
    [IndexError]. *)
Definition add_tokens (tokens : list Token) (p : Parser) : result Parser :=
  match tokens with
  | [] => Raise IndexError
  | first :: rest =>
      Ok (Build_Parser (scanner p) ((token_buffer p ++ [current p]) ++ rev rest)
            first (previous p) (had_error p) (panic_mode p) (curr_node p)
            (errors p))
  end.

(** No token of [toks] is a scanner error. *)
Definition error_free (toks : list Token) : bool :=
  forallb (fun t => negb (TokenType.eqb (token_type t) TokenType.ERROR)) toks.

(** [records p p']: the diagnostics of [p] are the first diagnostics of
    [p'], and the error flag of [p'] is set exactly when it was set in
    [p] or a diagnostic was added. *)
Definition records (p p' : Parser) : Prop :=
  exists es : list Error,
    errors p' = errors p ++ es /\
    had_error p' = had_error p || negb (bool_decide (es = [])).

(** The parser after [n] calls of [advance]. *)
Fixpoint advance_n (n : nat) (p : Parser) : Parser :=
  match n with
  | O => p
  | S n' => advance_n n' (advance p)
  end.

(** A host whose [int] refuses a text of more than 4300 digits, as
    CPython does since its version 3.11, and the text of [n] digits
    [1]. *)
Definition demo_limited_python : Python :=
  Build_Python
    (fun s => if (4300 <? String.length s)%nat then None else decimal_int s)
    (fun s => Some s) demo_eval.

Fixpoint digits_one (n : nat) : string :=
  match n with
  | O => EmptyString
  | S n' => String "1"%char (digits_one n')
  end.

(** * Properties of the interpreter *)

(** ** Python list lemmas *)

Lemma py_pop_app {A : Type} (l : list A) (x : A) : py_pop (l ++ [x]) = Some (x, l).
Proof. unfold py_pop. rewrite rev_app_distr. simpl. by rewrite rev_involutive. Qed.

Lemma py_index_from_end {A : Type} (l : list A) (i : Z) :
  0 <= i < Z.of_nat (length l) ->
  py_index l (- i - 1) = l !! Z.to_nat (Z.of_nat (length l) - 1 - i).
Proof.
  intros Hi. unfold py_index.
  replace (0 <=? - i - 1) with false by (symmetry; apply Z.leb_gt; lia).
  simpl.
  replace (- Z.of_nat (length l) <=? - i - 1) with true
    by (symmetry; apply Z.leb_le; lia).
  replace (- i - 1 <? 0) with true by (symmetry; apply Z.ltb_lt; lia).
  simpl. f_equal. lia.
Qed.

Lemma pop_push (v : value) (s : Interpreter) :
  pop (push v s) = Ok (v, s).
Proof. unfold pop, push. simpl. rewrite py_pop_app. by destruct s. Qed.

Lemma pop_set_stack (rest : list value) (v : value) (s : Interpreter) :
  pop (set_stack (rest ++ [v]) s) = Ok (v, set_stack rest s).
Proof. unfold pop. simpl. by rewrite py_pop_app. Qed.

Lemma pop_n_app (vs rest : list value) (s : Interpreter) :
  pop_n (length vs) (set_stack (rest ++ vs) s) = Ok (rev vs, set_stack rest s).
Proof.
  revert rest. induction vs as [|v vs IH] using rev_ind; intros rest.
  - simpl. by rewrite app_nil_r.
  - rewrite length_app. simpl. rewrite Nat.add_1_r. simpl.
    rewrite app_assoc, pop_set_stack. simpl.
    rewrite IH. simpl. by rewrite rev_app_distr.
Qed.

(** ** Induction over operations

    An operation stream is a finite tree: a call operation carries the
    stream of its body. The induction hypothesis is available for every
    operation of the body of a function or of a node group. *)

Section OperationInduction.
Variable P : Operation -> Prop.
Hypothesis step : forall (t : OpType) (d : value),
  (forall f, d = VFunction f -> Forall P (fn_body f)) ->
  (forall g, d = VNodeGroup g -> Forall P (ng_body g)) ->
  P (Build_Operation t d).

Lemma Operation_body_ind : forall op : Operation, P op.
Proof.
  fix IH 1. intros [t d]. apply step.
  - destruct d; intros f' E; try discriminate E.
    injection E as <-. destruct f as [i n b]. simpl.
    induction b as [|o b IHb]; constructor; [apply IH | exact IHb].
  - destruct d; intros g' E; try discriminate E.
    injection E as <-. destruct g as [nm i o b]. simpl.
    induction b as [|o' b IHb]; constructor; [apply IH | exact IHb].
Qed.
End OperationInduction.

(** ** Results *)

Lemma bind_Ok {A B : Type} (r : result A) (k : A -> result B) (b : B) :
  r ≫= k = Ok b -> exists a, r = Ok a /\ k a = Ok b.
Proof. destruct r; simpl; intros H; try discriminate H. eauto. Qed.

Lemma py_assert_Ok {A : Type} (c : bool) (msg : string) (k : result A) (a : A) :
  py_assert c msg k = Ok a -> c = true /\ k = Ok a.
Proof. destruct c; simpl; intros H; [auto | discriminate H]. Qed.

(** Split a successful sequence into its successful steps. *)
Ltac ok_step H :=
  let a := fresh "a" in
  let H1 := fresh "Hstep" in
  apply bind_Ok in H; destruct H as (a & H1 & H).

(** ** Events added to the log *)

Lemma add_events_nil (s : Interpreter) : add_events [] s = s.
Proof.
  destruct s as [t st ns c vs fo tb [ts bn ev]]. unfold add_events, set_bpy. simpl.
  by rewrite app_nil_r.
Qed.

Lemma add_events_app (e1 e2 : list Event) (s : Interpreter) :
  add_events e2 (add_events e1 s) = add_events (e1 ++ e2) s.
Proof. unfold add_events, set_bpy. simpl. by rewrite app_assoc. Qed.

Lemma wiring_refl (s : Interpreter) : wiring s s.
Proof. exists []. split; [reflexivity | by rewrite add_events_nil]. Qed.

Lemma wiring_trans (s1 s2 s3 : Interpreter) :
  wiring s1 s2 -> wiring s2 s3 -> wiring s1 s3.
Proof.
  intros (e1 & H1 & ->) (e2 & H2 & ->). exists (e1 ++ e2). split.
  - rewrite forallb_app, H1, H2. reflexivity.
  - apply add_events_app.
Qed.

Lemma wiring_link (src dst : NodeSocket) (s : Interpreter) : wiring s (link src dst s).
Proof. exists [EvLinksNew (tree s) src dst]. split; reflexivity. Qed.

Lemma wiring_set_default (sk : NodeSocket) (v : value) (s : Interpreter) :
  wiring s (set_default sk v s).
Proof. exists [EvSetDefault sk v]. split; reflexivity. Qed.

Create HintDb interp.
#[local] Hint Resolve wiring_refl wiring_link wiring_set_default : interp.

Section Wiring.
Variable py_str : value -> string.

Lemma link_geo_input_wiring dst n g s s' :
  link_geo_input py_str dst n g s = Ok s' -> wiring s s'.
Proof.
  unfold link_geo_input. intros H.
  destruct (get_output_socket py_str (socket_table s) _); simplify_eq;
    auto with interp.
  ok_step H. simplify_eq. auto with interp.
Qed.

Lemma link_geo_inputs_wiring dst n l : forall s s',
  link_geo_inputs py_str dst n l s = Ok s' -> wiring s s'.
Proof.
  induction l as [|g l IH]; simpl; intros s s' H.
  - simplify_eq. auto with interp.
  - ok_step H. eapply wiring_trans; [eapply link_geo_input_wiring | eapply IH]; eauto.
Qed.

Lemma connect_arg_wiring n args i input_index s s' :
  connect_arg py_str n args i input_index s = Ok s' -> wiring s s'.
Proof.
  unfold connect_arg. intros H.
  destruct (args !! i) as [arg|]; [|discriminate H].
  destruct arg;
    try (ok_step H; destruct (is_none _); simplify_eq; auto with interp; fail).
  - destruct (String.eqb _ _).
    + eapply link_geo_inputs_wiring; eauto.
    + ok_step H. destruct (_ !! a) as [d|]; [|simplify_eq; auto with interp].
      destruct (String.eqb _ _); [|simplify_eq; auto with interp].
      destruct (sd_multi d); [eapply link_geo_inputs_wiring; eauto|].
      destruct items as [|[] ?]; simplify_eq; auto with interp.
  - ok_step H. simplify_eq. auto with interp.
Qed.

Lemma connect_args_wiring n args inputs : forall i s s',
  connect_args py_str n args i inputs s = Ok s' -> wiring s s'.
Proof.
  induction inputs as [|x inputs IH]; simpl; intros i s s' H.
  - simplify_eq. auto with interp.
  - ok_step H. eapply wiring_trans; [eapply connect_arg_wiring | eapply IH]; eauto.
Qed.
End Wiring.

Lemma connect_group_outputs_wiring group_output fo : forall index s s',
  connect_group_outputs group_output index fo s = Ok s' -> wiring s s'.
Proof.
  induction fo as [|x fo IH]; simpl; intros index s s' H.
  - simplify_eq. auto with interp.
  - ok_step H. eapply wiring_trans; [|eapply IH; eauto].
    destruct x; try (ok_step Hstep); simplify_eq; auto with interp.
Qed.

Lemma connect_group_args_wiring node args : forall i s s',
  connect_group_args node i args s = Ok s' -> wiring s s'.
Proof.
  induction args as [|x args IH]; simpl; intros i s s' H.
  - simplify_eq. auto with interp.
  - ok_step H. eapply wiring_trans; [|eapply IH; eauto].
    destruct x; try (ok_step Hstep); simplify_eq; auto with interp.
Qed.

(** ** The list-literal guard: a push never fails *)

Lemma eval_elements_with_pure (pv : value -> Interpreter -> result Interpreter)
    (es : list value) :
  Forall (fun e => forall s, pv e s = Ok (push (literal_value e) s)) es ->
  forall acc s,
    eval_elements_with pv es acc s = Ok (acc ++ map literal_value es, s).
Proof.
  induction 1 as [|e es He _ IH]; intros acc s; simpl.
  - by rewrite app_nil_r.
  - rewrite He. simpl. rewrite pop_push. simpl. rewrite IH.
    by rewrite <- app_assoc.
Qed.

Lemma push_value_pure : forall (e : value) (s : Interpreter),
  push_value e s = Ok (push (literal_value e) s).
Proof.
  fix IH 1. intros e s. destruct e; try reflexivity.
  simpl. rewrite (eval_elements_with_pure push_value elements).
  - reflexivity.
  - induction elements as [|e es IHes]; constructor; [apply IH | exact IHes].
Qed.

Lemma eval_elements_pure (es acc : list value) (s : Interpreter) :
  eval_elements es acc s = Ok (acc ++ map literal_value es, s).
Proof.
  apply eval_elements_with_pure. apply Forall_forall. intros e _ s'.
  apply push_value_pure.
Qed.

(** ** What an operation leaves alone *)

Lemma count_events_app (p : Event -> bool) (l1 l2 : list Event) :
  count_events p (l1 ++ l2) = (count_events p l1 + count_events p l2)%nat.
Proof. unfold count_events. by rewrite List.filter_app, length_app. Qed.

Lemma count_events_cons (p : Event -> bool) (e : Event) (l : list Event) :
  count_events p (e :: l)
  = ((if p e then 1 else 0) + count_events p l)%nat.
Proof. unfold count_events. simpl. by destruct (p e). Qed.

Lemma gframe_refl (s : Interpreter) : gframe s s.
Proof.
  repeat split; auto. exists []. split; [by rewrite app_nil_r | reflexivity].
Qed.

Lemma gframe_trans (s1 s2 s3 : Interpreter) :
  gframe s1 s2 -> gframe s2 s3 -> gframe s1 s3.
Proof.
  intros (Hc1 & Hb1 & e1 & He1 & Hn1) (Hc2 & Hb2 & e2 & He2 & Hn2).
  repeat split; auto.
  exists (e1 ++ e2). split.
  - by rewrite He2, He1, app_assoc.
  - intros n [t Hn]. rewrite count_events_app.
    rewrite Hn1 by eauto. rewrite Hn2 by eauto. reflexivity.
Qed.

(** [gframe] looks at the cache and at the backend only. *)
Lemma gframe_same_r (s s2 s3 : Interpreter) :
  gframe s s2 -> node_group_trees s3 = node_group_trees s2 -> bpy s3 = bpy s2 ->
  gframe s s3.
Proof. unfold gframe. intros H -> ->. exact H. Qed.

Lemma gframe_same_l (s s2 s3 : Interpreter) :
  gframe s2 s3 -> node_group_trees s = node_group_trees s2 -> bpy s = bpy s2 ->
  gframe s s3.
Proof. unfold gframe. intros H -> ->. exact H. Qed.

Lemma frame_refl (s : Interpreter) : frame s s.
Proof. repeat split; auto. apply gframe_refl. Qed.

Lemma frame_trans (s1 s2 s3 : Interpreter) :
  frame s1 s2 -> frame s2 s3 -> frame s1 s3.
Proof.
  intros (Ht1 & Hf1 & Hg1) (Ht2 & Hf2 & Hg2).
  split; [congruence|]. split; [congruence|]. eapply gframe_trans; eauto.
Qed.

Lemma count_wiring_builds (n : string) (evs : list Event) :
  forallb is_wiring evs = true -> count_events (is_build_of n) evs = 0%nat.
Proof.
  induction evs as [|e evs IH]; [reflexivity|]. simpl.
  intros [He Hevs]%andb_true_iff. unfold count_events in *. simpl.
  destruct e; try discriminate He; simpl; auto.
Qed.

Lemma count_not_build (n : string) (evs : list Event) :
  forallb (fun e => negb (is_build e)) evs = true ->
  count_events (is_build_of n) evs = 0%nat.
Proof.
  induction evs as [|e evs IH]; [reflexivity|]. simpl.
  intros [He Hevs]%andb_true_iff. unfold count_events in *. simpl.
  destruct e; simpl in *; try discriminate He; auto.
Qed.

(** Calls that construct no inner graph and touch no graph record. *)
Lemma gframe_events (s s' : Interpreter) (evs : list Event) :
  node_group_trees s' = node_group_trees s ->
  trees (bpy s') = trees (bpy s) ->
  events (bpy s') = events (bpy s) ++ evs ->
  forallb (fun e => negb (is_build e)) evs = true ->
  gframe s s'.
Proof.
  intros Hc Ht He Hn. repeat split.
  - intros n t. by rewrite Hc.
  - intros i r. by rewrite Ht.
  - exists evs. split; [exact He|]. intros n _. by apply count_not_build.
Qed.

Lemma wiring_gframe (s s' : Interpreter) : wiring s s' -> gframe s s'.
Proof.
  intros (evs & Hw & ->). repeat split; auto.
  exists evs. split; [reflexivity|]. intros n _. by apply count_wiring_builds.
Qed.

Lemma wiring_frame (s s' : Interpreter) : wiring s s' -> frame s s'.
Proof.
  intros H. pose proof (wiring_gframe _ _ H) as Hg.
  destruct H as (evs & _ & ->). repeat split; auto; apply Hg.
Qed.

(** A change of stack, variables, output slot contents, node list or
    port table only. *)
Lemma frame_local (s s' : Interpreter) :
  tree s' = tree s ->
  length (function_outputs s') = length (function_outputs s) ->
  node_group_trees s' = node_group_trees s ->
  bpy s' = bpy s ->
  frame s s'.
Proof.
  intros Ht Hf Hc Hb. split; [exact Ht|]. split; [exact Hf|].
  eapply gframe_same_r; [apply gframe_refl | |]; auto.
Qed.

Lemma py_pop_Some {A : Type} (l r : list A) (x : A) :
  py_pop l = Some (x, r) -> l = r ++ [x].
Proof.
  unfold py_pop. intros H. rewrite <- (rev_involutive l).
  destruct (rev l) as [|y l']; [discriminate H|]. simplify_eq. reflexivity.
Qed.

Lemma pop_Ok (s s' : Interpreter) (v : value) :
  pop s = Ok (v, s') ->
  exists st, stack s = st ++ [v] /\ s' = set_stack st s.
Proof.
  unfold pop. intros H. destruct (py_pop (stack s)) as [[x r]|] eqn:E; simplify_eq.
  apply py_pop_Some in E. eauto.
Qed.

Lemma pop_n_Ok (n : nat) : forall (s s' : Interpreter) (vs : list value),
  pop_n n s = Ok (vs, s') -> exists st, s' = set_stack st s.
Proof.
  induction n as [|n IH]; simpl; intros s s' vs H.
  - simplify_eq. exists (stack s'). by destruct s'.
  - ok_step H. destruct a as [v s1]. ok_step H. destruct a as [vs' s2].
    simplify_eq. apply pop_Ok in Hstep as (st & _ & ->).
    apply IH in Hstep0 as [st' ->]. by exists st'.
Qed.

Lemma py_setitem_length {A : Type} (l l' : list A) (i : Z) (x : A) :
  py_setitem l i x = Some l' -> length l' = length l.
Proof.
  unfold py_setitem. intros H.
  repeat case_match; simplify_eq; by rewrite length_insert.
Qed.

Lemma push_function_outputs_Ok (fo : list value) (s s' : Interpreter) :
  push_function_outputs fo s = Ok s' ->
  exists out, s' = set_stack (stack s ++ out) s /\
    out = function_result fo /\
    forallb is_socket fo = true.
Proof.
  unfold push_function_outputs. intros H.
  destruct fo as [|o [|o' fo]].
  - simplify_eq. exists []. rewrite app_nil_r. by destruct s'.
  - apply py_assert_Ok in H as [Ho H]. simplify_eq. exists [o]. simpl.
    by rewrite Ho.
  - apply py_assert_Ok in H as [Ho H]. simplify_eq. eauto.
Qed.

Lemma fold_log_attrs (n : nat) (props : list (string * value)) : forall b,
  fold_left (fun b '(name, v) => log (EvSetAttr n name v) b) props b
  = Build_Backend (trees b) (bnodes b)
      (events b ++ map (fun '(name, v) => EvSetAttr n name v) props).
Proof.
  induction props as [|[nm v] props IH]; intros b; simpl.
  - rewrite app_nil_r. by destruct b.
  - rewrite IH. simpl. by rewrite <- app_assoc.
Qed.

Lemma attrs_not_build (n : nat) (props : list (string * value)) :
  forallb (fun e => negb (is_build e))
    (map (fun '(name, v) => EvSetAttr n name v) props) = true.
Proof. induction props as [|[] ? IH]; simpl; auto. Qed.

(** ** Declaring the ports of a new inner graph *)

Lemma add_interface_sockets_Ok (t : nat) (is_input : bool) (l : list TyArg) :
  forall b b',
  add_interface_sockets t is_input l b = Ok b' ->
  bnodes b' = bnodes b /\
  (exists evs, events b' = events b ++ evs /\
               forallb (fun e => negb (is_build e)) evs = true) /\
  (forall i, i <> t -> trees b' !! i = trees b !! i) /\
  (forall r, trees b !! t = Some r ->
     exists r', trees b' !! t = Some r' /\
       nt_idname r' = nt_idname r /\
       length (nt_inputs r')
       = (length (nt_inputs r) + if is_input then length l else 0)%nat /\
       length (nt_outputs r')
       = (length (nt_outputs r) + if is_input then 0 else length l)%nat).
Proof.
  induction l as [|a l IH]; simpl; intros b b' H.
  - simplify_eq. split; [reflexivity|]. split.
    { exists []. by rewrite app_nil_r. }
    split; [auto|]. intros r Hr. exists r. destruct is_input; auto with lia.
  - ok_step H. unfold interface_new_socket in H.
    set (b1 := if is_none (ta_value a) then _ else _) in H.
    apply IH in H as (Hn & (evs & Hev & Hnb) & Ho & Ht).
    assert (Hb1 : bnodes b1 = bnodes b /\
              trees b1 = alter (fun r =>
                 if is_input
                 then Build_TreeRec (nt_name r) (nt_idname r)
                        (nt_inputs r ++ [Build_SocketDecl (ta_name a) a0 false])
                        (nt_outputs r)
                 else Build_TreeRec (nt_name r) (nt_idname r) (nt_inputs r)
                        (nt_outputs r ++ [Build_SocketDecl (ta_name a) a0 false]))
                 t (trees b) /\
              exists e1, events b1 = events b ++ e1 /\
                         forallb (fun e => negb (is_build e)) e1 = true).
    { subst b1. destruct (is_none (ta_value a)); simpl.
      - split; [reflexivity|]. split; [reflexivity|]. eexists [_]; split; reflexivity.
      - split; [reflexivity|]. split; [reflexivity|].
        rewrite <- app_assoc. eexists [_; _]; split; reflexivity. }
    destruct Hb1 as (Hn1 & Ht1 & e1 & He1 & Hnb1).
    split; [congruence|]. split.
    { exists (e1 ++ evs). split; [by rewrite Hev, He1, app_assoc|].
      rewrite forallb_app, Hnb1, Hnb. reflexivity. }
    split.
    { intros i Hi. rewrite Ho by exact Hi. rewrite Ht1.
      by rewrite list_lookup_alter_ne. }
    intros r Hr.
    destruct (Ht (if is_input
                  then Build_TreeRec (nt_name r) (nt_idname r)
                         (nt_inputs r ++ [Build_SocketDecl (ta_name a) a0 false])
                         (nt_outputs r)
                  else Build_TreeRec (nt_name r) (nt_idname r) (nt_inputs r)
                         (nt_outputs r ++ [Build_SocketDecl (ta_name a) a0 false])))
      as (r' & Hr' & Hid & Hin & Hout).
    { rewrite Ht1, list_lookup_alter_eq, Hr. reflexivity. }
    exists r'. split; [exact Hr'|].
    destruct is_input; simpl in *; rewrite ?length_app in *; simpl in *;
      repeat split; auto with lia.
Qed.

(** ** Instantiating a reference node *)

Lemma instantiate_group_Ok (t : nat) (args : list value) (s s' : Interpreter) :
  instantiate_group t args s = Ok s' ->
  let node := length (bnodes (bpy s)) in
  exists evs,
    forallb is_wiring evs = true /\
    events (bpy s')
    = events (bpy s)
      ++ [EvNodesNew (tree s) (group_node_type s) node; EvSetNodeTree node t]
      ++ evs /\
    trees (bpy s') = trees (bpy s) /\
    stack s' = stack s ++ group_node_outputs node (tree_num_outputs (bpy s) t) /\
    nodes s' = nodes s ++ [node] /\
    tree s' = tree s /\
    variables s' = variables s /\
    function_outputs s' = function_outputs s /\
    node_group_trees s' = node_group_trees s /\
    socket_table s' = socket_table s.
Proof.
  intros H. cbv zeta. set (node := length (bnodes (bpy s))).
  unfold instantiate_group, nodes_new in H. cbv beta iota zeta in H.
  fold node in H. fold (group_node_type s) in H.
  ok_step H. apply connect_group_args_wiring in Hstep as (evs & Hw & ->).
  exists evs. split; [exact Hw|].
  assert (Hev : forall b, events (set_node_tree node t b)
                          = events b ++ [EvSetNodeTree node t]).
  { intros b. unfold set_node_tree. by destruct (trees b !! t). }
  assert (Htr : forall b, trees (set_node_tree node t b) = trees b).
  { intros b. unfold set_node_tree. by destruct (trees b !! t). }
  match type of H with
  | context [length (node_outputs ?b ?n)] =>
      assert (Hout : length (node_outputs b n) = tree_num_outputs (bpy s) t)
  end.
  { unfold node_outputs, set_node_tree, tree_num_outputs. simpl.
    destruct (trees (bpy s) !! t) as [r|]; simpl;
      rewrite list_lookup_alter_eq, lookup_app_r by (unfold node; lia);
      unfold node; rewrite Nat.sub_diag; reflexivity. }
  rewrite Hout in H. unfold group_node_outputs.
  destruct (tree_num_outputs (bpy s) t) as [|[|k]]; simplify_eq; simpl;
    rewrite Hev, Htr; simpl; rewrite <- ?app_assoc, ?app_nil_r; simpl;
    repeat split; auto.
Qed.

Lemma instantiate_group_frame (t : nat) (args : list value) (s s' : Interpreter) :
  instantiate_group t args s = Ok s' -> frame s s'.
Proof.
  intros H. apply instantiate_group_Ok in H
    as (evs & Hw & Hev & Htr & _ & _ & Ht & _ & Hf & Hc & _).
  split; [exact Ht|]. split; [by rewrite Hf|].
  eapply gframe_events; eauto. simpl.
  clear -Hw. induction evs as [|e evs IH]; [reflexivity|].
  simpl in *. apply andb_true_iff in Hw as [He Hw]. rewrite IH by exact Hw.
  destruct e; try discriminate He; reflexivity.
Qed.

(** ** Building an inner graph *)

Lemma new_inner_tree_Ok g s t gi go b :
  new_inner_tree g s = Ok (t, gi, go, b) ->
  t = length (trees (bpy s)) /\
  (forall i r, trees (bpy s) !! i = Some r -> trees b !! i = Some r) /\
  (exists r, trees b !! t = Some r /\
             length (nt_outputs r) = length (ng_outputs g) /\
             length (nt_inputs r) = length (ng_inputs g)) /\
  (exists evs,
     events b = events (bpy s)
                ++ EvNodeGroupsNew (ng_name g) (tree_idname (bpy s) (tree s)) t :: evs /\
     forallb (fun e => negb (is_build e)) evs = true).
Proof.
  unfold new_inner_tree, node_groups_new. cbv beta iota zeta. intros H.
  ok_step H. rename a into b1. ok_step H. rename a into b2.
  unfold nodes_new in H. cbv beta iota zeta in H. simplify_eq.
  apply add_interface_sockets_Ok in Hstep as (_ & (e1 & He1 & Hn1) & Ho1 & Ht1).
  apply add_interface_sockets_Ok in Hstep0 as (_ & (e2 & He2 & Hn2) & Ho2 & Ht2).
  simpl in *.
  split; [reflexivity|]. split.
  { intros i r Hr. pose proof (lookup_lt_Some _ _ _ Hr) as Hlt.
    rewrite Ho2, Ho1 by lia. by rewrite lookup_app_l. }
  split.
  { destruct (Ht1 (Build_TreeRec (ng_name g) (tree_idname (bpy s) (tree s)) [] []))
      as (r1 & Hr1 & _ & Hin1 & Hout1).
    { rewrite lookup_app_r, Nat.sub_diag by lia. reflexivity. }
    destruct (Ht2 r1 Hr1) as (r2 & Hr2 & _ & Hin2 & Hout2).
    exists r2. simpl in *. split; [exact Hr2|]. lia. }
  exists (e1 ++ e2 ++ [EvNodesNew (length (trees (bpy s))) "NodeGroupInput"
                         (length (bnodes b2));
                       EvNodesNew (length (trees (bpy s))) "NodeGroupOutput"
                         (length (bnodes b2 ++
                            [Build_NodeRec (length (trees (bpy s))) "NodeGroupInput" []
                               (match trees b2 !! length (trees (bpy s)) with
                                | Some r => (nt_inputs r, nt_outputs r)
                                | None => ([], [])
                                end).1]))]).
  split.
  - rewrite He2, He1. rewrite <- !app_assoc. reflexivity.
  - rewrite !forallb_app, Hn1, Hn2. reflexivity.
Qed.

(** Take a successful branch of [operation] apart. *)
Ltac frame_branch H :=
  repeat match type of H with
  | (_ ≫= _) = Ok _ =>
      let Hs := fresh "Hs" in
      let a := fresh "a" in
      apply bind_Ok in H; destruct H as (a & Hs & H); try destruct a as [? ?]
  | py_assert _ _ _ = Ok _ =>
      let Hc := fresh "Hc" in apply py_assert_Ok in H as [Hc H]
  | match ?x with _ => _ end = Ok _ => destruct x eqn:?; try discriminate H
  end;
  repeat match goal with
  | Hp : pop _ = Ok _ |- _ => apply pop_Ok in Hp as (? & _ & ->)
  | Hp : pop_n _ _ = Ok _ |- _ => apply pop_n_Ok in Hp as (? & ->)
  | Hp : py_setitem _ _ _ = Some _ |- _ => apply py_setitem_length in Hp
  end;
  simplify_eq.

Section Frames.
Variable node_types : string -> option NodeDecl.
Variable py_str : value -> string.

Lemma create_var_frame fuel d s s' :
  create_var fuel d s = Ok s' -> frame s s'.
Proof.
  unfold create_var. intros H. destruct (as_str d); [|discriminate H].
  ok_step H. destruct a as [v s1]. ok_step H.
  apply pop_Ok in Hstep as (st & _ & ->).
  destruct a; simplify_eq; by apply frame_local.
Qed.

Lemma add_builtin_gframe node_info args s n s' :
  add_builtin node_types py_str node_info args s = Ok (n, s') ->
  gframe s s' /\ tree s' = tree s /\ stack s' = stack s /\
  function_outputs s' = function_outputs s /\ nodes s' = nodes s /\
  variables s' = variables s.
Proof.
  unfold add_builtin. intros H.
  destruct (node_types _) as [d|]; [|discriminate H].
  unfold nodes_new in H. rewrite fold_log_attrs in H. simpl in H.
  ok_step H. simplify_eq.
  apply connect_args_wiring in Hstep.
  pose proof (wiring_gframe _ _ Hstep) as Hg.
  destruct Hstep as (evs & _ & ->). simpl in *.
  split; [|auto].
  eapply gframe_trans; [|exact Hg].
  eapply gframe_events; simpl; try reflexivity.
  - rewrite <- app_assoc. reflexivity.
  - simpl. apply attrs_not_build.
Qed.

Lemma call_builtin_frame node_info s s' :
  call_builtin node_types py_str node_info s = Ok s' -> frame s s'.
Proof.
  unfold call_builtin. intros H.
  destruct (get_args _ _) as [args st].
  ok_step H. destruct a as [node s1]. ok_step H. simplify_eq.
  apply add_builtin_gframe in Hstep as (Hg & Ht & _ & Hf & _).
  simpl in *.
  assert (tree a = tree s1 /\ function_outputs a = function_outputs s1 /\
          node_group_trees a = node_group_trees s1 /\ bpy a = bpy s1)
    as (Ht' & Hf' & Hc' & Hb').
  { destruct (ni_outputs node_info) as [|o [|o' os]]; simplify_eq; auto.
    - ok_step Hstep0. simplify_eq. auto.
    - ok_step Hstep0. simplify_eq. auto. }
  split; [simpl; congruence|]. split; [simpl; congruence|].
  eapply gframe_same_r; [eapply gframe_same_l; [exact Hg | |] | |]; simpl; auto.
Qed.

Lemma call_function_Ok exec f s s' :
  (forall s1 s2, exec s1 = Ok s2 -> frame s1 s2) ->
  call_function exec f s = Ok s' ->
  exists fo : list value,
    length fo = Z.to_nat (fn_num_outputs f) /\
    forallb is_socket fo = true /\
    stack s' = snd (get_args (stack s) (length (fn_inputs f)))
               ++ function_result fo /\
    variables s' = variables s /\
    function_outputs s' = function_outputs s /\
    tree s' = tree s /\
    gframe s s'.
Proof.
  intros Hexec. unfold call_function. intros H.
  destruct (get_args _ _) as [args st]. simpl in *.
  ok_step H. ok_step H. simplify_eq.
  apply Hexec in Hstep as (Ht & Hf & Hg). simpl in *.
  apply push_function_outputs_Ok in Hstep0 as (out & -> & -> & Hs).
  exists (function_outputs a). simpl.
  unfold fresh_outputs in Hf. rewrite length_replicate in Hf.
  repeat split; auto.
  - apply Hg.
  - apply Hg.
  - apply Hg.
Qed.

Lemma call_function_frame exec f s s' :
  (forall s1 s2, exec s1 = Ok s2 -> frame s1 s2) ->
  call_function exec f s = Ok s' -> frame s s'.
Proof.
  intros Hexec H.
  destruct (call_function_Ok _ _ _ _ Hexec H) as (fo & _ & _ & _ & _ & Hf & Ht & Hg).
  split; [exact Ht|]. split; [by rewrite Hf | exact Hg].
Qed.

Lemma build_node_group_Ok exec g s t s' :
  (forall s1 s2, exec s1 = Ok s2 -> frame s1 s2) ->
  node_group_trees s !! ng_name g = None ->
  build_node_group exec g s = Ok (t, s') ->
  tree s' = tree s /\ stack s' = stack s /\ variables s' = variables s /\
  function_outputs s' = function_outputs s /\
  node_group_trees s' !! ng_name g = Some t /\
  tree_num_outputs (bpy s') t = length (ng_outputs g) /\
  gframe s s' /\
  exists evs,
    events (bpy s')
    = events (bpy s)
      ++ EvNodeGroupsNew (ng_name g) (tree_idname (bpy s) (tree s)) t :: evs.
Proof.
  intros Hexec Hnone H. unfold build_node_group in H.
  ok_step H. destruct a as [[[t' gi] go] b].
  ok_step H. rename a into s1. ok_step H. rename a into s2. simplify_eq.
  apply new_inner_tree_Ok in Hstep
    as (-> & Hold & (r & Hr & Hrout & _) & (e0 & He0 & Hn0)).
  apply Hexec in Hstep0 as (_ & _ & Hc1 & Hb1 & e1 & He1 & Hz1).
  apply connect_group_outputs_wiring in Hstep1. destruct Hstep1 as (e2 & Hw2 & ->).
  simpl in *.
  do 4 (split; [reflexivity|]).
  split; [by rewrite lookup_insert_eq|].
  split; [unfold tree_num_outputs; simpl; by rewrite (Hb1 _ _ Hr)|].
  split.
  - split; [|split].
    + intros n t Hn. simpl. rewrite lookup_insert_ne by congruence. auto.
    + simpl. auto.
    + exists ((EvNodeGroupsNew (ng_name g) (tree_idname (bpy s) (tree s))
                 (length (trees (bpy s))) :: e0) ++ e1 ++ e2).
      split.
      * simpl. rewrite He1, He0. rewrite <- !app_assoc. reflexivity.
      * intros n Hn. rewrite !count_events_app.
        rewrite Hz1 by exact Hn. rewrite (count_wiring_builds n e2) by exact Hw2.
        unfold count_events. simpl.
        destruct (String.eqb_spec (ng_name g) n) as [E|E].
        -- subst n. rewrite Hnone in Hn. by destruct Hn.
        -- fold (count_events (is_build_of n) e0).
           rewrite count_not_build by exact Hn0. reflexivity.
  - exists (e0 ++ e1 ++ e2). rewrite He1, He0. rewrite <- !app_assoc. reflexivity.
Qed.

Lemma execute_node_group_frame exec g args s s' :
  (forall s1 s2, exec s1 = Ok s2 -> frame s1 s2) ->
  execute_node_group exec g args s = Ok s' -> frame s s'.
Proof.
  intros Hexec H. unfold execute_node_group in H.
  destruct (node_group_trees s !! ng_name g) as [t|] eqn:Hc.
  - eapply instantiate_group_frame; eauto.
  - ok_step H. destruct a as [t s1].
    apply build_node_group_Ok in Hstep as (Ht & _ & _ & Hf & _ & _ & Hg & _);
      [|exact Hexec|exact Hc].
    eapply frame_trans; [|eapply instantiate_group_frame; eauto].
    split; [exact Ht|]. split; [by rewrite Hf | exact Hg].
Qed.

Lemma run_with_frame (exec : Operation -> Interpreter -> result Interpreter)
    (ops : list Operation) :
  Forall (fun o => forall s s', exec o s = Ok s' -> frame s s') ops ->
  forall s s', run_with exec ops s = Ok s' -> frame s s'.
Proof.
  induction 1 as [|o ops Ho _ IH]; simpl; intros s s' H.
  - simplify_eq. apply frame_refl.
  - ok_step H. eapply frame_trans; [eapply Ho | eapply IH]; eauto.
Qed.

Lemma frame_label (n : nat) (v : value) (s : Interpreter) :
  frame s (set_bpy (log (EvSetLabel n v) (bpy s)) s).
Proof.
  split; [reflexivity|]. split; [reflexivity|].
  eapply (gframe_events _ _ [EvSetLabel n v]); reflexivity.
Qed.

(** Every operation respects the frame. *)
Lemma operation_frame (fuel : nat) : forall (op : Operation) (s s' : Interpreter),
  operation node_types py_str fuel op s = Ok s' -> frame s s'.
Proof.
  intros op. induction op as [t d IHf IHg] using Operation_body_ind.
  intros s s' H.
  destruct d;
    try (simpl in H; rewrite eval_elements_pure in H; simpl in H; simplify_eq;
         by apply frame_local).
  all: destruct t; simpl in H; try discriminate H.
  all: try (simplify_eq; by apply frame_local).
  all: try (eapply create_var_frame; eassumption).
  all: try (eapply call_builtin_frame; eassumption).
  all: try (eapply call_function_frame; [|eassumption];
            eapply run_with_frame; eapply Forall_impl; [eapply IHf; reflexivity|];
            simpl; intros o Ho; exact Ho).
  all: try (destruct (get_args _ _) as [args st];
            eapply execute_node_group_frame in H;
            [exact H|];
            eapply run_with_frame; eapply Forall_impl; [eapply IHg; reflexivity|];
            simpl; intros o Ho; exact Ho).
  all: frame_branch H.
  all: first [ by apply frame_local
             | by (apply frame_local; simpl; auto)
             | by (apply wiring_frame; auto with interp)
             | by apply frame_label ].
Qed.

Lemma run_frame (fuel : nat) (ops : list Operation) (s s' : Interpreter) :
  run node_types py_str fuel ops s = Ok s' -> frame s s'.
Proof.
  apply run_with_frame. apply Forall_forall. intros o _. apply operation_frame.
Qed.

End Frames.

Section InterpreterLaws.
Variable node_types : string -> option NodeDecl.
Variable py_str : value -> string.

Lemma get_args_app (base args : list value) :
  get_args (base ++ args) (length args) = (args, base).
Proof.
  unfold get_args. destruct args as [|a args].
  - simpl. by rewrite app_nil_r.
  - simpl Nat.eqb. cbv iota. unfold py_last_n, py_drop_last_n. f_equal.
    + rewrite length_app. replace (_ + _ - _)%nat with (length base) by lia.
      by rewrite drop_app_length.
    + rewrite length_app. replace (_ + _ - _)%nat with (length base) by lia.
      by rewrite take_app_length.
Qed.

(** C2 (as amended). When a [CALL_FUNCTION] operation returns, the body
    has run from the entry state of the call to a state [s1], and the
    caller is left with: its variables, its output slots and its current
    tree exactly as before the call, whatever the body bound; its stack
    as before the call with the arguments popped and the output slots the
    body filled pushed, which are all ports: nothing for no slot, the
    port of the slot for one, the list of the ports of the slots from
    last to first for several. The cache of inner graphs keeps its
    entries. The list of created nodes, the port table, the cache and the
    backend are those the body left: they are not restored. *)
Theorem call_function_restores_frame (fuel : nat) (f : CompiledFunction)
    (base args : list value) (s s' : Interpreter) :
  stack s = base ++ args ->
  length args = length (fn_inputs f) ->
  operation node_types py_str fuel (Build_Operation CALL_FUNCTION (VFunction f)) s
  = Ok s' ->
  variables s' = variables s /\
  function_outputs s' = function_outputs s /\
  tree s' = tree s /\
  (forall n t, node_group_trees s !! n = Some t ->
               node_group_trees s' !! n = Some t) /\
  exists s1 : Interpreter,
    run node_types py_str fuel (fn_body f) (function_entry f s) = Ok s1 /\
    length (function_outputs s1) = Z.to_nat (fn_num_outputs f) /\
    forallb is_socket (function_outputs s1) = true /\
    stack s' = base ++ function_result (function_outputs s1) /\
    nodes s' = nodes s1 /\
    socket_table s' = socket_table s1 /\
    node_group_trees s' = node_group_trees s1 /\
    bpy s' = bpy s1.
Proof.
  intros Hst Hlen H. simpl in H. unfold call_function in H.
  assert (Hentry : function_entry f s
                   = set_stack []
                       (set_function_outputs
                          (fresh_outputs (Z.to_nat (fn_num_outputs f)))
                          (set_variables
                             (fold_left (fun m '(name, arg) => <[name := arg]> m)
                                (zip (fn_inputs f) args) (∅ : gmap string value))
                             (set_stack base s)))).
  { unfold function_entry. by rewrite Hst, <- Hlen, get_args_app. }
  rewrite Hst, <- Hlen, get_args_app in H. simpl in H.
  ok_step H. rename a into s1. ok_step H. simplify_eq.
  fold (run node_types py_str fuel (fn_body f)) in Hstep.
  pose proof (run_frame _ _ _ _ _ _ Hstep) as (Ht & Hf & Hc & _).
  apply push_function_outputs_Ok in Hstep0 as (out & -> & -> & Hs).
  simpl in *. unfold fresh_outputs in Hf. rewrite length_replicate in Hf.
  repeat split; auto.
  exists s1. rewrite Hentry. repeat split; auto.
Qed.

(** C4. [GET_OUTPUT(index)] on a stack whose top is a struct of [n]
    elements pops the struct and pushes the element at position
    [n - 1 - index]; the stack below and the rest of the state are
    unchanged. *)
Theorem get_output_reverse_position (fuel : nat) (index : Z)
    (items rest : list value) (self : Interpreter) :
  0 <= index < Z.of_nat (length items) ->
  exists v : value,
    items !! Z.to_nat (Z.of_nat (length items) - 1 - index) = Some v /\
    operation node_types py_str fuel (Build_Operation GET_OUTPUT (VInt index))
      (set_stack (rest ++ [VList items]) self)
    = Ok (set_stack (rest ++ [v]) self).
Proof.
  intros Hi.
  destruct (lookup_lt_is_Some_2 items
              (Z.to_nat (Z.of_nat (length items) - 1 - index))) as [v Hv];
    [lia|].
  exists v. split; [exact Hv|].
  simpl. rewrite pop_set_stack. simpl.
  rewrite py_index_from_end by exact Hi. rewrite Hv. reflexivity.
Qed.

(** C8. [PACK_LIST(n)] followed by [SPLIT_STRUCT] on a stack that ends
    with [n] values gives back the same stack, in the same order, and the
    same state. *)
Theorem pack_list_split_struct_roundtrip (fuel : nat) (vs rest : list value)
    (self : Interpreter) :
  run node_types py_str fuel
    [Build_Operation PACK_LIST (VInt (Z.of_nat (length vs)));
     Build_Operation SPLIT_STRUCT VNone]
    (set_stack (rest ++ vs) self)
  = Ok (set_stack (rest ++ vs) self).
Proof.
  unfold run. simpl. rewrite Nat2Z.id, pop_n_app. simpl.
  rewrite rev_involutive.
  unfold push. simpl. rewrite pop_set_stack. simpl. reflexivity.
Qed.

(** C10 (as amended). A call operation whose descriptor declares no
    output pushes nothing: when it returns, the stack is the stack before
    the call with the arguments popped. For [CALL_NODEGROUP] this holds
    when the inner graph is built by this call (first use of the name) or
    when the cached inner graph has no declared output: the push follows
    the output ports of the reference node, not the descriptor. *)
Theorem call_without_outputs_pushes_nothing (fuel : nat) (t : OpType) (d : value)
    (s s' : Interpreter) :
  call_without_outputs t d ->
  cached_graph_without_outputs d s ->
  operation node_types py_str fuel (Build_Operation t d) s = Ok s' ->
  stack s' = snd (get_args (stack s) (call_arity d)).
Proof.
  intros Hno Hcached H.
  destruct t, d; simpl in Hno; try contradiction; simpl in H, Hcached |- *.
  - (* CALL_FUNCTION *)
    apply call_function_Ok in H as (fo & Hfo & _ & Hstack & _);
      [|intros s1 s2; apply run_frame].
    rewrite Hno in Hfo. destruct fo; [|discriminate Hfo].
    by rewrite Hstack, app_nil_r.
  - (* CALL_NODEGROUP *)
    destruct (get_args (stack s) (length (ng_inputs g))) as [args st] eqn:Ea.
    unfold execute_node_group in H. simpl in H.
    destruct (node_group_trees s !! ng_name g) as [tr|] eqn:Hc.
    + apply instantiate_group_Ok in H as (_ & _ & _ & _ & Hstack & _).
      simpl in Hstack. rewrite (Hcached tr eq_refl) in Hstack.
      by rewrite Hstack, app_nil_r.
    + ok_step H. destruct a as [tr s1].
      apply build_node_group_Ok in Hstep as (_ & Hst & _ & _ & _ & Hn & _);
        [|intros s1' s2; apply run_frame|exact Hc].
      apply instantiate_group_Ok in H as (_ & _ & _ & _ & Hstack & _).
      rewrite Hn, Hno in Hstack. simpl in Hstack, Hst.
      by rewrite Hstack, Hst, app_nil_r.
  - (* CALL_BUILTIN *)
    unfold call_builtin in H.
    destruct (get_args (stack s) (length (ni_inputs n))) as [args st] eqn:Ea.
    ok_step H. destruct a as [node s1]. rewrite Hno in H. simpl in H.
    simplify_eq. apply add_builtin_gframe in Hstep as (_ & _ & Hst & _).
    simpl in *. exact Hst.
Qed.

(** Later calls at the same level reuse the cached graph. When a
    [CALL_NODEGROUP] for a name has returned, the name is cached (with
    the inner graph this call constructed first, if the name was not
    cached before), and it is still cached with the same inner graph
    after any operation stream run from there. A [CALL_NODEGROUP] with
    any descriptor of that name then runs no body: it is exactly the
    instantiation of a reference node on the cached graph. When it
    returns, the backend has seen no new inner graph at all, exactly one
    more reference node, and no inner graph for that name since the first
    call returned. *)
Theorem node_group_body_runs_once (fuel : nat) (g1 g2 : CompiledNodeGroup)
    (ops : list Operation) (s0 s1 s2 : Interpreter) :
  operation node_types py_str fuel (Build_Operation CALL_NODEGROUP (VNodeGroup g1)) s0
  = Ok s1 ->
  run node_types py_str fuel ops s1 = Ok s2 ->
  ng_name g2 = ng_name g1 ->
  exists t : nat,
    node_group_trees s1 !! ng_name g1 = Some t /\
    (node_group_trees s0 !! ng_name g1 = None ->
     exists evs,
       events (bpy s1)
       = events (bpy s0)
         ++ EvNodeGroupsNew (ng_name g1) (tree_idname (bpy s0) (tree s0)) t :: evs) /\
    node_group_trees s2 !! ng_name g1 = Some t /\
    operation node_types py_str fuel
      (Build_Operation CALL_NODEGROUP (VNodeGroup g2)) s2
    = instantiate_group t (fst (get_args (stack s2) (length (ng_inputs g2))))
        (set_stack (snd (get_args (stack s2) (length (ng_inputs g2)))) s2) /\
    forall s3,
      operation node_types py_str fuel
        (Build_Operation CALL_NODEGROUP (VNodeGroup g2)) s2 = Ok s3 ->
      count_events is_build (events (bpy s3))
      = count_events is_build (events (bpy s2)) /\
      count_events is_reference (events (bpy s3))
      = S (count_events is_reference (events (bpy s2))) /\
      count_events (is_build_of (ng_name g1)) (events (bpy s3))
      = count_events (is_build_of (ng_name g1)) (events (bpy s1)).
Proof.
  intros H1 Hrun Hname.
  assert (exists t, node_group_trees s1 !! ng_name g1 = Some t /\
            (node_group_trees s0 !! ng_name g1 = None ->
             exists evs,
               events (bpy s1)
               = events (bpy s0)
                 ++ EvNodeGroupsNew (ng_name g1) (tree_idname (bpy s0) (tree s0)) t
                    :: evs)) as (t & Ht1 & Hfirst).
  { simpl in H1. destruct (get_args _ _) as [args st].
    unfold execute_node_group in H1. simpl in H1.
    destruct (node_group_trees s0 !! ng_name g1) as [t|] eqn:Hc.
    - exists t. split; [|discriminate].
      apply instantiate_group_Ok in H1
        as (_ & _ & _ & _ & _ & _ & _ & _ & _ & -> & _). exact Hc.
    - ok_step H1. destruct a as [t s'].
      apply build_node_group_Ok in Hstep as (_ & _ & _ & _ & Hin & _ & _ & evs & Hev);
        [|intros s1' s2'; apply run_frame|exact Hc].
      exists t. apply instantiate_group_Ok in H1
        as (evs' & _ & Hev' & _ & _ & _ & _ & _ & _ & -> & _).
      split; [exact Hin|]. intros _. simpl in Hev.
      eexists. rewrite Hev', Hev, <- app_assoc. simpl. reflexivity. }
  pose proof (run_frame _ _ _ _ _ _ Hrun) as (_ & _ & Hc12 & _ & e12 & He12 & Hz12).
  pose proof (Hc12 _ _ Ht1) as Ht2.
  exists t. split; [exact Ht1|]. split; [exact Hfirst|]. split; [exact Ht2|].
  assert (Heq : operation node_types py_str fuel
                  (Build_Operation CALL_NODEGROUP (VNodeGroup g2)) s2
                = instantiate_group t (fst (get_args (stack s2) (length (ng_inputs g2))))
                    (set_stack (snd (get_args (stack s2) (length (ng_inputs g2)))) s2)).
  { simpl. destruct (get_args _ _) as [args st].
    unfold execute_node_group. simpl. rewrite Hname, Ht2. reflexivity. }
  split; [exact Heq|].
  intros s3 H3. rewrite Heq in H3.
  apply instantiate_group_Ok in H3 as (evs & Hw & Hev & _).
  simpl in Hev. rewrite Hev, He12.
  rewrite !count_events_app, !count_events_cons. simpl.
  rewrite (Hz12 (ng_name g1)) by eauto.
  rewrite (count_wiring_builds (ng_name g1) evs) by exact Hw.
  assert (Hwb : count_events is_build evs = 0%nat).
  { clear -Hw. induction evs as [|e evs IH]; [reflexivity|]. simpl in Hw.
    apply andb_true_iff in Hw as [He Hw]. unfold count_events in *.
    destruct e; try discriminate He; simpl; auto. }
  assert (Hwr : count_events is_reference evs = 0%nat).
  { clear -Hw. induction evs as [|e evs IH]; [reflexivity|]. simpl in Hw.
    apply andb_true_iff in Hw as [He Hw]. unfold count_events in *.
    destruct e; try discriminate He; simpl; auto. }
  rewrite Hwb, Hwr. split; [lia|]. split; lia.
Qed.

Lemma count_events_extended (p : Event -> bool) (evs more : list Event) :
  (count_events p evs <= count_events p (evs ++ more))%nat.
Proof. rewrite count_events_app. lia. Qed.

(** C1. The body of a node group is run before its name is stored in
    the cache, and the store is not conditional. So a group whose body
    starts with a call of a group of the same name, on a state in which
    the name is not cached, constructs two inner graphs for that name in
    the one invocation: its own and, inside its body, that of the nested
    call. The nested call returns with its graph cached under the name;
    when the body has finished the outer call overwrites the entry with
    its own graph. *)
Theorem nested_same_name_call_rebuilds (fuel : nat) (g1 g2 : CompiledNodeGroup)
    (rest : list Operation) (s s' : Interpreter) :
  ng_name g2 = ng_name g1 ->
  ng_body g1 = Build_Operation CALL_NODEGROUP (VNodeGroup g2) :: rest ->
  node_group_trees s !! ng_name g1 = None ->
  operation node_types py_str fuel
    (Build_Operation CALL_NODEGROUP (VNodeGroup g1)) s = Ok s' ->
  exists (s0 s_in : Interpreter) (t2 : nat),
    group_entry g1 s = Ok s0 /\
    operation node_types py_str fuel
      (Build_Operation CALL_NODEGROUP (VNodeGroup g2)) s0 = Ok s_in /\
    node_group_trees s_in !! ng_name g1 = Some t2 /\
    t2 <> length (trees (bpy s)) /\
    node_group_trees s' !! ng_name g1 = Some (length (trees (bpy s))) /\
    (count_events (is_build_of (ng_name g1)) (events (bpy s)) + 2
     <= count_events (is_build_of (ng_name g1)) (events (bpy s')))%nat.
Proof.
  intros Hname Hbody Hnone H. simpl in H.
  destruct (get_args (stack s) (length (ng_inputs g1))) as [args st].
  unfold execute_node_group in H. simpl in H. rewrite Hnone in H.
  apply bind_Ok in H as ([t s1] & Hbuild & H).
  apply instantiate_group_Ok in H
    as (ev3 & _ & Hev3 & _ & _ & _ & _ & _ & _ & Hc3 & _).
  unfold build_node_group in Hbuild.
  apply bind_Ok in Hbuild as ([[[t' gi] go] b] & Hnew & Hbuild).
  apply bind_Ok in Hbuild as (s2 & Hbody_run & Hbuild).
  apply bind_Ok in Hbuild as (s3 & Hwire & Hbuild).
  assert (Hentry : new_inner_tree g1 s = Ok (t', gi, go, b)).
  { rewrite <- Hnew. unfold new_inner_tree. reflexivity. }
  injection Hbuild as <- <-.
  rewrite Hbody in Hbody_run. simpl in Hbody_run.
  apply bind_Ok in Hbody_run as (s_in & Hcall & Hrest).
  apply new_inner_tree_Ok in Hnew
    as (-> & Hold & (r & Hr & _) & (e0 & He0 & _)).
  simpl in *.
  fold (run node_types py_str fuel rest) in Hrest.
  pose proof (run_frame _ _ _ _ _ _ Hrest) as (_ & _ & _ & _ & e4 & He4 & _).
  apply connect_group_outputs_wiring in Hwire as (e5 & _ & ->).
  set (s0 := set_stack []
               (set_function_outputs (fresh_outputs (length (ng_outputs g1)))
                  (set_variables (bind_gateway gi (node_outputs b gi) 0 ∅)
                     (set_tree (length (trees (bpy s))) (set_bpy b (set_stack st s)))))) in *.
  assert (Hcall' : operation node_types py_str fuel
                     (Build_Operation CALL_NODEGROUP (VNodeGroup g2)) s0 = Ok s_in).
  { simpl. exact Hcall. }
  destruct (get_args [] (length (ng_inputs g2))) as [args2 st2] eqn:Ea2.
  unfold execute_node_group in Hcall. simpl in Hcall.
  rewrite Hname, Hnone in Hcall.
  apply bind_Ok in Hcall as ([t2 s4] & Hbuild2 & Hinst2).
  pose proof Hbuild2 as Hbuild2'.
  apply build_node_group_Ok in Hbuild2
    as (_ & _ & _ & _ & Hin2 & _ & _ & e1 & He1);
    [|intros x y; apply run_frame|simpl; by rewrite Hname].
  assert (Ht2 : t2 = length (trees b)).
  { unfold build_node_group in Hbuild2'.
    apply bind_Ok in Hbuild2' as ([[[t'' gi2] go2] b2] & Hnew2 & Hb2).
    apply bind_Ok in Hb2 as (x1 & _ & Hb2). apply bind_Ok in Hb2 as (x2 & _ & Hb2).
    simplify_eq. apply new_inner_tree_Ok in Hnew2 as (-> & _). reflexivity. }
  apply instantiate_group_Ok in Hinst2
    as (ev2 & _ & Hev2 & _ & _ & _ & _ & _ & _ & Hc2 & _).
  simpl in *.
  exists s0, s_in, t2.
  split.
  { unfold group_entry. rewrite Hentry. reflexivity. }
  split; [exact Hcall'|].
  split; [rewrite Hc2, <- Hname; exact Hin2|].
  split.
  { apply lookup_lt_Some in Hr. lia. }
  split; [rewrite Hc3; simpl; by rewrite lookup_insert_eq|].
  rewrite Hev3. simpl. rewrite He4, Hev2, He1. simpl. rewrite He0.
  rewrite <- !app_assoc. rewrite !count_events_app. simpl.
  rewrite !count_events_cons. simpl. rewrite Hname, !String.eqb_refl. lia.
Qed.

End InterpreterLaws.

(** ** The name-chasing loop of [CREATE_VAR] *)

Lemma resolve_name_concrete (fuel : nat) (vars : gmap string value) (v : value) :
  (forall id, v <> VName id) -> resolve_name fuel vars v = Ok v.
Proof. intros H. destruct fuel, v; try reflexivity; by destruct (H id). Qed.

Lemma resolve_name_unbound (vars : gmap string value) (id : string) :
  vars !! id = None -> forall fuel, resolve_name fuel vars (VName id) = Diverge.
Proof.
  intros H fuel. induction fuel as [|fuel IH]; [reflexivity|].
  simpl. rewrite H. simpl. exact IH.
Qed.

Lemma resolve_name_self_alias (vars : gmap string value) (id : string) :
  vars !! id = Some (VName id) ->
  forall fuel, resolve_name fuel vars (VName id) = Diverge.
Proof.
  intros H fuel. induction fuel as [|fuel IH]; [reflexivity|].
  simpl. rewrite H. simpl. exact IH.
Qed.

Lemma create_var_unbound (fuel : nat) (name id : string) (rest : list value)
    (s : Interpreter) :
  variables s !! id = None ->
  create_var fuel (VStr name) (set_stack (rest ++ [VName id]) s) = Diverge.
Proof.
  intros H. unfold create_var. simpl as_str. cbv iota.
  rewrite pop_set_stack. simpl. rewrite resolve_name_unbound; [reflexivity|exact H].
Qed.

(** C5. [CREATE_VAR] on a name that is not bound never leaves its loop:
    [self.variables.get(var_id, socket)] gives the same name back, so no
    amount of fuel lets the operation return or raise. *)
Theorem create_var_unbound_name_never_returns : forall fuel : nat,
  operation demo_node_types demo_str fuel
    (Build_Operation CREATE_VAR (VStr "y"))
    (set_stack [VName "x"] demo_interpreter)
  = Diverge.
Proof.
  intros fuel.
  exact (create_var_unbound fuel "y" "x" [] demo_interpreter eq_refl).
Qed.

(** C9. The list-literal guard does not look at the operation kind: an
    operation of any kind that carries a list literal evaluates it and
    pushes the list, exactly as [PUSH_VALUE] does, and the contract of
    its own kind is skipped. *)
Theorem list_literal_guard_ignores_kind (node_types : string -> option NodeDecl)
    (py_str : value -> string) (fuel : nat) (t : OpType)
    (elements : list value) (s : Interpreter) :
  operation node_types py_str fuel (Build_Operation t (VListLiteral elements)) s
  = Ok (push (VList (map literal_value elements)) s).
Proof. simpl. by rewrite eval_elements_pure. Qed.

(** ** Instances and counterexamples *)

Lemma get_output_reverse_position_witness :
  exists v : value,
    [VInt 10; VInt 20; VInt 30]
      !! Z.to_nat (Z.of_nat (length [VInt 10; VInt 20; VInt 30]) - 1 - 0) = Some v /\
    operation demo_node_types demo_str 0 (Build_Operation GET_OUTPUT (VInt 0))
      (set_stack ([] ++ [VList [VInt 10; VInt 20; VInt 30]]) demo_interpreter)
    = Ok (set_stack ([] ++ [v]) demo_interpreter).
Proof.
  apply (get_output_reverse_position demo_node_types demo_str 0 0
           [VInt 10; VInt 20; VInt 30] [] demo_interpreter).
  simpl. lia.
Defined.

Lemma call_function_restores_frame_witness :
  exists s' : Interpreter,
    operation demo_node_types demo_str 0
      (Build_Operation CALL_FUNCTION (VFunction demo_pair_function))
      demo_pair_caller
    = Ok s' /\
    variables s' = variables demo_pair_caller /\
    function_outputs s' = function_outputs demo_pair_caller /\
    tree s' = tree demo_pair_caller /\
    (forall n t, node_group_trees demo_pair_caller !! n = Some t ->
                 node_group_trees s' !! n = Some t) /\
    exists s1 : Interpreter,
      run demo_node_types demo_str 0 (fn_body demo_pair_function)
        (function_entry demo_pair_function demo_pair_caller) = Ok s1 /\
      length (function_outputs s1) = Z.to_nat (fn_num_outputs demo_pair_function) /\
      forallb is_socket (function_outputs s1) = true /\
      stack s' = [VInt 5] ++ function_result (function_outputs s1) /\
      nodes s' = nodes s1 /\
      socket_table s' = socket_table s1 /\
      node_group_trees s' = node_group_trees s1 /\
      bpy s' = bpy s1.
Proof.
  eexists. split; [vm_compute; reflexivity|].
  apply (call_function_restores_frame demo_node_types demo_str 0
           demo_pair_function [VInt 5]
           [VSocket (Build_NodeSocket 8 true 0); VSocket (Build_NodeSocket 9 true 0)]
           demo_pair_caller).
  - reflexivity.
  - reflexivity.
  - vm_compute. reflexivity.
Defined.

(** On the example: the body binds [a] and [b] to the two arguments and
    fills slot 0 with the first and slot 1 with the second; the call
    leaves the struct of the two ports, the second first, on the value
    that was below the arguments, and the caller's own [a] is what it
    was. *)
Lemma call_function_pushes_filled_slots :
  exists s1 s' : Interpreter,
    run demo_node_types demo_str 0 (fn_body demo_pair_function)
      (function_entry demo_pair_function demo_pair_caller) = Ok s1 /\
    function_outputs s1
    = [VSocket (Build_NodeSocket 8 true 0); VSocket (Build_NodeSocket 9 true 0)] /\
    operation demo_node_types demo_str 0
      (Build_Operation CALL_FUNCTION (VFunction demo_pair_function))
      demo_pair_caller
    = Ok s' /\
    stack s'
    = [VInt 5;
       VList [VSocket (Build_NodeSocket 9 true 0);
              VSocket (Build_NodeSocket 8 true 0)]] /\
    variables s' !! "a" = Some (VInt 1).
Proof.
  eexists. eexists. repeat apply conj; vm_compute; reflexivity.
Qed.

(** A function body that adds a node: the list of created nodes of the
    caller is not what it was before the call. *)
Lemma call_function_leaks_created_nodes :
  exists s' : Interpreter,
    operation demo_node_types demo_str 0
      (Build_Operation CALL_FUNCTION (VFunction demo_node_adding_function))
      demo_interpreter
    = Ok s' /\
    nodes demo_interpreter = [] /\
    nodes s' = [0%nat].
Proof. eexists. split; [vm_compute; reflexivity|]. split; reflexivity. Qed.

Lemma call_without_outputs_pushes_nothing_witness :
  exists s' : Interpreter,
    operation demo_node_types demo_str 0
      (Build_Operation CALL_NODEGROUP (VNodeGroup demo_group_no_output))
      demo_interpreter
    = Ok s' /\
    stack s' = snd (get_args (stack demo_interpreter)
                      (call_arity (VNodeGroup demo_group_no_output))).
Proof.
  eexists. split; [vm_compute; reflexivity|].
  apply (call_without_outputs_pushes_nothing demo_node_types demo_str 0
           CALL_NODEGROUP (VNodeGroup demo_group_no_output) demo_interpreter).
  - reflexivity.
  - intros t Ht. vm_compute in Ht. discriminate Ht.
  - vm_compute. reflexivity.
Defined.

(** The name [A] is cached by a descriptor with one output; a later call
    with a descriptor of the same name that declares no output pushes the
    output port of the reference node. *)
Lemma call_nodegroup_pushes_cached_output :
  call_without_outputs CALL_NODEGROUP (VNodeGroup demo_group_no_output) /\
  exists s s' : Interpreter,
    run demo_node_types demo_str 0
      [Build_Operation CALL_NODEGROUP (VNodeGroup demo_group_one_output);
       Build_Operation END_OF_STATEMENT VNone] demo_interpreter
    = Ok s /\
    operation demo_node_types demo_str 0
      (Build_Operation CALL_NODEGROUP (VNodeGroup demo_group_no_output)) s
    = Ok s' /\
    snd (get_args (stack s) (call_arity (VNodeGroup demo_group_no_output))) = [] /\
    stack s' = [VSocket (Build_NodeSocket 3 true 0)].
Proof.
  split; [reflexivity|]. eexists. eexists.
  split; [vm_compute; reflexivity|].
  split; [vm_compute; reflexivity|].
  split; reflexivity.
Qed.

Lemma node_group_body_runs_once_witness :
  exists s1 s2 : Interpreter,
    operation demo_node_types demo_str 0
      (Build_Operation CALL_NODEGROUP (VNodeGroup demo_group_no_output))
      demo_interpreter
    = Ok s1 /\
    run demo_node_types demo_str 0 [Build_Operation END_OF_STATEMENT VNone] s1
    = Ok s2 /\
    exists t : nat,
      node_group_trees s1 !! ng_name demo_group_no_output = Some t /\
      (node_group_trees demo_interpreter !! ng_name demo_group_no_output = None ->
       exists evs,
         events (bpy s1)
         = events (bpy demo_interpreter)
           ++ EvNodeGroupsNew (ng_name demo_group_no_output)
                (tree_idname (bpy demo_interpreter) (tree demo_interpreter)) t
              :: evs) /\
      node_group_trees s2 !! ng_name demo_group_no_output = Some t /\
      operation demo_node_types demo_str 0
        (Build_Operation CALL_NODEGROUP (VNodeGroup demo_group_one_output)) s2
      = instantiate_group t
          (fst (get_args (stack s2) (length (ng_inputs demo_group_one_output))))
          (set_stack
             (snd (get_args (stack s2) (length (ng_inputs demo_group_one_output))))
             s2) /\
      forall s3,
        operation demo_node_types demo_str 0
          (Build_Operation CALL_NODEGROUP (VNodeGroup demo_group_one_output)) s2
        = Ok s3 ->
        count_events is_build (events (bpy s3))
        = count_events is_build (events (bpy s2)) /\
        count_events is_reference (events (bpy s3))
        = S (count_events is_reference (events (bpy s2))) /\
        count_events (is_build_of (ng_name demo_group_no_output)) (events (bpy s3))
        = count_events (is_build_of (ng_name demo_group_no_output))
            (events (bpy s1)).
Proof.
  eexists. eexists.
  split; [vm_compute; reflexivity|].
  split; [vm_compute; reflexivity|].
  apply (node_group_body_runs_once demo_node_types demo_str 0
           demo_group_no_output demo_group_one_output
           [Build_Operation END_OF_STATEMENT VNone] demo_interpreter).
  - vm_compute. reflexivity.
  - vm_compute. reflexivity.
  - reflexivity.
Defined.

Lemma nested_same_name_call_rebuilds_witness :
  exists s' : Interpreter,
    operation demo_node_types demo_str 0
      (Build_Operation CALL_NODEGROUP (VNodeGroup demo_group_nested))
      demo_interpreter
    = Ok s' /\
    exists (s0 s_in : Interpreter) (t2 : nat),
      group_entry demo_group_nested demo_interpreter = Ok s0 /\
      operation demo_node_types demo_str 0
        (Build_Operation CALL_NODEGROUP (VNodeGroup demo_group_no_output)) s0
      = Ok s_in /\
      node_group_trees s_in !! ng_name demo_group_nested = Some t2 /\
      t2 <> length (trees (bpy demo_interpreter)) /\
      node_group_trees s' !! ng_name demo_group_nested
      = Some (length (trees (bpy demo_interpreter))) /\
      (count_events (is_build_of (ng_name demo_group_nested))
         (events (bpy demo_interpreter)) + 2
       <= count_events (is_build_of (ng_name demo_group_nested))
            (events (bpy s')))%nat.
Proof.
  eexists. split; [vm_compute; reflexivity|].
  apply (nested_same_name_call_rebuilds demo_node_types demo_str 0
           demo_group_nested demo_group_no_output [] demo_interpreter).
  - reflexivity.
  - reflexivity.
  - reflexivity.
  - vm_compute. reflexivity.
Defined.

(** On the example, a group called [A] whose body calls another group
    called [A]: the one invocation constructs exactly two inner graphs
    for [A], the graphs 1 and 2, and adds two reference nodes; the
    nested call returns with [A] cached as graph 2, and the invocation
    with [A] cached as graph 1. *)
Lemma nested_same_name_builds_twice :
  exists s0 s_in s' : Interpreter,
    group_entry demo_group_nested demo_interpreter = Ok s0 /\
    operation demo_node_types demo_str 0
      (Build_Operation CALL_NODEGROUP (VNodeGroup demo_group_no_output)) s0
    = Ok s_in /\
    node_group_trees s_in !! "A" = Some 2%nat /\
    operation demo_node_types demo_str 0
      (Build_Operation CALL_NODEGROUP (VNodeGroup demo_group_nested))
      demo_interpreter
    = Ok s' /\
    node_group_trees s' !! "A" = Some 1%nat /\
    count_events (is_build_of "A") (events (bpy s')) = 2%nat /\
    count_events is_reference (events (bpy s')) = 2%nat.
Proof.
  eexists. eexists. eexists. repeat apply conj; vm_compute; reflexivity.
Qed.

(** * Properties of the parser *)

(** ** The token window *)

Lemma advance_at (c : nat) (cur prev : Token) (toks : list Token)
    (node : option ast_defs.stmt) :
  TokenType.eqb (token_type (next_token c toks)) TokenType.ERROR = false ->
  advance (parser_at c cur prev toks node)
  = parser_at c (next_token c toks) cur (tl toks) node.
Proof.
  intros H. unfold advance, tokens_left, parser_at. simpl.
  destruct toks as [|t rest]; simpl in *.
  - reflexivity.
  - unfold fetch. simpl. rewrite H. reflexivity.
Qed.

Lemma check_at (c : nat) (k : TokenType.t) (cur prev : Token) (toks : list Token)
    (node : option ast_defs.stmt) :
  check k (parser_at c cur prev toks node) = TokenType.eqb (token_type cur) k.
Proof. reflexivity. Qed.

Lemma curr_node_at (c : nat) (cur prev : Token) (toks : list Token)
    (node : option ast_defs.stmt) :
  curr_node (parser_at c cur prev toks node) = node.
Proof. reflexivity. Qed.

Lemma match_at_false (c : nat) (k : TokenType.t) (cur prev : Token)
    (toks : list Token) (node : option ast_defs.stmt) :
  TokenType.eqb (token_type cur) k = false ->
  match_ k (parser_at c cur prev toks node)
  = (false, parser_at c cur prev toks node).
Proof. intros H. unfold match_. rewrite check_at, H. reflexivity. Qed.

(** ** Unfolding one unit of fuel *)

Lemma parse_precedence_S (py : Python) (f : nat)
    (q : Precedence.t) (skip : bool) (p : Parser) :
  parse_precedence py (S f) q skip p
  = parse_precedence_body py (parse_precedence py f) f q skip p.
Proof. reflexivity. Qed.

Lemma infix_loop_S pp n k q ca p :
  infix_loop pp n (S k) q ca p
  = if (Precedence.value q
        <=? Precedence.value (precedence (get_rule (token_type (current p)))))%nat
    then run_infix pp n (infix (get_rule (token_type (previous (advance p))))) ca
           (advance p)
         ≫= infix_loop pp n k q ca
    else Ok p.
Proof. reflexivity. Qed.

Lemma parse_loop_S sdt ev fuel k body p :
  parse_loop sdt ev fuel (S k) body p
  = let '(b, p) := match_ TokenType.EOL p in
    if b then Ok (ast_defs.Build_Module body, p)
    else
      declaration sdt ev fuel p ≫= fun '(statement, p) =>
        parse_loop sdt ev fuel k
          (match statement with Some s => body ++ [s] | None => body end)
          (if panic_mode p then synchronize p else p).
Proof. reflexivity. Qed.

Lemma declaration_S sdt ev fuel p :
  declaration sdt ev (S fuel) p
  = declaration_body sdt ev (parse_precedence ev fuel) (declaration sdt ev fuel) fuel p.
Proof. reflexivity. Qed.

(** ** Expressions nest to the left *)

(** ** What fitting chains are made of *)

Lemma TokenType_eqb_eq (a b : TokenType.t) :
  TokenType.eqb a b = true -> a = b.
Proof. destruct a, b; try reflexivity; discriminate. Qed.

Lemma TokenType_eqb_refl (a : TokenType.t) : TokenType.eqb a a = true.
Proof. unfold TokenType.eqb. apply Nat.eqb_refl. Qed.

(** A token an expression starts with is none of those without a prefix
    rule. *)
Lemma starts_not (t : Token) (k : TokenType.t) :
  starts_expression t = true ->
  prefix (rules k) = None ->
  TokenType.eqb (token_type t) k = false.
Proof.
  unfold starts_expression. intros Hs Hk.
  destruct (TokenType.eqb (token_type t) k) eqn:E; [|reflexivity].
  apply TokenType_eqb_eq in E. rewrite E, Hk in Hs. discriminate.
Qed.

Lemma is_binary_facts (op : Token) :
  is_binary op = true ->
  infix (rules (token_type op)) = Some Rule.binary /\
  (exists q, Precedence.of_value (level op + 1) = Some q /\
             Precedence.value q = S (level op)) /\
  (1 <= level op)%nat.
Proof.
  unfold is_binary, level.
  destruct (token_type op); simpl; try discriminate; intros _;
    repeat apply conj; eauto with lia.
Qed.

Lemma stops_facts (q : nat) (t : Token) :
  stops q t = true ->
  TokenType.eqb (token_type t) TokenType.ERROR = false /\
  TokenType.eqb (token_type t) TokenType.EQUAL = false /\
  (level t < q)%nat.
Proof.
  unfold stops. intros [[H1 H2]%andb_true_iff H3]%andb_true_iff.
  apply negb_true_iff in H1, H2. apply Nat.ltb_lt in H3. auto.
Qed.

Lemma stops_intro (q : nat) (t : Token) :
  TokenType.eqb (token_type t) TokenType.ERROR = false ->
  TokenType.eqb (token_type t) TokenType.EQUAL = false ->
  (level t < q)%nat ->
  stops q t = true.
Proof.
  intros H1 H2 H3. unfold stops. rewrite H1, H2. simpl. by apply Nat.ltb_lt.
Qed.

Lemma stops_mono (q q' : nat) (t : Token) :
  (q <= q')%nat -> stops q t = true -> stops q' t = true.
Proof.
  intros Hq (H1 & H2 & H3)%stops_facts. apply stops_intro; auto; lia.
Qed.

(** The token a fitting suffix starts with. *)
Lemma suffix_token_facts (l : suffix) :
  suffix_fits l = true ->
  TokenType.eqb (token_type (suffix_token l)) TokenType.ERROR = false /\
  TokenType.eqb (token_type (suffix_token l)) TokenType.EQUAL = false /\
  TokenType.eqb (token_type (suffix_token l)) TokenType.COMMA = false.
Proof.
  destruct l as [op r | lp args rp | d nm]; cbn [suffix_fits suffix_token].
  - intros [Hb _]%andb_true_iff. unfold is_binary in Hb.
    destruct (token_type op); try discriminate Hb; auto.
  - intros [[Hlp _]%andb_true_iff _]%andb_true_iff.
    apply TokenType_eqb_eq in Hlp as ->. auto.
  - intros [Hd _]%andb_true_iff. apply TokenType_eqb_eq in Hd as ->. auto.
Qed.

Lemma spine_fits_cons (q hi : nat) (l : suffix) (rest : list suffix) :
  spine_fits q hi (l :: rest) = true ->
  (q <= level (suffix_token l) <= hi)%nat /\
  suffix_fits l = true /\ spine_fits q (suffix_tail l) rest = true.
Proof.
  unfold spine_fits. cbn [spine_fits_with].
  intros [[[H1 H2]%andb_true_iff H3]%andb_true_iff H4]%andb_true_iff.
  apply Nat.leb_le in H1, H2. auto.
Qed.

Lemma fits_Chain (q : nat) (first : operand) (rest : list suffix) :
  fits q (Chain first rest) = true ->
  operand_fits first = true /\ spine_fits q (operand_tail first) rest = true.
Proof. cbn [fits]. by intros [H1 H2]%andb_true_iff. Qed.

Lemma tokens_of_Chain (first : operand) (rest : list suffix) :
  tokens_of (Chain first rest) = operand_tokens first ++ spine_tokens rest.
Proof. reflexivity. Qed.

Lemma spine_tokens_cons (l : suffix) (rest : list suffix) :
  spine_tokens (l :: rest) = suffix_tokens l ++ spine_tokens rest.
Proof. reflexivity. Qed.

Lemma more_tokens_cons (comma : Token) (it : item) (more : list (Token * item)) :
  more_tokens ((comma, it) :: more) = comma :: item_tokens it ++ more_tokens more.
Proof. reflexivity. Qed.

Lemma tail_Chain (first : operand) (rest : list suffix) :
  tail (Chain first rest) = spine_tail (operand_tail first) rest.
Proof. reflexivity. Qed.

(** A fitting chain starts with a token that has a prefix rule, which
    is a name only when the first operand is that name. *)
Lemma chain_head (q : nat) (ch : chain) :
  fits q ch = true ->
  exists (t : Token) (ts : list Token),
    tokens_of ch = t :: ts /\ starts_expression t = true /\
    (TokenType.eqb (token_type t) TokenType.IDENTIFIER = true ->
     exists rest, ch = Chain (OLit t) rest).
Proof.
  destruct ch as [first rest]. intros [Hf _]%fits_Chain.
  rewrite tokens_of_Chain. unfold starts_expression.
  destruct first as [a | lp inner rp | op inner | lb comps rb | name lp args rp];
    cbn [operand_fits operand_tokens app] in *; eexists _, _;
    (split; [reflexivity|]).
  - split; [|eauto]. unfold is_literal in Hf.
    destruct (prefix (rules (token_type a))); [reflexivity | discriminate].
  - apply andb_true_iff in Hf as [[Hlp _]%andb_true_iff _].
    apply TokenType_eqb_eq in Hlp. rewrite Hlp. split; [reflexivity | discriminate].
  - apply andb_true_iff in Hf as [Hu _]. unfold is_unary in Hu.
    destruct (token_type op); try discriminate Hu; split;
      try reflexivity; discriminate.
  - apply andb_true_iff in Hf as [[Hlb _]%andb_true_iff _].
    apply TokenType_eqb_eq in Hlb. rewrite Hlb. split; [reflexivity | discriminate].
  - apply andb_true_iff in Hf as [[[Hn _]%andb_true_iff _]%andb_true_iff _].
    apply TokenType_eqb_eq in Hn. rewrite Hn. split; [reflexivity | discriminate].
Qed.

Lemma value_le_PRIMARY (q : Precedence.t) :
  (Precedence.value q <= Precedence.value Precedence.PRIMARY)%nat.
Proof. destruct q; simpl; lia. Qed.

Lemma parse_precedence_skip (py : Python) (f : nat) (q : Precedence.t)
    (p : Parser) :
  parse_precedence py f q true (advance p) = parse_precedence py f q false p.
Proof. destruct f; reflexivity. Qed.

(** The side conditions on the token window: the type of a token read
    off the hypotheses. *)
Ltac side :=
  cbn [next_token hd app];
  first
    [ assumption
    | repeat match goal with
             | H : token_type _ = _ |- _ => rewrite H
             end;
      reflexivity ].

Section Chains.
Variable py : Python.
Variable c : nat.

Lemma fits_head (q : nat) (ch : chain) (cont : list Token) :
  fits q ch = true ->
  starts_expression (next_token c (tokens_of ch ++ cont)) = true.
Proof.
  intros (t & ts & -> & Hs & _)%chain_head. exact Hs.
Qed.

Lemma fits_head_not (q : nat) (ch : chain) (cont : list Token) (k : TokenType.t) :
  fits q ch = true ->
  prefix (rules k) = None ->
  TokenType.eqb (token_type (next_token c (tokens_of ch ++ cont))) k = false.
Proof. intros Hf Hk. apply starts_not; [by eapply fits_head | exact Hk]. Qed.

(** The token after an operand or a suffix that allows [hi]: the next
    suffix of the chain, or the token at which the chain ends. *)
Lemma spine_head (q hi : nat) (rest : list suffix) (cont : list Token) :
  spine_fits q hi rest = true ->
  stops (Nat.min q (S (spine_tail hi rest))) (next_token c cont) = true ->
  stops (S hi) (next_token c (spine_tokens rest ++ cont)) = true /\
  TokenType.eqb (token_type (next_token c (spine_tokens rest ++ cont)))
    TokenType.COMMA
  = TokenType.eqb (token_type (next_token c cont)) TokenType.COMMA
    && match rest with [] => true | _ => false end.
Proof.
  destruct rest as [|l rest].
  - intros _ Hs. unfold spine_tail in Hs. cbn [spine_tail_with] in Hs.
    cbn [spine_tokens flat_map app]. rewrite andb_true_r. split; [|reflexivity].
    apply (stops_mono _ _ _ (Nat.le_min_r _ _) Hs).
  - intros (Hl & Hfit & _)%spine_fits_cons _.
    rewrite spine_tokens_cons.
    apply suffix_token_facts in Hfit as (He & Hq & Hc).
    assert (next_token c ((suffix_tokens l ++ spine_tokens rest) ++ cont)
            = suffix_token l) as -> by (by destruct l).
    rewrite Hc, andb_false_r. split; [|reflexivity].
    apply stops_intro; auto; lia.
Qed.

Lemma previous_before (toks : list Token) (prev : Token)
    (node : option ast_defs.stmt) :
  previous (parser_before c toks prev node) = prev.
Proof. reflexivity. Qed.

Lemma current_before (toks : list Token) (prev : Token)
    (node : option ast_defs.stmt) :
  current (parser_before c toks prev node) = next_token c toks.
Proof. reflexivity. Qed.

Lemma curr_node_before (toks : list Token) (prev : Token)
    (node : option ast_defs.stmt) :
  curr_node (parser_before c toks prev node) = node.
Proof. reflexivity. Qed.

Lemma set_curr_node_before (toks : list Token) (prev : Token)
    (node node' : option ast_defs.stmt) :
  set_curr_node node' (parser_before c toks prev node)
  = parser_before c toks prev node'.
Proof. reflexivity. Qed.

Lemma check_before (k : TokenType.t) (toks : list Token) (prev : Token)
    (node : option ast_defs.stmt) :
  check k (parser_before c toks prev node)
  = TokenType.eqb (token_type (next_token c toks)) k.
Proof. reflexivity. Qed.

Lemma match_before_false (k : TokenType.t) (toks : list Token) (prev : Token)
    (node : option ast_defs.stmt) :
  TokenType.eqb (token_type (next_token c toks)) k = false ->
  match_ k (parser_before c toks prev node)
  = (false, parser_before c toks prev node).
Proof. intros H. unfold parser_before. by rewrite match_at_false. Qed.

Lemma advance_before (t prev : Token) (ts : list Token)
    (node : option ast_defs.stmt) :
  TokenType.eqb (token_type (next_token c ts)) TokenType.ERROR = false ->
  advance (parser_before c (t :: ts) prev node) = parser_before c ts t node.
Proof.
  intros H. unfold parser_before. cbn [next_token hd tl].
  by rewrite advance_at.
Qed.

Lemma match_before_true (k : TokenType.t) (t prev : Token) (ts : list Token)
    (node : option ast_defs.stmt) :
  TokenType.eqb (token_type t) k = true ->
  TokenType.eqb (token_type (next_token c ts)) TokenType.ERROR = false ->
  match_ k (parser_before c (t :: ts) prev node)
  = (true, parser_before c ts t node).
Proof.
  intros Hk He. unfold match_. rewrite check_before. cbn [next_token hd].
  by rewrite Hk, advance_before.
Qed.

Lemma consume_before (k : TokenType.t) (message : string) (t prev : Token)
    (ts : list Token) (node : option ast_defs.stmt) :
  TokenType.eqb (token_type t) k = true ->
  TokenType.eqb (token_type (next_token c ts)) TokenType.ERROR = false ->
  consume k message (parser_before c (t :: ts) prev node)
  = parser_before c ts t node.
Proof.
  intros Hk He. unfold consume. rewrite check_before. cbn [next_token hd].
  by rewrite Hk, advance_before.
Qed.

Section ChainRules.
Variable f : nat.
Hypothesis Hpp : reads_chains py c f.

(** [expression] reads an item: the token after it is a separator. *)
Lemma expression_reads (x : chain) (prev : Token) (node : option ast_defs.stmt)
    (cont : list Token) (e : ast_defs.expr) :
  (need x <= f)%nat ->
  fits (Precedence.value Precedence.OR) x = true ->
  to_expr py x = Some e ->
  stops 1 (next_token c cont) = true ->
  exists prev' : Token,
    expression (parse_precedence py f)
      (parser_before c (tokens_of x ++ cont) prev node)
    = Ok (Some e, parser_before c cont prev' (Some (ast_defs.Expr e))) /\
    TokenType.eqb (token_type prev') TokenType.LEFT_PAREN = false.
Proof.
  intros Hn Hf He Hs.
  destruct (Hpp x Precedence.OR prev node cont e Hn Hf He) as (prev' & Hr & Hc).
  - eapply stops_mono; [|exact Hs]. simpl. lia.
  - simpl. lia.
  - exists prev'. unfold expression. rewrite Hr. by split.
Qed.

(** An argument that starts with a name: the name is consumed before
    it is known to be no keyword, and [parse_precedence] skips its
    [advance]. *)
Lemma skip_reads (x : chain) (prev : Token) (node : option ast_defs.stmt)
    (cont : list Token) (e : ast_defs.expr) :
  (need x <= f)%nat ->
  fits (Precedence.value Precedence.OR) x = true ->
  to_expr py x = Some e ->
  stops 1 (next_token c cont) = true ->
  TokenType.eqb (token_type (next_token c (tokens_of x ++ cont)))
    TokenType.IDENTIFIER = true ->
  exists (p1 : Parser) (prev' : Token),
    match_ TokenType.IDENTIFIER (parser_before c (tokens_of x ++ cont) prev node)
    = (true, p1) /\
    check TokenType.EQUAL p1 = false /\
    parse_precedence py f Precedence.OR true p1
    = Ok (Some (ast_defs.Expr e),
          parser_before c cont prev' (Some (ast_defs.Expr e))) /\
    TokenType.eqb (token_type prev') TokenType.LEFT_PAREN = false.
Proof.
  intros Hn Hf He Hs Hid.
  destruct (Hpp x Precedence.OR prev node cont e Hn Hf He) as (prev' & Hr & Hc).
  { eapply stops_mono; [|exact Hs]. simpl. lia. }
  { simpl. lia. }
  pose proof Hf as (t & ts & Htoks & _ & Hname)%chain_head.
  rewrite Htoks in Hid, Hr |- *. cbn [app next_token hd] in Hid.
  destruct (Hname Hid) as (rest & ->).
  rewrite tokens_of_Chain in Htoks. cbn [operand_tokens app] in Htoks.
  injection Htoks as <-.
  apply fits_Chain in Hf as [_ Hspine].
  destruct (spine_head _ _ rest cont Hspine) as [Hnext _].
  { eapply stops_mono; [|exact Hs]. simpl. lia. }
  apply stops_facts in Hnext as (Herr & Heq & _).
  exists (parser_before c (spine_tokens rest ++ cont) t node), prev'.
  cbn [app]. rewrite match_before_true by assumption.
  rewrite check_before, Heq.
  rewrite <- (advance_before t prev) by exact Herr.
  rewrite parse_precedence_skip. cbn [app] in Hr. by rewrite Hr.
Qed.

(** The fitting items after a named one. *)
Lemma more_fit_named (comma : Token) (it : item) (more : list (Token * item)) :
  more_fit item_fits true ((comma, it) :: more) = true ->
  token_type comma = TokenType.COMMA /\
  (exists name eq x, it = Named name eq x /\
     token_type name = TokenType.IDENTIFIER /\ token_type eq = TokenType.EQUAL /\
     fits (Precedence.value Precedence.OR) x = true) /\
  more_fit item_fits true more = true.
Proof.
  cbn [more_fit].
  intros [[[Hc Hit]%andb_true_iff Hn]%andb_true_iff Hm]%andb_true_iff.
  apply TokenType_eqb_eq in Hc.
  destruct it as [x | name eq x]; [discriminate Hn|].
  cbn [item_fits] in Hit.
  apply andb_true_iff in Hit as [[H1 H2]%andb_true_iff H3].
  apply TokenType_eqb_eq in H1, H2. eauto 10.
Qed.

(** The token after an item: the comma of the next one, or the token
    after the last. *)
Lemma more_head (named : bool) (more : list (Token * item)) (cont : list Token) :
  more_fit item_fits named more = true ->
  stops 1 (next_token c cont) = true ->
  stops 1 (next_token c (more_tokens more ++ cont)) = true.
Proof.
  destruct more as [|[comma it] more]; [by intros _|].
  cbn [more_fit]. intros [[[Hc _]%andb_true_iff _]%andb_true_iff _]%andb_true_iff _.
  apply TokenType_eqb_eq in Hc. rewrite more_tokens_cons. cbn [app next_token hd].
  unfold stops, level. by rewrite Hc.
Qed.

(** The inner loop of [call_args] reads the keyword arguments that
    follow the first. *)
Lemma keyword_loop_reads (cont : list Token) :
  stops 1 (next_token c cont) = true ->
  TokenType.eqb (token_type (next_token c cont)) TokenType.COMMA = false ->
  forall (more : list (Token * item)) (k : nat) (kws0 : list keyword)
         (prev : Token) (node : option ast_defs.stmt)
         (ps : list ast_defs.expr) (ks : list keyword),
    more_fit item_fits true more = true ->
    (length more < k)%nat ->
    (more_need more <= f)%nat ->
    collect py more = Some (ps, ks) ->
    TokenType.eqb (token_type prev) TokenType.LEFT_PAREN = false ->
    exists (prev' : Token) (node' : option ast_defs.stmt),
      keyword_loop (parse_precedence py f) k kws0
        (parser_before c (more_tokens more ++ cont) prev node)
      = Ok (Some (kws0 ++ ks), parser_before c cont prev' node') /\
      ps = [] /\
      TokenType.eqb (token_type prev') TokenType.LEFT_PAREN = false.
Proof.
  intros Hstop Hcomma more.
  induction more as [|[comma it] more IH];
    intros k kws0 prev node ps ks Hfit Hk Hneed Hcol Hprev.
  - destruct k as [|k]; [simpl in Hk; lia|].
    injection Hcol as <- <-.
    exists prev, node. cbn [keyword_loop more_tokens flat_map app].
    rewrite match_before_false by exact Hcomma. cbn [negb].
    by rewrite app_nil_r.
  - destruct k as [|k]; [simpl in Hk; lia|].
    pose proof Hfit as
      (Hc & (name & eq & x & -> & Hname & Heq & Hx) & Hmore)%more_fit_named.
    unfold more_need in Hneed. cbn [max_need item_need] in Hneed.
    fold (more_need more) in Hneed.
    unfold collect in Hcol. cbn [collect_with item_expr] in Hcol.
    fold (collect py more) in Hcol.
    destruct (to_expr py x) as [v|] eqn:Hv; [|discriminate Hcol].
    destruct (collect py more) as [[ps' ks']|] eqn:Hcol'; [|discriminate Hcol].
    injection Hcol as <- <-.
    destruct (expression_reads x eq node (more_tokens more ++ cont) v)
      as (prev1 & Hread & Hprev1);
      [lia | exact Hx | exact Hv | by eapply more_head |].
    destruct (IH k (kws0 ++ [ast_defs.Keyword name (lexeme name) v]) prev1
                (Some (ast_defs.Expr v)) ps' ks' Hmore)
      as (prev' & node' & Hloop & Hps & Hprev');
      [simpl in Hk; lia | lia | reflexivity | exact Hprev1 |].
    exists prev', node'.
    rewrite more_tokens_cons. cbn [item_tokens app keyword_loop].
    rewrite match_before_true by side.
    cbn [negb].
    rewrite consume_before by side.
    rewrite previous_before.
    rewrite <- app_assoc.
    rewrite consume_before
      by (side || (eapply fits_head_not; [exact Hx | reflexivity])).
    rewrite Hread. cbn [mbind result_bind bind].
    rewrite <- app_assoc in Hloop. split; [exact Hloop | by split].
Qed.

(** An item starts with a token that has a prefix rule. *)
Lemma item_head (it : item) (cont : list Token) :
  item_fits it = true ->
  starts_expression (next_token c (item_tokens it ++ cont)) = true.
Proof.
  destruct it as [x | name eq x]; cbn [item_fits item_tokens].
  - apply fits_head.
  - intros [[Hn _]%andb_true_iff _]%andb_true_iff.
    apply TokenType_eqb_eq in Hn. cbn [app next_token hd].
    unfold starts_expression. by rewrite Hn.
Qed.

Lemma item_head_not (it : item) (cont : list Token) (k : TokenType.t) :
  item_fits it = true ->
  prefix (rules k) = None ->
  TokenType.eqb (token_type (next_token c (item_tokens it ++ cont))) k = false.
Proof. intros Hf Hk. apply starts_not; [by apply item_head | exact Hk]. Qed.

(** The head of the outer loop of [call_args]: an item follows a comma
    or the opening parenthesis. *)
Lemma call_args_loop_enter (sep : option Token) (toks : list Token)
    (prev : Token) (node : option ast_defs.stmt) :
  match sep with
  | Some comma => token_type comma = TokenType.COMMA
  | None => token_type prev = TokenType.LEFT_PAREN
  end ->
  starts_expression (next_token c toks) = true ->
  exists prev1 : Token,
    match_ TokenType.COMMA (parser_before c (option_list sep ++ toks) prev node)
    = (negb (TokenType.eqb (token_type prev1) TokenType.LEFT_PAREN),
       parser_before c toks prev1 node) /\
    (negb (TokenType.eqb (token_type prev1) TokenType.LEFT_PAREN)
     || TokenType.eqb (token_type prev1) TokenType.LEFT_PAREN) = true.
Proof.
  intros Hsep Hstart. destruct sep as [comma|]; cbn [option_list option_rect app].
  - exists comma. rewrite Hsep. split; [|reflexivity].
    apply match_before_true; [by rewrite Hsep|].
    by apply starts_not.
  - exists prev. rewrite Hsep. split; [|reflexivity].
    apply match_before_false. by apply starts_not.
Qed.

(** One turn of the outer loop of [call_args] on a positional
    argument. *)
Lemma call_args_loop_positional (x : chain) (sep : option Token)
    (rest : list Token) (k : nat) (pos_args : list ast_defs.expr)
    (prev : Token) (node : option ast_defs.stmt) (e : ast_defs.expr) :
  match sep with
  | Some comma => token_type comma = TokenType.COMMA
  | None => token_type prev = TokenType.LEFT_PAREN
  end ->
  (need x <= f)%nat ->
  fits (Precedence.value Precedence.OR) x = true ->
  to_expr py x = Some e ->
  stops 1 (next_token c rest) = true ->
  exists prev1 : Token,
    call_args_loop (parse_precedence py f) (S k) pos_args []
      (parser_before c (option_list sep ++ tokens_of x ++ rest) prev node)
    = call_args_loop (parse_precedence py f) k (pos_args ++ [e]) []
        (parser_before c rest prev1 (Some (ast_defs.Expr e))) /\
    TokenType.eqb (token_type prev1) TokenType.LEFT_PAREN = false.
Proof.
  intros Hsep Hneed Hfit He Hstop.
  destruct (call_args_loop_enter sep (tokens_of x ++ rest) prev node Hsep)
    as (prev0 & Hm & Hcond); [by eapply fits_head|].
  cbn [call_args_loop]. rewrite Hm. cbn iota. rewrite previous_before, Hcond.
  destruct (TokenType.eqb (token_type (next_token c (tokens_of x ++ rest)))
              TokenType.IDENTIFIER) eqn:Hid.
  - destruct (skip_reads x prev0 node rest e Hneed Hfit He Hstop Hid)
      as (p1 & prev1 & Hm1 & Hchk & Hread & Hclose).
    exists prev1. rewrite Hm1. cbn iota. rewrite Hchk, Hread.
    split; [reflexivity | exact Hclose].
  - destruct (expression_reads x prev0 node rest e Hneed Hfit He Hstop)
      as (prev1 & Hread & Hclose).
    exists prev1. rewrite match_before_false by exact Hid. cbn iota.
    rewrite Hread. split; [reflexivity | exact Hclose].
Qed.

(** The outer loop of [call_args] ends after the last argument. *)
Lemma call_args_loop_exit (cont : list Token) (k : nat)
    (pos_args : list ast_defs.expr) (keyword_args : list keyword)
    (prev : Token) (node : option ast_defs.stmt) :
  TokenType.eqb (token_type (next_token c cont)) TokenType.COMMA = false ->
  TokenType.eqb (token_type prev) TokenType.LEFT_PAREN = false ->
  call_args_loop (parse_precedence py f) (S k) pos_args keyword_args
    (parser_before c cont prev node)
  = Ok (Some (pos_args, keyword_args), parser_before c cont prev node).
Proof.
  intros Hcomma Hprev. cbn [call_args_loop].
  rewrite match_before_false by exact Hcomma. cbn iota.
  by rewrite previous_before, Hprev.
Qed.

(** One turn of the outer loop of [call_args] on the first keyword
    argument: the inner loop reads all that follow. *)
Lemma call_args_loop_named (name eq : Token) (x : chain) (sep : option Token)
    (more : list (Token * item)) (cont : list Token) (k : nat)
    (pos_args : list ast_defs.expr) (prev : Token)
    (node : option ast_defs.stmt) (ps : list ast_defs.expr) (ks : list keyword) :
  match sep with
  | Some comma => token_type comma = TokenType.COMMA
  | None => token_type prev = TokenType.LEFT_PAREN
  end ->
  item_fits (Named name eq x) = true ->
  more_fit item_fits true more = true ->
  (length more + 1 < k)%nat ->
  (need x <= f)%nat ->
  (more_need more <= f)%nat ->
  items_exprs py (Items (Named name eq x) more) = Some (ps, ks) ->
  stops 1 (next_token c cont) = true ->
  TokenType.eqb (token_type (next_token c cont)) TokenType.COMMA = false ->
  exists (prev' : Token) (node' : option ast_defs.stmt),
    call_args_loop (parse_precedence py f) k pos_args []
      (parser_before c
         (option_list sep ++ item_tokens (Named name eq x)
          ++ more_tokens more ++ cont) prev node)
    = Ok (Some (pos_args ++ ps, ks), parser_before c cont prev' node') /\
    TokenType.eqb (token_type prev') TokenType.LEFT_PAREN = false.
Proof.
  intros Hsep Hfit Hmore Hk Hneed Hneeds Hex Hstop Hcomma.
  destruct k as [|k]; [lia|].
  destruct k as [|k']; [lia|].
  pose proof Hfit as Hit. cbn [item_fits] in Hit.
  apply andb_true_iff in Hit as [[Hname Heq]%andb_true_iff Hx].
  apply TokenType_eqb_eq in Hname, Heq.
  cbn [items_exprs item_expr] in Hex. fold (collect py more) in Hex.
  destruct (to_expr py x) as [v|] eqn:Hv; [|discriminate Hex].
  destruct (collect py more) as [[ps' ks']|] eqn:Hcol; [|discriminate Hex].
  injection Hex as <- <-.
  destruct (call_args_loop_enter sep
              (item_tokens (Named name eq x) ++ more_tokens more ++ cont)
              prev node Hsep)
    as (prev0 & Hm & Hcond); [by apply item_head|].
  destruct (expression_reads x eq node (more_tokens more ++ cont) v)
    as (prev1 & Hread & Hprev1);
    [exact Hneed | exact Hx | exact Hv | by eapply more_head |].
  destruct (keyword_loop_reads cont Hstop Hcomma more (S k')
              [ast_defs.Keyword name (lexeme name) v] prev1
              (Some (ast_defs.Expr v)) ps' ks' Hmore)
    as (prev' & node' & Hloop & -> & Hprev');
    [lia | exact Hneeds | exact Hcol | exact Hprev1 |].
  exists prev', node'. split; [|exact Hprev'].
  cbn [call_args_loop]. rewrite Hm. cbn iota. rewrite previous_before, Hcond.
  cbn [item_tokens app].
  rewrite match_before_true by side. cbn iota.
  rewrite check_before. cbn [next_token hd]. rewrite Heq.
  change (TokenType.eqb TokenType.EQUAL TokenType.EQUAL) with true. cbn iota.
  rewrite previous_before.
  rewrite advance_before by (eapply fits_head_not; [exact Hx | reflexivity]).
  rewrite Hread. cbn [mbind result_bind bind app].
  change (keyword_loop (parse_precedence py f) (S k')
            [ast_defs.Keyword name (lexeme name) v]
            (parser_before c (more_tokens more ++ cont) prev1
               (Some (ast_defs.Expr v)))
          = Ok (Some (ast_defs.Keyword name (lexeme name) v :: ks'),
                parser_before c cont prev' node')) in Hloop.
  rewrite Hloop. cbn [mbind result_bind bind].
  rewrite app_nil_r.
  apply call_args_loop_exit; assumption.
Qed.

(** The outer loop of [call_args] reads the arguments of a call. *)
Lemma call_args_loop_reads (cont : list Token) :
  stops 1 (next_token c cont) = true ->
  TokenType.eqb (token_type (next_token c cont)) TokenType.COMMA = false ->
  forall (more : list (Token * item)) (it : item) (sep : option Token)
         (k : nat) (pos_args : list ast_defs.expr) (prev : Token)
         (node : option ast_defs.stmt) (ps : list ast_defs.expr)
         (ks : list keyword),
    match sep with
    | Some comma => token_type comma = TokenType.COMMA
    | None => token_type prev = TokenType.LEFT_PAREN
    end ->
    item_fits it = true ->
    more_fit item_fits (is_named it) more = true ->
    (length more + 1 < k)%nat ->
    (item_need it <= f)%nat ->
    (more_need more <= f)%nat ->
    items_exprs py (Items it more) = Some (ps, ks) ->
    exists (prev' : Token) (node' : option ast_defs.stmt),
      call_args_loop (parse_precedence py f) k pos_args []
        (parser_before c
           (option_list sep ++ item_tokens it ++ more_tokens more ++ cont)
           prev node)
      = Ok (Some (pos_args ++ ps, ks), parser_before c cont prev' node') /\
      TokenType.eqb (token_type prev') TokenType.LEFT_PAREN = false.
Proof.
  intros Hstop Hcomma more.
  induction more as [|[comma' it'] more IH];
    intros [x | name eq x] sep k pos_args prev node ps ks Hsep Hit Hmore Hk
           Hneed Hneeds Hex;
    try (by eapply call_args_loop_named).
  - destruct k as [|k]; [lia|]. destruct k as [|k]; [lia|].
    cbn [items_exprs item_expr collect_with] in Hex.
    destruct (to_expr py x) as [e|] eqn:He; [|discriminate Hex].
    injection Hex as <- <-.
    destruct (call_args_loop_positional x sep cont (S k) pos_args prev node e
                Hsep Hneed Hit He Hstop)
      as (prev1 & Hturn & Hprev1).
    exists prev1, (Some (ast_defs.Expr e)).
    cbn [item_tokens more_tokens flat_map app]. rewrite Hturn.
    split; [by apply call_args_loop_exit | exact Hprev1].
  - destruct k as [|k]; [lia|].
    cbn [is_named more_fit] in Hmore.
    apply andb_true_iff in Hmore as [[[Hc Hit']%andb_true_iff _]%andb_true_iff Hmore].
    apply TokenType_eqb_eq in Hc.
    unfold more_need in Hneeds. cbn [max_need] in Hneeds.
    fold (more_need more) in Hneeds.
    cbn [items_exprs item_expr] in Hex.
    destruct (to_expr py x) as [e|] eqn:He; [|discriminate Hex].
    change (collect_with (item_expr py) ((comma', it') :: more))
      with (items_exprs py (Items it' more)) in Hex.
    destruct (items_exprs py (Items it' more)) as [[ps' ks']|] eqn:Hex';
      [|discriminate Hex].
    injection Hex as <- <-.
    destruct (call_args_loop_positional x sep
                (more_tokens ((comma', it') :: more) ++ cont) k pos_args prev
                node e Hsep Hneed Hit He)
      as (prev1 & Hturn & Hprev1).
    { rewrite more_tokens_cons. cbn [app next_token hd].
      unfold stops, level. by rewrite Hc. }
    destruct (IH it' (Some comma') k (pos_args ++ [e]) prev1
                (Some (ast_defs.Expr e)) ps' ks' Hc Hit' Hmore)
      as (prev' & node' & Hloop & Hprev');
      [simpl in Hk; lia | lia | lia | exact Hex' |].
    exists prev', node'. cbn [item_tokens]. rewrite Hturn.
    rewrite more_tokens_cons. cbn [option_list option_rect app] in Hloop.
    rewrite <- app_assoc in Hloop. cbn [app] in Hloop.
    rewrite <- app_comm_cons. rewrite <- app_assoc. split; [exact Hloop | exact Hprev'].
Qed.

(** [call_args] reads the arguments of a call up to the closing
    parenthesis. *)
Lemma call_args_reads (a : series) (lp rp : Token) (cont : list Token)
    (node : option ast_defs.stmt) (ps : list ast_defs.expr) (ks : list keyword) :
  token_type lp = TokenType.LEFT_PAREN ->
  token_type rp = TokenType.RIGHT_PAREN ->
  items_fit a = true ->
  (items_need a <= f)%nat ->
  items_exprs py a = Some (ps, ks) ->
  TokenType.eqb (token_type (next_token c cont)) TokenType.ERROR = false ->
  exists node' : option ast_defs.stmt,
    call_args (parse_precedence py f) f
      (parser_before c (items_tokens a ++ rp :: cont) lp node)
    = Ok (Some (ps, ks), parser_before c cont rp node').
Proof.
  intros Hlp Hrp Hfit Hneed Hex Hnext.
  destruct a as [|it more].
  - injection Hex as <- <-. exists node.
    cbn [items_tokens app]. unfold call_args.
    rewrite check_before. cbn [next_token hd]. rewrite Hrp.
    change (TokenType.eqb TokenType.RIGHT_PAREN TokenType.RIGHT_PAREN) with true.
    cbn [negb mbind result_bind bind].
    by rewrite consume_before by side.
  - cbn [items_fit] in Hfit. apply andb_true_iff in Hfit as [Hit Hmore].
    cbn [items_need] in Hneed. fold (more_need more) in Hneed.
    destruct (call_args_loop_reads (rp :: cont)) with
      (more := more) (it := it) (sep := @None Token) (k := f)
      (pos_args := @nil ast_defs.expr) (prev := lp) (node := node)
      (ps := ps) (ks := ks)
      as (prev' & node' & Hloop & _);
      try assumption; try lia.
    { cbn [next_token hd]. unfold stops, level. by rewrite Hrp. }
    { cbn [next_token hd]. by rewrite Hrp. }
    exists node'. unfold call_args. rewrite check_before.
    change (items_tokens (Items it more))
      with (item_tokens it ++ more_tokens more).
    rewrite <- app_assoc.
    rewrite (item_head_not it _ TokenType.RIGHT_PAREN Hit eq_refl).
    cbn [option_list option_rect app] in Hloop. cbn [negb]. rewrite Hloop.
    cbn [mbind result_bind bind].
    by rewrite consume_before by side.
Qed.

(** The components of a fitting vector are positional. *)
Lemma components_fit_positional (it : item) (more : list (Token * item)) :
  components_fit (Items it more) = true ->
  (exists x, it = Positional x /\
             fits (Precedence.value Precedence.OR) x = true) /\
  (length more <= 2)%nat /\
  Forall (fun '(comma, it') =>
            token_type comma = TokenType.COMMA /\
            exists y, it' = Positional y /\
                      fits (Precedence.value Precedence.OR) y = true) more.
Proof.
  cbn [components_fit].
  intros [[[Hit Hn]%andb_true_iff Hlen%Nat.leb_le]%andb_true_iff Hall]%andb_true_iff.
  repeat apply conj.
  - destruct it as [x|]; [eauto | discriminate Hn].
  - exact Hlen.
  - rewrite forallb_forall in Hall. apply Forall_forall.
    intros [comma it'] Hin%list_elem_of_In. specialize (Hall _ Hin).
    cbn beta iota in Hall.
    apply andb_true_iff in Hall as [[Hc Hf]%andb_true_iff Hn'].
    apply TokenType_eqb_eq in Hc. split; [exact Hc|].
    destruct it' as [y|]; [eauto | discriminate Hn'].
Qed.

(** [make_vector] reads up to three components. *)
Lemma make_vector_reads (ca : bool) (comps : series) (lb rb : Token)
    (cont : list Token) (node : option ast_defs.stmt)
    (xs : list ast_defs.expr) (ks : list keyword) (v : ast_defs.expr) :
  token_type rb = TokenType.RIGHT_BRACE ->
  components_fit comps = true ->
  (items_need comps <= f)%nat ->
  items_exprs py comps = Some (xs, ks) ->
  vector_expr lb xs = Some v ->
  TokenType.eqb (token_type (next_token c cont)) TokenType.ERROR = false ->
  make_vector (parse_precedence py f) ca
    (parser_before c (items_tokens comps ++ rb :: cont) lb node)
  = Ok (parser_before c cont rb (Some (ast_defs.Expr v))).
Proof.
  intros Hrb Hfit Hneed Hex Hv Hnext.
  assert (Hsep : stops 1 (next_token c (rb :: cont)) = true).
  { cbn [next_token hd]. unfold stops, level. by rewrite Hrb. }
  unfold make_vector. rewrite previous_before.
  destruct comps as [|it more].
  - injection Hex as <- <-. injection Hv as <-.
    cbn [items_tokens app].
    rewrite match_before_true by side.
    cbn [negb mbind result_bind bind]. by rewrite set_curr_node_before.
  - apply components_fit_positional in Hfit as ((x & -> & Hx) & Hlen & Hall).
    cbn [items_need item_need] in Hneed. fold (more_need more) in Hneed.
    cbn [items_exprs item_expr] in Hex. fold (collect py more) in Hex.
    destruct (to_expr py x) as [ex|] eqn:Hex1; [|discriminate Hex].
    change (items_tokens (Items (Positional x) more))
      with (tokens_of x ++ more_tokens more).
    rewrite <- app_assoc.
    rewrite match_before_false
      by (eapply fits_head_not; [exact Hx | reflexivity]).
    cbn [negb].
    destruct more as [|[c1 it1] more].
    { injection Hex as <- <-. injection Hv as <-.
      destruct (expression_reads x lb node (rb :: cont) ex)
        as (prev1 & Hread & _); [lia | exact Hx | exact Hex1 | exact Hsep |].
      cbn [more_tokens flat_map app]. rewrite Hread.
      cbn [mbind result_bind bind].
      do 2 (rewrite match_before_false by side; cbn [mbind result_bind bind]).
      rewrite consume_before by side.
      by rewrite set_curr_node_before. }
    apply Forall_cons in Hall as [[Hc1 (y & -> & Hy)] Hall].
    unfold more_need in Hneed. cbn [max_need item_need] in Hneed.
    fold (more_need more) in Hneed.
    unfold collect in Hex. cbn [collect_with item_expr] in Hex.
    fold (collect py more) in Hex.
    destruct (to_expr py y) as [ey|] eqn:Hex2; [|discriminate Hex].
    rewrite more_tokens_cons. cbn [item_tokens].
    destruct (expression_reads x lb node
                (c1 :: (tokens_of y ++ more_tokens more) ++ rb :: cont) ex)
      as (prev1 & Hread1 & _); [lia | exact Hx | exact Hex1 | |].
    { cbn [next_token hd]. unfold stops, level. by rewrite Hc1. }
    cbn [app]. rewrite Hread1. cbn [mbind result_bind bind].
    rewrite <- app_assoc.
    rewrite match_before_true
      by (side || (eapply fits_head_not; [exact Hy | reflexivity])).
    destruct more as [|[c2 it2] more].
    { injection Hex as <- <-. injection Hv as <-.
      destruct (expression_reads y c1 (Some (ast_defs.Expr ex)) (rb :: cont) ey)
        as (prev2 & Hread2 & _); [lia | exact Hy | exact Hex2 | exact Hsep |].
      cbn [more_tokens flat_map app]. rewrite Hread2.
      cbn [mbind result_bind bind].
      rewrite match_before_false by side. cbn [mbind result_bind bind].
      rewrite consume_before by side.
      by rewrite set_curr_node_before. }
    apply Forall_cons in Hall as [[Hc2 (z & -> & Hz)] Hall].
    destruct more as [|? more]; [|simpl in Hlen; lia].
    unfold more_need in Hneed. cbn [max_need item_need] in Hneed.
    unfold collect in Hex. cbn [collect_with item_expr] in Hex.
    destruct (to_expr py z) as [ez|] eqn:Hex3; [|discriminate Hex].
    injection Hex as <- <-. injection Hv as <-.
    rewrite more_tokens_cons. cbn [item_tokens more_tokens flat_map].
    rewrite app_nil_r.
    destruct (expression_reads y c1 (Some (ast_defs.Expr ex))
                (c2 :: tokens_of z ++ rb :: cont) ey)
      as (prev2 & Hread2 & _); [lia | exact Hy | exact Hex2 | |].
    { cbn [next_token hd]. unfold stops, level. by rewrite Hc2. }
    destruct (expression_reads z c2 (Some (ast_defs.Expr ey)) (rb :: cont) ez)
      as (prev3 & Hread3 & _); [lia | exact Hz | exact Hex3 | exact Hsep |].
    cbn [app]. rewrite Hread2. cbn [mbind result_bind bind].
    rewrite match_before_true
      by (side || (eapply fits_head_not; [exact Hz | reflexivity])).
    rewrite Hread3. cbn [mbind result_bind bind].
    rewrite consume_before by side.
    by rewrite set_curr_node_before.
Qed.

Lemma nest_left_None (rest : list suffix) : nest_left py None rest = None.
Proof.
  induction rest as [|l rest IH]; [reflexivity|].
  unfold nest_left in *. cbn [nest_left_with].
  by destruct l.
Qed.

Lemma nest_left_cons (l : ast_defs.expr) (s : suffix) (rest : list suffix)
    (e : ast_defs.expr) :
  nest_left py (Some l) (s :: rest) = Some e ->
  exists l', suffix_expr py (Some l) s = Some l' /\
             nest_left py (Some l') rest = Some e.
Proof.
  unfold nest_left. cbn [nest_left_with].
  destruct (suffix_expr py (Some l) s) as [l'|]; [eauto|].
  fold (nest_left py None rest). by rewrite nest_left_None.
Qed.

(** The loop of [parse_precedence] over the suffixes of a chain: the
    node on the left grows to the left. *)
Lemma infix_loop_spine (q : Precedence.t) (ca : bool) (cont : list Token) :
  forall (rest : list suffix) (l : ast_defs.expr) (prev : Token)
         (k hi : nat) (e : ast_defs.expr),
    spine_fits (Precedence.value q) hi rest = true ->
    (length rest < k)%nat ->
    (spine_need rest <= f)%nat ->
    nest_left py (Some l) rest = Some e ->
    stops (Nat.min (Precedence.value q) (S (spine_tail hi rest)))
      (next_token c cont) = true ->
    TokenType.eqb (token_type prev) TokenType.LEFT_PAREN = false ->
    exists prev' : Token,
      infix_loop (parse_precedence py f) f k q ca
        (parser_before c (spine_tokens rest ++ cont) prev (Some (ast_defs.Expr l)))
      = Ok (parser_before c cont prev' (Some (ast_defs.Expr e))) /\
      TokenType.eqb (token_type prev') TokenType.LEFT_PAREN = false.
Proof.
  intros rest.
  induction rest as [|s rest IH]; intros l prev k hi e Hfit Hk Hneed He Hstop Hprev.
  - destruct k as [|k]; [simpl in Hk; lia|].
    injection He as <-. exists prev. split; [|exact Hprev].
    rewrite infix_loop_S. cbn [spine_tokens flat_map app].
    rewrite current_before. unfold get_rule.
    apply stops_facts in Hstop as (_ & _ & Hlt). unfold level in Hlt.
    replace (Precedence.value q <=? _)%nat with false
      by (symmetry; apply Nat.leb_gt; lia).
    reflexivity.
  - destruct k as [|k]; [simpl in Hk; lia|].
    pose proof Hfit as (Hl & Hs & Hrest)%spine_fits_cons.
    apply nest_left_cons in He as (l' & Hl' & He).
    unfold spine_need in Hneed. cbn [max_need] in Hneed.
    fold (spine_need rest) in Hneed.
    unfold spine_tail in Hstop. cbn [spine_tail_with] in Hstop.
    fold (spine_tail (suffix_tail s) rest) in Hstop.
    destruct (spine_head _ _ rest cont Hrest Hstop) as [Hnext _].
    pose proof Hnext as (Hnext_err & _ & _)%stops_facts.
    assert (Hturn : exists prev1 : Token,
      run_infix (parse_precedence py f) f
        (infix (get_rule (token_type (suffix_token s)))) ca
        (advance (parser_before c (suffix_tokens s ++ spine_tokens rest ++ cont)
                    prev (Some (ast_defs.Expr l))))
      = Ok (parser_before c (spine_tokens rest ++ cont) prev1
              (Some (ast_defs.Expr l'))) /\
      previous (advance (parser_before c
                           (suffix_tokens s ++ spine_tokens rest ++ cont)
                           prev (Some (ast_defs.Expr l))))
      = suffix_token s /\
      TokenType.eqb (token_type prev1) TokenType.LEFT_PAREN = false).
    { destruct s as [op r | lp args rp | d nm];
        cbn [suffix_fits suffix_token suffix_tokens suffix_need suffix_tail
             suffix_expr app] in *.
      - apply andb_true_iff in Hs as [Hb Hr].
        apply is_binary_facts in Hb as (Hinfix & (q' & Hq' & Hqv) & Hop1).
        destruct (binary_operation op) as [o|] eqn:Ho; [|discriminate Hl'].
        destruct (to_expr py r) as [er|] eqn:Her; [|discriminate Hl'].
        injection Hl' as <-.
        destruct (Hpp r q' op (Some (ast_defs.Expr l))
                    (spine_tokens rest ++ cont) er)
          as (prev1 & Hread & Hprev1).
        { lia. }
        { rewrite Hqv. exact Hr. }
        { exact Her. }
        { rewrite Hqv, <- Nat.succ_min_distr. exact Hnext. }
        { rewrite Hqv. simpl. lia. }
        exists prev1.
        rewrite advance_before by (eapply fits_head_not; [exact Hr | reflexivity]).
        rewrite previous_before. split; [|by split].
        unfold get_rule. rewrite Hinfix. cbn [run_infix].
        unfold binary, get_rule. rewrite previous_before, curr_node_before.
        fold (level op). rewrite Hq', Hread.
        cbn [mbind result_bind bind]. rewrite Ho.
        by rewrite set_curr_node_before.
      - apply andb_true_iff in Hs as [[Hlp Hargs]%andb_true_iff Hrp].
        apply TokenType_eqb_eq in Hlp, Hrp.
        destruct (items_exprs py args) as [[ps ks]|] eqn:Hex; [|discriminate Hl'].
        destruct (callable l) eqn:Hcall; [|discriminate Hl'].
        injection Hl' as <-.
        destruct (call_args_reads args lp rp (spine_tokens rest ++ cont)
                    (Some (ast_defs.Expr l)) ps ks Hlp Hrp Hargs)
          as (node' & Hread); [lia | exact Hex | exact Hnext_err |].
        exists rp. rewrite <- app_assoc.
        assert (TokenType.eqb
                  (token_type (next_token c
                     (items_tokens args ++ [rp] ++ spine_tokens rest ++ cont)))
                  TokenType.ERROR = false) as Hhead.
        { destruct args as [|it more].
          - cbn [items_tokens app next_token hd]. by rewrite Hrp.
          - cbn [items_fit] in Hargs. apply andb_true_iff in Hargs as [Hit _].
            change (items_tokens (Items it more))
              with (item_tokens it ++ more_tokens more).
            rewrite <- app_assoc. by apply item_head_not. }
        rewrite advance_before by exact Hhead.
        rewrite previous_before. split; [|by rewrite Hrp].
        rewrite Hlp. cbn [get_rule rules infix run_infix].
        unfold call. rewrite previous_before, curr_node_before.
        cbn [app] in Hread |- *.
        destruct l; try discriminate Hcall; cbn iota; rewrite Hread;
          cbn [mbind result_bind bind]; by rewrite set_curr_node_before.
      - apply andb_true_iff in Hs as [Hd Hnm].
        apply TokenType_eqb_eq in Hd, Hnm.
        injection Hl' as <-.
        exists nm. rewrite advance_before by side.
        rewrite previous_before. split; [|by rewrite Hnm].
        rewrite Hd. cbn [get_rule rules infix run_infix].
        unfold dot. rewrite previous_before.
        rewrite consume_before by side.
        by rewrite curr_node_before, previous_before, set_curr_node_before. }
    destruct Hturn as (prev1 & Hturn & Hprevious & Hprev1).
    destruct (IH l' prev1 k (suffix_tail s) e Hrest)
      as (prev' & Hloop & Hprev'); [simpl in Hk; lia | lia | exact He | exact Hstop | exact Hprev1 |].
    exists prev'. split; [|exact Hprev'].
    rewrite infix_loop_S. rewrite spine_tokens_cons, <- app_assoc.
    rewrite current_before.
    assert (next_token c (suffix_tokens s ++ spine_tokens rest ++ cont)
            = suffix_token s) as -> by (by destruct s).
    unfold get_rule at 1. fold (level (suffix_token s)).
    replace (Precedence.value q <=? level (suffix_token s))%nat with true
      by (symmetry; apply Nat.leb_le; lia).
    rewrite Hprevious, Hturn. cbn [mbind result_bind bind].
    exact Hloop.
Qed.

(** The prefix rule of the first operand. *)
Lemma prefix_operand (ca : bool) (first : operand) (toks : list Token)
    (prev : Token) (node : option ast_defs.stmt) (l : ast_defs.expr) :
  operand_fits first = true ->
  (operand_need first <= f)%nat ->
  operand_expr py first = Some l ->
  stops (S (operand_tail first)) (next_token c toks) = true ->
  (ca = true ->
   TokenType.eqb (token_type (next_token c toks)) TokenType.COMMA = false) ->
  exists (prev' : Token) (r : Rule.prefix),
    prefix (get_rule (token_type (previous
      (advance (parser_before c (operand_tokens first ++ toks) prev node)))))
    = Some r /\
    run_prefix py (parse_precedence py f) f r ca
      (advance (parser_before c (operand_tokens first ++ toks) prev node))
    = Ok (parser_before c toks prev' (Some (ast_defs.Expr l))) /\
    TokenType.eqb (token_type prev') TokenType.LEFT_PAREN = false.
Proof.
  intros Hfit Hneed Hl Hstop Hcomma.
  pose proof Hstop as (Hnext & Hequal & _)%stops_facts.
  destruct first as [a | lp inner rp | op inner | lb comps rb | name lp args rp];
    cbn [operand_fits operand_need operand_expr operand_tokens operand_tail app]
      in *.
  - exists a. unfold is_literal in Hfit. unfold literal_expr in Hl.
    rewrite advance_before by exact Hnext. rewrite previous_before.
    unfold get_rule.
    destruct (token_type a) eqn:Ha; try discriminate Hfit;
      cbn [rules prefix] in Hl |- *; eexists; (split; [reflexivity|]);
      (split; [|reflexivity]); cbn [run_prefix].
    + unfold default_. rewrite previous_before, set_curr_node_before.
      by injection Hl as <-.
    + unfold identifier. rewrite previous_before. injection Hl as <-.
      destruct ca.
      * rewrite check_before, Hequal.
        rewrite match_before_false by (by apply Hcomma).
        by rewrite set_curr_node_before.
      * by rewrite set_curr_node_before.
    + unfold make_int. rewrite previous_before.
      destruct (py_int py (lexeme a)); [|discriminate Hl].
      injection Hl as <-. by rewrite set_curr_node_before.
    + unfold make_float. rewrite previous_before.
      destruct (py_float py (lexeme a)); [|discriminate Hl].
      injection Hl as <-. by rewrite set_curr_node_before.
    + unfold python. rewrite previous_before.
      destruct (py_eval py (slice_1 (lexeme a))) as [[v | [v | err] | | e err] | |];
        try discriminate Hl; injection Hl as <-;
        cbn [mbind result_bind bind]; by rewrite set_curr_node_before.
    + unfold string_. rewrite previous_before, set_curr_node_before.
      by injection Hl as <-.
    + unfold boolean. rewrite previous_before, set_curr_node_before.
      by injection Hl as <-.
    + unfold boolean. rewrite previous_before, set_curr_node_before.
      by injection Hl as <-.
  - apply andb_true_iff in Hfit as [[Hlp Hin]%andb_true_iff Hrp].
    apply TokenType_eqb_eq in Hlp, Hrp.
    destruct (expression_reads inner lp node (rp :: toks) l)
      as (prev1 & Hread & _); [exact Hneed | exact Hin | exact Hl | |].
    { cbn [next_token hd]. unfold stops, level. by rewrite Hrp. }
    exists rp, Rule.grouping. rewrite <- app_assoc. cbn [app].
    rewrite advance_before by (eapply fits_head_not; [exact Hin | reflexivity]).
    rewrite previous_before, Hlp. repeat apply conj; try reflexivity;
      [|by rewrite Hrp].
    cbn [run_prefix]. unfold grouping. rewrite Hread.
    cbn [mbind result_bind bind option_map].
    rewrite set_curr_node_before. by rewrite consume_before by side.
  - apply andb_true_iff in Hfit as [Hu Hin].
    destruct (unary_operation op) as [u|] eqn:Hop; [|discriminate Hl].
    destruct (to_expr py inner) as [e|] eqn:He; [|discriminate Hl].
    injection Hl as <-.
    destruct (Hpp inner Precedence.UNARY op node toks e)
      as (prev1 & Hread & Hprev1).
    { exact Hneed. }
    { exact Hin. }
    { exact He. }
    { rewrite Nat.succ_min_distr in Hstop. exact Hstop. }
    { simpl. lia. }
    exists prev1, Rule.unary.
    rewrite advance_before by (eapply fits_head_not; [exact Hin | reflexivity]).
    rewrite previous_before. unfold is_unary, get_rule in *.
    split; [by destruct (prefix (rules (token_type op))) as [[]|]|].
    split; [|exact Hprev1].
    cbn [run_prefix]. unfold unary. rewrite previous_before, Hread.
    cbn [mbind result_bind bind as_expr].
    unfold unary_operation in Hop.
    destruct (token_type op); try discriminate Hop; injection Hop as <-;
      by rewrite set_curr_node_before.
  - apply andb_true_iff in Hfit as [[Hlb Hcomps]%andb_true_iff Hrb].
    apply TokenType_eqb_eq in Hlb, Hrb.
    destruct (items_exprs py comps) as [[xs ks]|] eqn:Hex; [|discriminate Hl].
    exists rb, Rule.make_vector. rewrite <- app_assoc.
    assert (TokenType.eqb
              (token_type (next_token c (items_tokens comps ++ [rb] ++ toks)))
              TokenType.ERROR = false) as Hhead.
    { destruct comps as [|it more].
      - cbn [items_tokens app next_token hd]. by rewrite Hrb.
      - apply components_fit_positional in Hcomps as ((x & -> & Hx) & _).
        change (items_tokens (Items (Positional x) more))
          with (tokens_of x ++ more_tokens more).
        rewrite <- app_assoc. eapply fits_head_not; [exact Hx | reflexivity]. }
    rewrite advance_before by exact Hhead.
    rewrite previous_before, Hlb. repeat apply conj; try reflexivity;
      [|by rewrite Hrb].
    cbn [run_prefix app].
    by apply (make_vector_reads ca comps lb rb toks node xs ks l).
  - apply andb_true_iff in Hfit as [[[Hname Hlp]%andb_true_iff Hargs]%andb_true_iff Hrp].
    apply TokenType_eqb_eq in Hname, Hlp, Hrp.
    destruct (items_exprs py args) as [[ps ks]|] eqn:Hex; [|discriminate Hl].
    injection Hl as <-.
    destruct (call_args_reads args lp rp toks node ps ks Hlp Hrp Hargs)
      as (node' & Hread); [exact Hneed | exact Hex | exact Hnext |].
    exists rp, Rule.group_name. rewrite <- app_assoc.
    assert (TokenType.eqb
              (token_type (next_token c (items_tokens args ++ [rp] ++ toks)))
              TokenType.ERROR = false) as Hhead.
    { destruct args as [|it more].
      - cbn [items_tokens app next_token hd]. by rewrite Hrp.
      - cbn [items_fit] in Hargs. apply andb_true_iff in Hargs as [Hit _].
        change (items_tokens (Items it more))
          with (item_tokens it ++ more_tokens more).
        rewrite <- app_assoc. by apply item_head_not. }
    rewrite advance_before by side.
    rewrite previous_before, Hname. repeat apply conj; try reflexivity;
      [|by rewrite Hrp].
    cbn [run_prefix]. unfold group_name. rewrite previous_before.
    rewrite consume_before by (side || exact Hhead).
    cbn [app] in Hread |- *. rewrite Hread.
    cbn [mbind result_bind bind]. by rewrite set_curr_node_before.
Qed.
End ChainRules.

(** [parse_precedence] reads every fitting chain, given the room it
    needs. *)
Lemma parse_precedence_chain (f : nat) : reads_chains py c f.
Proof.
  induction f as [|f IH];
    intros [first rest] q prev node cont e Hneed Hfit He Hstop Hcomma.
  { cbn [need] in Hneed. lia. }
  cbn [need] in Hneed. fold (spine_need rest) in Hneed.
  apply fits_Chain in Hfit as [Hfirst Hspine].
  rewrite tail_Chain in Hstop.
  destruct (spine_head _ _ rest cont Hspine Hstop) as [Hnext Hnc].
  cbn [to_expr] in He. fold (nest_left py (operand_expr py first) rest) in He.
  destruct (operand_expr py first) as [l|] eqn:Hl;
    [|by rewrite nest_left_None in He].
  set (ca := (Precedence.value q <=? Precedence.value Precedence.ASSIGNMENT)%nat).
  destruct (prefix_operand f IH ca first (spine_tokens rest ++ cont) prev node l
              Hfirst)
    as (prev1 & r & Hr & Hrun & Hprev1); [lia | exact Hl | exact Hnext | |].
  { intros Hca%Nat.leb_le. by rewrite Hnc, Hcomma. }
  destruct (infix_loop_spine f IH q ca cont rest l prev1 f (operand_tail first) e
              Hspine)
    as (prev' & Hloop & Hprev'); [lia | lia | exact He | exact Hstop | exact Hprev1 |].
  exists prev'. split; [|exact Hprev'].
  rewrite parse_precedence_S. unfold parse_precedence_body.
  rewrite tokens_of_Chain, <- app_assoc.
  rewrite Hr. fold ca. rewrite Hrun. cbn [mbind result_bind bind].
  rewrite Hloop. cbn [mbind result_bind bind].
  apply stops_facts in Hstop as (_ & Heq & _).
  destruct ca.
  - rewrite match_before_false by exact Heq. by rewrite !curr_node_before.
  - by rewrite !curr_node_before.
Qed.
End Chains.

(** The end of input ends an expression read at any precedence but
    [NONE]. *)
Lemma stops_at_end (c : nat) (ch : chain) :
  stops (Nat.min (Precedence.value Precedence.ASSIGNMENT) (S (tail ch)))
    (next_token c []) = true.
Proof.
  apply stops_intro; try reflexivity.
  change (level (next_token c [])) with 0%nat. cbn [Precedence.value]. lia.
Qed.

(** Two fitting chains with the same tokens have the same tree: the
    tree is the one the parser returns. *)
Lemma fitting_chains_same_tree (py : Python) (ch1 ch2 : chain)
    (e1 e2 : ast_defs.expr) :
  fits (Precedence.value Precedence.ASSIGNMENT) ch1 = true ->
  fits (Precedence.value Precedence.ASSIGNMENT) ch2 = true ->
  to_expr py ch1 = Some e1 ->
  to_expr py ch2 = Some e2 ->
  tokens_of ch1 = tokens_of ch2 ->
  e1 = e2.
Proof.
  intros H1 H2 He1 He2 Htoks.
  set (f := Nat.max (need ch1) (need ch2)).
  set (t := eol_token 0).
  destruct (parse_precedence_chain py 0 f ch1 Precedence.ASSIGNMENT t None [] e1)
    as (p1 & Hr1 & _);
    [lia | exact H1 | exact He1 | apply stops_at_end | reflexivity |].
  destruct (parse_precedence_chain py 0 f ch2 Precedence.ASSIGNMENT t None [] e2)
    as (p2 & Hr2 & _);
    [lia | exact H2 | exact He2 | apply stops_at_end | reflexivity |].
  rewrite Htoks, Hr2 in Hr1. by injection Hr1 as -> _.
Qed.

(** With parentheses the right operand is a chain of its own: [2^(3^2)]
    fits, and its tree is nested to the right. *)
Lemma grouped_power_right_nested :
  fits (Precedence.value Precedence.ASSIGNMENT) demo_power_grouped = true /\
  to_expr demo_python demo_power_grouped
  = Some (ast_defs.BinOp (tok TokenType.HAT "^" 2)
            (ast_defs.Constant (tok TokenType.INT "2" 1) (ast_defs.CInt 2) INT)
            (ast_defs.Pow (tok TokenType.HAT "^" 2))
            (ast_defs.BinOp (tok TokenType.HAT "^" 5)
               (ast_defs.Constant (tok TokenType.INT "3" 4) (ast_defs.CInt 3) INT)
               (ast_defs.Pow (tok TokenType.HAT "^" 5))
               (ast_defs.Constant (tok TokenType.INT "2" 6) (ast_defs.CInt 2) INT))).
Proof. split; vm_compute; reflexivity. Qed.

(** The parser run on [-f(x, 1.5, n=2).y * {a} <= not _] returns the
    tree of the chain. *)
Lemma mixed_expression_parsed :
  fits (Precedence.value Precedence.ASSIGNMENT) demo_mixed = true /\
  exists (e : ast_defs.expr) (p' : Parser),
    to_expr demo_python demo_mixed = Some e /\
    parse demo_data_types demo_python 8 (parser_on (tokens_of demo_mixed) 33)
    = Ok (ast_defs.Build_Module [ast_defs.Expr e], p') /\
    errors p' = [].
Proof.
  split; [vm_compute; reflexivity|].
  eexists _, _. repeat apply conj; vm_compute; reflexivity.
Qed.

(** The host bounds the nesting: with room for three nested calls the
    innermost [parse_precedence] of [((1))] is one too many, and the
    parser raises [RecursionError]. A literal the host's [int] rejects
    makes the parser raise [ValueError]. *)
Lemma nesting_beyond_the_stack_raises :
  parse demo_data_types demo_python 3
    (parser_on [tok TokenType.LEFT_PAREN "(" 1; tok TokenType.LEFT_PAREN "(" 2;
                tok TokenType.INT "1" 3; tok TokenType.RIGHT_PAREN ")" 4;
                tok TokenType.RIGHT_PAREN ")" 5] 6)
  = Raise RecursionError.
Proof. vm_compute. reflexivity. Qed.

Lemma rejected_literal_raises (string_to_data_type : string -> option DataType)
    (py : Python) (s : string) (c fuel : nat) :
  py_int py s = None ->
  parse string_to_data_type py (2 + fuel) (parser_on [tok TokenType.INT s 1] c)
  = Raise ValueError.
Proof.
  intros Hs.
  assert (parser_on [tok TokenType.INT s 1] c
          = parser_before c [tok TokenType.INT s 1] (tok TokenType.INT s 1) None)
    as -> by reflexivity.
  unfold parse. cbn [Nat.add]. rewrite parse_loop_S.
  rewrite match_before_false by reflexivity. cbn iota.
  rewrite declaration_S. unfold declaration_body.
  rewrite !match_before_false by reflexivity. cbn iota.
  unfold statement. rewrite parse_precedence_S. unfold parse_precedence_body.
  rewrite advance_before by reflexivity. rewrite previous_before.
  cbn [get_rule token_type tok rules prefix run_prefix].
  unfold make_int. rewrite previous_before. cbn [lexeme tok].
  rewrite Hs. reflexivity.
Qed.

(** The parser run on [2 ^ - 3 ^ 2]: the prefix operator reads its
    operand at the precedence [UNARY], below that of the power, so the
    second power is inside the right operand of the first. *)
Lemma power_after_prefix_minus_nests_right :
  exists p' : Parser,
    parse demo_data_types demo_python 6
      (parser_on [tok TokenType.INT "2" 1; tok TokenType.HAT "^" 3;
                  tok TokenType.MINUS "-" 5; tok TokenType.INT "3" 7;
                  tok TokenType.HAT "^" 9; tok TokenType.INT "2" 11] 12)
    = Ok (ast_defs.Build_Module
            [ast_defs.Expr
               (ast_defs.BinOp (tok TokenType.HAT "^" 3)
                  (ast_defs.Constant (tok TokenType.INT "2" 1) (ast_defs.CInt 2) INT)
                  (ast_defs.Pow (tok TokenType.HAT "^" 3))
                  (ast_defs.UnaryOp (tok TokenType.MINUS "-" 5)
                     (ast_defs.USub (tok TokenType.MINUS "-" 5))
                     (ast_defs.BinOp (tok TokenType.HAT "^" 9)
                        (ast_defs.Constant (tok TokenType.INT "3" 7)
                           (ast_defs.CInt 3) INT)
                        (ast_defs.Pow (tok TokenType.HAT "^" 9))
                        (ast_defs.Constant (tok TokenType.INT "2" 11)
                           (ast_defs.CInt 2) INT))))],
          p') /\
    errors p' = [].
Proof. eexists. split; vm_compute; reflexivity. Qed.

(** C3. Every expression that is a fitting chain is parsed, without
    diagnostic, to the tree of the chain, whenever the host has room for
    the nested calls and accepts the literals: the suffixes that one
    loop of [parse_precedence] reads nest to the left, so
    [x0 op1 x1 op2 x2 ...] becomes [((x0 op1 x1) op2 x2) ...], the power
    operators included; each right operand [xi] is a chain read at the
    precedence of [opi] plus one, with only suffixes that bind more
    tightly than [opi] at its top level; and an operand that ends with a
    prefix operator, read at the precedence [UNARY], is followed by a
    suffix that binds less tightly than [UNARY]. *)
Theorem binary_operators_nest_left
    (string_to_data_type : string -> option DataType) (py : Python)
    (ch : chain) (e : ast_defs.expr) (c fuel : nat) :
  fits (Precedence.value Precedence.ASSIGNMENT) ch = true ->
  to_expr py ch = Some e ->
  (need ch < fuel)%nat ->
  exists p' : Parser,
    parse string_to_data_type py fuel (parser_on (tokens_of ch) c)
    = Ok (ast_defs.Build_Module [ast_defs.Expr e], p') /\
    errors p' = [].
Proof.
  intros Hfit He Hfuel.
  destruct fuel as [|f]; [lia|].
  assert (2 <= need ch)%nat as Hneed2 by (destruct ch; cbn [need]; lia).
  destruct f as [|k]; [lia|].
  pose proof Hfit as (t & ts & Htoks & Hstart & _)%chain_head.
  destruct (parse_precedence_chain py c (S k) ch Precedence.ASSIGNMENT t None [] e)
    as (prev' & Hread & _);
    [lia | exact Hfit | exact He | apply stops_at_end | reflexivity |].
  rewrite app_nil_r, Htoks in Hread. rewrite Htoks.
  eexists.
  assert (parser_on (t :: ts) c = parser_before c (t :: ts) t None) as ->
    by reflexivity.
  unfold parse. rewrite parse_loop_S.
  rewrite match_before_false by (by apply starts_not).
  cbn iota. rewrite declaration_S. unfold declaration_body.
  rewrite !match_before_false by (by apply starts_not).
  cbn iota. unfold statement. rewrite Hread.
  cbn [mbind result_bind bind].
  rewrite match_before_false by reflexivity.
  rewrite set_curr_node_before.
  cbn [mbind result_bind bind].
  change (panic_mode (parser_before c [] prev' None)) with false. cbn iota.
  rewrite parse_loop_S.
  split; reflexivity.
Qed.

Lemma binary_operators_nest_left_witness :
  exists p' : Parser,
    parse demo_data_types demo_python 5 (parser_on (tokens_of demo_power_chain) 6)
    = Ok (ast_defs.Build_Module
            [ast_defs.Expr
               (ast_defs.BinOp (tok TokenType.HAT "^" 4)
                  (ast_defs.BinOp (tok TokenType.HAT "^" 2)
                     (ast_defs.Constant (tok TokenType.INT "2" 1) (ast_defs.CInt 2) INT)
                     (ast_defs.Pow (tok TokenType.HAT "^" 2))
                     (ast_defs.Constant (tok TokenType.INT "3" 3) (ast_defs.CInt 3) INT))
                  (ast_defs.Pow (tok TokenType.HAT "^" 4))
                  (ast_defs.Constant (tok TokenType.INT "2" 5) (ast_defs.CInt 2) INT))],
          p') /\
    errors p' = [].
Proof.
  apply (binary_operators_nest_left demo_data_types demo_python demo_power_chain).
  - reflexivity.
  - reflexivity.
  - vm_compute. lia.
Defined.

(** C6. [parse] raises on malformed input: [1 not 2] calls the missing
    infix rule of [not] ([TypeError]), [-)(] reaches the assertion of
    [call] with no node on the left, and an embedded expression whose
    value is not a number makes [float] raise [TypeError], which the rule
    does not catch. No diagnostic is returned in these runs. *)
Theorem parse_raises_on_malformed_input : forall fuel : nat,
  parse demo_data_types demo_python (4 + fuel) (parser_on demo_stray_not 8)
  = Raise TypeError /\
  parse demo_data_types demo_python (4 + fuel) (parser_on demo_stray_call 4)
  = Raise (AssertionError "Error in the parser") /\
  parse demo_data_types demo_python (4 + fuel) (parser_on demo_python_list 5)
  = Raise TypeError.
Proof. intros fuel. repeat apply conj; vm_compute; reflexivity. Qed.

(** ** Panic mode *)

Lemma panic_step_refl (p : Parser) : panic_step p p.
Proof. unfold panic_step. destruct (panic_mode p); auto. Qed.

Lemma panic_step_trans (p1 p2 p3 : Parser) :
  panic_step p1 p2 -> panic_step p2 p3 -> panic_step p1 p3.
Proof.
  unfold panic_step. destruct (panic_mode p1).
  - intros [E1 E2]. rewrite E1. intros [E3 E4]. split; congruence.
  - intros [[E1 E2] | [E1 (e & E2)]]; rewrite E1.
    + intros [[E3 E4] | [E3 (e & E4)]]; [left | right]; split; try congruence.
      exists e. congruence.
    + intros [E3 E4]. right. split; [exact E3|]. exists e. congruence.
Qed.

(** [panic_step] looks at the panic flag and at the diagnostics only. *)
Lemma panic_step_same (p0 p p' : Parser) :
  panic_mode p' = panic_mode p -> errors p' = errors p ->
  panic_step p0 p -> panic_step p0 p'.
Proof. unfold panic_step. intros -> ->. auto. Qed.

Lemma error_at_step (token : Token) (message : string) (p : Parser) :
  panic_step p (error_at token message p).
Proof.
  unfold panic_step, error_at. destruct (panic_mode p) eqn:E.
  - rewrite E. auto.
  - right. simpl. eauto.
Qed.

Lemma error_at_ps p0 token message p :
  panic_step p0 p -> panic_step p0 (error_at token message p).
Proof. intros H. eapply panic_step_trans; [exact H | apply error_at_step]. Qed.

Lemma error_ps p0 message p :
  panic_step p0 p -> panic_step p0 (error message p).
Proof. apply error_at_ps. Qed.

Lemma error_at_current_ps p0 message p :
  panic_step p0 p -> panic_step p0 (error_at_current message p).
Proof. apply error_at_ps. Qed.

Lemma fetch_ps p0 p : panic_step p0 p -> panic_step p0 (fetch p).
Proof.
  apply panic_step_same; unfold fetch;
    destruct (py_pop (token_buffer p)) as [[t b]|]; try reflexivity;
    destruct (scan_token (scanner p)); reflexivity.
Qed.

Lemma advance_loop_ps (n : nat) : forall p0 p,
  panic_step p0 p -> panic_step p0 (advance_loop n p).
Proof.
  induction n as [|n IH]; intros p0 p H; simpl;
    destruct (TokenType.eqb _ _); auto using fetch_ps, error_at_ps.
Qed.

Lemma advance_ps p0 p : panic_step p0 p -> panic_step p0 (advance p).
Proof.
  intros H. unfold advance. apply advance_loop_ps.
  eapply panic_step_same; [| |exact H]; reflexivity.
Qed.

Lemma consume_ps p0 k message p :
  panic_step p0 p -> panic_step p0 (consume k message p).
Proof.
  unfold consume. destruct (check k p); auto using advance_ps, error_at_current_ps.
Qed.

Lemma match_ps p0 k p b p' :
  match_ k p = (b, p') -> panic_step p0 p -> panic_step p0 p'.
Proof.
  unfold match_. destruct (check k p); intros E H; simplify_eq;
    auto using advance_ps.
Qed.

Lemma set_curr_node_ps p0 node p :
  panic_step p0 p -> panic_step p0 (set_curr_node node p).
Proof. apply panic_step_same; reflexivity. Qed.

Create HintDb ps.
#[local] Hint Resolve panic_step_refl error_at_ps error_ps error_at_current_ps
  advance_ps consume_ps match_ps set_curr_node_ps : ps.

(** Take a successful run of a parser function apart, step by step. *)
Ltac unpack :=
  repeat match goal with
  | H : (_ ≫= _) = Ok _ |- _ =>
      apply bind_Ok in H; destruct H as (? & ? & H)
  | H : Raise _ = Ok _ |- _ => discriminate H
  | H : Diverge = Ok _ |- _ => discriminate H
  | H : Ok _ = Ok _ |- _ => injection H as H; subst
  | H : (_, _) = (_, _) |- _ => injection H as H; subst
  | H : (match ?x with _ => _ end) = _ |- _ => destruct x eqn:?
  end.

Section RulesPanic.
Variable py : Python.
Variable pp : Precedence.t -> bool -> Parser -> result (option ast_defs.stmt * Parser).
Variable n : nat.
Hypothesis pp_ps : forall p0 q s p r p',
  pp q s p = Ok (r, p') -> panic_step p0 p -> panic_step p0 p'.

Lemma expression_ps p0 p e p' :
  expression pp p = Ok (e, p') -> panic_step p0 p -> panic_step p0 p'.
Proof. unfold expression. intros H Hp. unpack. eauto with ps. Qed.
#[local] Hint Resolve expression_ps : ps.

Lemma keyword_loop_ps (k : nat) : forall p0 kws p r p',
  keyword_loop pp k kws p = Ok (r, p') -> panic_step p0 p -> panic_step p0 p'.
Proof.
  induction k as [|k IH]; simpl; intros p0 kws p r p' H Hp; [discriminate H|].
  unpack; eauto 10 with ps.
Qed.
#[local] Hint Resolve keyword_loop_ps : ps.

Lemma call_args_loop_ps (k : nat) : forall p0 pos kws p r p',
  call_args_loop pp k pos kws p = Ok (r, p') -> panic_step p0 p -> panic_step p0 p'.
Proof.
  induction k as [|k IH]; simpl; intros p0 pos kws p r p' H Hp; [discriminate H|].
  unpack; eauto 10 with ps.
Qed.
#[local] Hint Resolve call_args_loop_ps : ps.

Lemma call_args_ps p0 p r p' :
  call_args pp n p = Ok (r, p') -> panic_step p0 p -> panic_step p0 p'.
Proof. unfold call_args. intros H Hp. unpack; eauto 10 with ps. Qed.
#[local] Hint Resolve call_args_ps : ps.

Lemma identifier_targets_ps (k : nat) : forall p0 ts p r p',
  identifier_targets k ts p = Ok (r, p') -> panic_step p0 p -> panic_step p0 p'.
Proof.
  induction k as [|k IH]; simpl; intros p0 ts p r p' H Hp; [discriminate H|].
  unpack; eauto 10 with ps.
Qed.
#[local] Hint Resolve identifier_targets_ps : ps.

Lemma run_prefix_ps p0 r ca p p' :
  run_prefix py pp n r ca p = Ok p' -> panic_step p0 p -> panic_step p0 p'.
Proof.
  destruct r; simpl;
    unfold grouping, make_vector, unary, default_, identifier, make_int,
      make_float, python, string_, group_name, boolean;
    intros H Hp; unpack; eauto 12 with ps.
Qed.

Lemma run_infix_ps p0 r ca p p' :
  run_infix pp n r ca p = Ok p' -> panic_step p0 p -> panic_step p0 p'.
Proof.
  destruct r as [[]|]; simpl; unfold call, dot, binary;
    intros H Hp; unpack; eauto 12 with ps.
Qed.
#[local] Hint Resolve run_prefix_ps run_infix_ps : ps.

Lemma infix_loop_ps (k : nat) : forall p0 q ca p p',
  infix_loop pp n k q ca p = Ok p' -> panic_step p0 p -> panic_step p0 p'.
Proof.
  induction k as [|k IH]; simpl; intros p0 q ca p p' H Hp; [discriminate H|].
  unpack; eauto 10 with ps.
Qed.
#[local] Hint Resolve infix_loop_ps : ps.

End RulesPanic.


Section DeclarationsPanic.
Variable string_to_data_type : string -> option DataType.
Variable py : Python.
Variable pp : Precedence.t -> bool -> Parser -> result (option ast_defs.stmt * Parser).
Variable decl : Parser -> result (option ast_defs.stmt * Parser).
Variable n : nat.
Hypothesis pp_ps : forall p0 q s p r p',
  pp q s p = Ok (r, p') -> panic_step p0 p -> panic_step p0 p'.
Hypothesis decl_ps : forall p0 p r p',
  decl p = Ok (r, p') -> panic_step p0 p -> panic_step p0 p'.

#[local] Hint Resolve expression_ps : ps.

Lemma statement_ps p0 p r p' :
  statement pp p = Ok (r, p') -> panic_step p0 p -> panic_step p0 p'.
Proof. unfold statement. intros H Hp. unpack; eauto 10 with ps. Qed.

Lemma parse_type_ps p0 p ty p' :
  parse_type string_to_data_type p = (ty, p') ->
  panic_step p0 p -> panic_step p0 p'.
Proof. unfold parse_type. intros H Hp. unpack; eauto 10 with ps. Qed.
#[local] Hint Resolve statement_ps parse_type_ps : ps.

Lemma parse_arg_ps p0 p a p' :
  parse_arg string_to_data_type pp p = Ok (a, p') ->
  panic_step p0 p -> panic_step p0 p'.
Proof. unfold parse_arg. intros H Hp. unpack; eauto 10 with ps. Qed.
#[local] Hint Resolve parse_arg_ps : ps.

Lemma out_targets_ps (k : nat) : forall p0 ts p r p',
  out_targets k ts p = Ok (r, p') -> panic_step p0 p -> panic_step p0 p'.
Proof.
  induction k as [|k IH]; simpl; intros p0 ts p r p' H Hp; [discriminate H|].
  unpack; eauto 10 with ps.
Qed.
#[local] Hint Resolve out_targets_ps : ps.

Lemma out_ps p0 p r p' :
  out pp n p = Ok (r, p') -> panic_step p0 p -> panic_step p0 p'.
Proof.
  unfold out. intros H Hp. unpack; repeat (case_match; simplify_eq);
    eauto 10 with ps.
Qed.

Lemma func_args_ps (k : nat) : forall p0 l p r p',
  func_args string_to_data_type pp k l p = Ok (r, p') ->
  panic_step p0 p -> panic_step p0 p'.
Proof.
  induction k as [|k IH]; simpl; intros p0 l p r p' H Hp; [discriminate H|].
  unpack; eauto 10 with ps.
Qed.

Lemma func_returns_ps (k : nat) : forall p0 l p r p',
  func_returns string_to_data_type pp k l p = Ok (r, p') ->
  panic_step p0 p -> panic_step p0 p'.
Proof.
  induction k as [|k IH]; simpl; intros p0 l p r p' H Hp; [discriminate H|].
  unpack; eauto 10 with ps.
Qed.

Lemma block_body_ps (k : nat) : forall p0 l p r p',
  block_body decl k l p = Ok (r, p') -> panic_step p0 p -> panic_step p0 p'.
Proof.
  induction k as [|k IH]; simpl; intros p0 l p r p' H Hp; [discriminate H|].
  unpack; eauto 10 with ps.
Qed.
#[local] Hint Resolve out_ps func_args_ps func_returns_ps block_body_ps : ps.

Lemma parse_func_structure_ps p0 p a b r p' :
  parse_func_structure string_to_data_type pp decl n p = Ok (a, b, r, p') ->
  panic_step p0 p -> panic_step p0 p'.
Proof. unfold parse_func_structure. intros H Hp. unpack; eauto 14 with ps. Qed.

Lemma def_name_ps p0 message p t nm p' :
  def_name message p = (t, nm, p') -> panic_step p0 p -> panic_step p0 p'.
Proof.
  unfold def_name. intros H Hp. unpack; repeat (case_match; simplify_eq);
    eauto 10 with ps.
Qed.

Lemma parse_int_ps p0 p z p' :
  parse_int py p = Ok (z, p') -> panic_step p0 p -> panic_step p0 p'.
Proof. unfold parse_int. intros H Hp. unpack; eauto 10 with ps. Qed.
#[local] Hint Resolve parse_func_structure_ps def_name_ps parse_int_ps : ps.

Lemma function_def_ps p0 p r p' :
  function_def string_to_data_type pp decl n p = Ok (r, p') ->
  panic_step p0 p -> panic_step p0 p'.
Proof. unfold function_def. intros H Hp. unpack; eauto 10 with ps. Qed.

Lemma nodegroup_def_ps p0 p r p' :
  nodegroup_def string_to_data_type pp decl n p = Ok (r, p') ->
  panic_step p0 p -> panic_step p0 p'.
Proof. unfold nodegroup_def. intros H Hp. unpack; eauto 10 with ps. Qed.

Lemma loop_ps p0 p r p' :
  loop py decl n p = Ok (r, p') -> panic_step p0 p -> panic_step p0 p'.
Proof. unfold loop. intros H Hp. unpack; eauto 14 with ps. Qed.
#[local] Hint Resolve function_def_ps nodegroup_def_ps loop_ps : ps.

End DeclarationsPanic.


(** ** [synchronize] stops at a synchronization point *)

Lemma error_at_window (token : Token) (message : string) (p : Parser) :
  scanner (error_at token message p) = scanner p /\
  token_buffer (error_at token message p) = token_buffer p /\
  current (error_at token message p) = current p /\
  previous (error_at token message p) = previous p.
Proof. unfold error_at. destruct (panic_mode p); auto. Qed.

Lemma fetch_window (p : Parser) :
  previous (fetch p) = previous p /\
  ((tokens_left p = 0%nat /\ tokens_left (fetch p) = 0%nat /\
    token_type (current (fetch p)) = TokenType.EOL)
   \/ S (tokens_left (fetch p)) = tokens_left p).
Proof.
  unfold fetch, tokens_left.
  destruct (py_pop (token_buffer p)) as [[t b]|] eqn:E.
  - apply py_pop_Some in E. simpl. split; [reflexivity|]. right.
    rewrite E, length_app. simpl. lia.
  - assert (token_buffer p = []) as ->.
    { unfold py_pop in E. destruct (rev (token_buffer p)) eqn:R; [|discriminate E].
      rewrite <- (rev_involutive (token_buffer p)), R. reflexivity. }
    unfold scan_token. destruct (pending (scanner p)) as [|t rest] eqn:Ep; simpl.
    + split; [reflexivity|]. left. rewrite Ep. auto.
    + split; [reflexivity|]. right. reflexivity.
Qed.

Lemma advance_loop_window (n : nat) : forall p : Parser,
  (tokens_left p <= n)%nat ->
  previous (advance_loop n p) = previous p /\
  (token_type (current (advance_loop n p)) = TokenType.EOL
   \/ (tokens_left (advance_loop n p) < tokens_left p)%nat).
Proof.
  induction n as [|n IH]; intros p Hn; simpl;
    destruct (fetch_window p) as (Hprev & Hleft);
    destruct (TokenType.eqb (token_type (current (fetch p))) TokenType.ERROR) eqn:E.
  - destruct Hleft as [(_ & _ & Heol) | Hs]; [|lia].
    rewrite Heol in E. discriminate E.
  - destruct Hleft as [(_ & _ & Heol) | Hs]; [auto | lia].
  - destruct Hleft as [(_ & _ & Heol) | Hs];
      [rewrite Heol in E; discriminate E|].
    set (t := current (fetch p)) in *.
    set (p2 := error_at _ _ (fetch p)).
    pose proof (error_at_window
                  (Build_Token (lexeme t) TokenType.ERROR (line t) (col t) (start t) "")
                  (error_msg t) (fetch p)) as (Hsc & Hbuf & _ & Hpr).
    fold p2 in Hsc, Hbuf, Hpr.
    assert (Hl2 : tokens_left p2 = tokens_left (fetch p)).
    { unfold tokens_left. by rewrite Hsc, Hbuf. }
    destruct (IH p2) as (Hp & Hc); [lia|].
    split; [congruence|]. destruct Hc; [auto | right; lia].
  - split; [exact Hprev|].
    destruct Hleft as [(_ & _ & Heol) | Hs]; [auto | right; lia].
Qed.

Lemma advance_window (p : Parser) :
  previous (advance p) = current p /\
  (token_type (current (advance p)) = TokenType.EOL
   \/ (tokens_left (advance p) < tokens_left p)%nat).
Proof.
  unfold advance.
  destruct (advance_loop_window (tokens_left p) (set_previous (current p) p))
    as (Hp & Hc); [reflexivity|].
  split; [exact Hp | exact Hc].
Qed.








(** * Further properties of the interpreter *)

(** ** Arguments, variables and structs *)

Lemma get_args_length (stack : list value) (num_args : nat) :
  length (fst (get_args stack num_args)) = Nat.min num_args (length stack).
Proof.
  unfold get_args. destruct (Nat.eqb_spec num_args 0) as [->|Hn]; simpl.
  - reflexivity.
  - unfold py_last_n. rewrite length_drop. lia.
Qed.

(** [get_args] splits the stack: what is left followed by the arguments
    is the stack it was given, and the arguments are the last [num_args]
    values, or the whole stack if it is shorter; for no argument the stack
    is left whole. *)
Theorem get_args_splits_stack (stack : list value) (num_args : nat) :
  snd (get_args stack num_args) ++ fst (get_args stack num_args) = stack /\
  length (fst (get_args stack num_args)) = Nat.min num_args (length stack).
Proof.
  split; [|apply get_args_length].
  unfold get_args. destruct (Nat.eqb_spec num_args 0) as [->|Hn]; simpl.
  - apply app_nil_r.
  - unfold py_last_n, py_drop_last_n. apply take_drop.
Qed.

Lemma resolve_name_storable (fuel : nat) (vars : gmap string value) (v : value) :
  storable v = true -> resolve_name fuel vars v = Ok v.
Proof. intros Hv. destruct v; try discriminate Hv; by destruct fuel. Qed.

Lemma resolve_name_chain (vars : gmap string value) (v : value) :
  storable v = true ->
  forall (ids : list string) (id : string) (fuel : nat),
    alias_chain vars id ids v ->
    (length ids < fuel)%nat ->
    resolve_name fuel vars (VName id) = Ok v.
Proof.
  intros Hv ids. induction ids as [|id' ids IH]; intros id fuel Hc Hf.
  - destruct fuel as [|fuel]; [simpl in Hf; lia|]. simpl in *. rewrite Hc. simpl.
    by apply resolve_name_storable.
  - destruct fuel as [|fuel]; [simpl in Hf; lia|]. destruct Hc as [Hid Hc].
    simpl. rewrite Hid. simpl. apply IH; [exact Hc | simpl in Hf; lia].
Qed.

Lemma pop_n_short (n : nat) : forall s : Interpreter,
  (length (stack s) < n)%nat -> pop_n n s = Raise IndexError.
Proof.
  induction n as [|n IH]; intros s Hn; [lia|]. simpl.
  destruct (stack s) as [|v st] eqn:Est using rev_ind.
  - unfold pop. rewrite Est. reflexivity.
  - clear IHst. replace s with (set_stack (st ++ [v]) s) by (destruct s; simpl in *; by subst).
    rewrite pop_set_stack. simpl. rewrite IH; [reflexivity|].
    simpl. rewrite length_app in Hn. simpl in Hn. lia.
Qed.

Section InterpreterEdges.
Variable node_types : string -> option NodeDecl.
Variable py_str : value -> string.

(** [CREATE_VAR x] then [GET_VAR x]: the value on top of the stack, a
    port, a struct or an integer, is bound to [x] and read back; the
    stack is the one before, the other variables keep their values. *)
Theorem create_var_get_var_roundtrip (fuel : nat) (x : string) (v : value)
    (rest : list value) (self : Interpreter) :
  storable v = true ->
  run node_types py_str fuel
    [Build_Operation CREATE_VAR (VStr x); Build_Operation GET_VAR (VStr x)]
    (set_stack (rest ++ [v]) self)
  = Ok (set_stack (rest ++ [v])
          (set_variables (<[x := v]> (variables self)) self)).
Proof.
  intros Hv. unfold run. simpl. unfold create_var. simpl.
  rewrite pop_set_stack. simpl. rewrite resolve_name_storable by exact Hv.
  simpl. destruct v; try discriminate Hv; simpl; rewrite lookup_insert_eq; reflexivity.
Qed.

(** [CREATE_VAR x] on a name follows the variables from name to name:
    when the chain of aliases ends in a port, a struct or an integer,
    that value is bound to [x] and the name is popped. *)
Theorem create_var_follows_aliases (fuel : nat) (x id : string)
    (ids : list string) (v : value) (rest : list value) (self : Interpreter) :
  storable v = true ->
  alias_chain (variables self) id ids v ->
  (length ids < fuel)%nat ->
  operation node_types py_str fuel (Build_Operation CREATE_VAR (VStr x))
    (set_stack (rest ++ [VName id]) self)
  = Ok (set_stack rest (set_variables (<[x := v]> (variables self)) self)).
Proof.
  intros Hv Hc Hf. simpl. unfold create_var. simpl.
  rewrite pop_set_stack. simpl.
  rewrite (resolve_name_chain _ v Hv ids id fuel Hc Hf). simpl.
  destruct v; try discriminate Hv; reflexivity.
Qed.

(** [GET_OUTPUT(index)] outside the struct raises [IndexError]; a
    negative index within the struct counts from the other end: index
    [-1] is the first element. *)
Theorem get_output_index_bounds (fuel : nat) (index : Z)
    (items rest : list value) (self : Interpreter) :
  (Z.of_nat (length items) <= index \/ index < - Z.of_nat (length items) ->
   operation node_types py_str fuel (Build_Operation GET_OUTPUT (VInt index))
     (set_stack (rest ++ [VList items]) self)
   = Raise IndexError) /\
  (- Z.of_nat (length items) <= index < 0 ->
   exists v : value,
     items !! Z.to_nat (- index - 1) = Some v /\
     operation node_types py_str fuel (Build_Operation GET_OUTPUT (VInt index))
       (set_stack (rest ++ [VList items]) self)
     = Ok (set_stack (rest ++ [v]) self)).
Proof.
  split; intros Hi; simpl; rewrite pop_set_stack; simpl; unfold py_index.
  - destruct Hi as [Hi | Hi].
    + replace (0 <=? - index - 1) with false by (symmetry; apply Z.leb_gt; lia).
      replace (- Z.of_nat (length items) <=? - index - 1) with false
        by (symmetry; apply Z.leb_gt; lia).
      reflexivity.
    + replace (- index - 1 <? Z.of_nat (length items)) with false
        by (symmetry; apply Z.ltb_ge; lia).
      replace (- index - 1 <? 0) with false by (symmetry; apply Z.ltb_ge; lia).
      rewrite !andb_false_r. reflexivity.
  - replace (0 <=? - index - 1) with true by (symmetry; apply Z.leb_le; lia).
    replace (- index - 1 <? Z.of_nat (length items)) with true
      by (symmetry; apply Z.ltb_lt; lia).
    simpl.
    destruct (lookup_lt_is_Some_2 items (Z.to_nat (- index - 1))) as [v Hv]; [lia|].
    exists v. split; [exact Hv|]. rewrite Hv. reflexivity.
Qed.

(** [PACK_LIST(count)] on a stack of fewer than [count] values raises
    [IndexError]; for a count of zero or less it pushes the empty list. *)
Theorem pack_list_count_bounds (fuel : nat) (count : Z) (self : Interpreter) :
  (Z.of_nat (length (stack self)) < count ->
   operation node_types py_str fuel (Build_Operation PACK_LIST (VInt count)) self
   = Raise IndexError) /\
  (count <= 0 ->
   operation node_types py_str fuel (Build_Operation PACK_LIST (VInt count)) self
   = Ok (push (VList []) self)).
Proof.
  split; intros Hc; simpl.
  - rewrite pop_n_short by lia. reflexivity.
  - replace (Z.to_nat count) with 0%nat by lia. reflexivity.
Qed.
End InterpreterEdges.

(** ** Calls *)

Lemma rev_lookup {A : Type} (l : list A) (i : nat) :
  (i < length l)%nat -> rev l !! i = l !! (length l - S i)%nat.
Proof. intros Hi. rewrite rev_alt. by apply (reverse_lookup l i). Qed.

Lemma output_sockets_Ok (b : Backend) (n : nat) : forall (os l : list value),
  output_sockets b n os = Ok l ->
  length l = length os /\
  forall i o, os !! i = Some o ->
    exists p, socket_at (node_outputs b n) o = Ok p /\
              l !! i = Some (VSocket (Build_NodeSocket n true p)).
Proof.
  induction os as [|o os IH]; simpl; intros l H.
  - simplify_eq. split; [reflexivity|]. intros i o Hi. discriminate Hi.
  - ok_step H. ok_step H. simplify_eq.
    destruct (IH _ Hstep0) as (Hlen & Hall). split; [simpl; lia|].
    intros [|i] o' Hi; simpl in *.
    + simplify_eq. eauto.
    + apply Hall. exact Hi.
Qed.

Lemma socket_at_returns (ds : list SocketDecl) (k : value) :
  socket_at ds k <> Diverge.
Proof. unfold socket_at. repeat case_match; discriminate. Qed.

Lemma link_geo_inputs_returns (py_str : value -> string) (dst : result nat)
    (n : nat) (l : list value) : forall s : Interpreter,
  dst <> Diverge -> link_geo_inputs py_str dst n l s <> Diverge.
Proof.
  induction l as [|g l IH]; simpl; intros s Hd; [discriminate|].
  unfold link_geo_input.
  destruct (get_output_socket py_str (socket_table s) _); simpl;
    try (by apply IH).
  destruct dst; simpl; try congruence. by apply IH.
Qed.

Lemma connect_arg_returns (py_str : value -> string) (n : nat)
    (args : list value) (i : nat) (input_index : value) (s : Interpreter) :
  connect_arg py_str n args i input_index s <> Diverge.
Proof.
  unfold connect_arg.
  destruct (args !! i) as [arg|]; [|discriminate].
  pose proof (socket_at_returns (node_inputs (bpy s) n) input_index) as Hs.
  destruct arg; try (destruct (socket_at _ input_index); simpl;
                     repeat case_match; congruence).
  destruct (String.eqb _ _).
  - apply link_geo_inputs_returns, socket_at_returns.
  - destruct (socket_at _ input_index) as [p| |]; simpl; try congruence.
    repeat case_match; try discriminate.
    by apply link_geo_inputs_returns.
Qed.

Lemma connect_args_raises (py_str : value -> string) (n : nat) (args : list value) :
  forall (inputs : list value) (i : nat) (s : Interpreter),
    (i <= length args < i + length inputs)%nat ->
    exists e, connect_args py_str n args i inputs s = Raise e.
Proof.
  induction inputs as [|input_index inputs IH]; simpl; intros i s Hlen; [lia|].
  destruct (connect_arg py_str n args i input_index s) as [s1|e|] eqn:E; simpl.
  - unfold connect_arg in E.
    destruct (args !! i) as [arg|] eqn:Ei; [|discriminate E].
    apply lookup_lt_Some in Ei. apply IH. lia.
  - by eexists.
  - by apply connect_arg_returns in E.
Qed.

Section InterpreterCalls.
Variable node_types : string -> option NodeDecl.
Variable py_str : value -> string.

(** A [CALL_BUILTIN] with several outputs pushes them as one struct in
    reversed order, which is the order [GET_OUTPUT] reads back: after the
    call, [GET_OUTPUT(i)] replaces the struct by the port
    [node.outputs[outputs[i]]] of the node just added. *)
Theorem call_builtin_outputs_by_position (fuel : nat) (ni : NodeInstance)
    (i : nat) (s s1 : Interpreter) :
  (2 <= length (ni_outputs ni))%nat ->
  (i < length (ni_outputs ni))%nat ->
  operation node_types py_str fuel
    (Build_Operation CALL_BUILTIN (VNodeInstance ni)) s = Ok s1 ->
  exists (node : nat) (o : value) (p : nat),
    nodes s1 = nodes s ++ [node] /\
    ni_outputs ni !! i = Some o /\
    socket_at (node_outputs (bpy s1) node) o = Ok p /\
    operation node_types py_str fuel
      (Build_Operation GET_OUTPUT (VInt (Z.of_nat i))) s1
    = Ok (set_stack
            (snd (get_args (stack s) (length (ni_inputs ni)))
             ++ [VSocket (Build_NodeSocket node true p)]) s1).
Proof.
  intros Hk Hi H. simpl in H. unfold call_builtin in H.
  destruct (get_args (stack s) (length (ni_inputs ni))) as [args st] eqn:Ea.
  ok_step H. destruct a as [node s2]. ok_step H. simplify_eq.
  apply add_builtin_gframe in Hstep as (_ & _ & Hst & _ & Hn & _).
  simpl in Hst, Hn.
  destruct (ni_outputs ni) as [|o1 [|o2 os]] eqn:Eo; simpl in Hk; try lia.
  ok_step Hstep0. simplify_eq. rename a0 into l.
  apply output_sockets_Ok in Hstep as (Hlen & Hall).
  rewrite length_rev in Hlen.
  destruct (lookup_lt_is_Some_2 (o1 :: o2 :: os) i Hi) as [o Ho].
  destruct (Hall (length (o1 :: o2 :: os) - 1 - i)%nat o) as (p & Hp & Hl).
  { rewrite rev_lookup by lia. rewrite <- Ho. f_equal. lia. }
  exists node, o, p. simpl. rewrite Hn.
  split; [reflexivity|]. split; [exact Ho|]. split; [exact Hp|].
  replace (pop (set_nodes (nodes s ++ [node]) (push (VList l) s2)))
    with (Ok (VList l, set_stack (stack s2)
                         (set_nodes (nodes s ++ [node]) (push (VList l) s2)))
          : result (value * Interpreter))
    by (unfold pop, push; simpl; by rewrite py_pop_app).
  simpl. rewrite py_index_from_end by lia.
  replace (Z.to_nat (Z.of_nat (length l) - 1 - Z.of_nat i))
    with (length (o1 :: o2 :: os) - 1 - i)%nat by (rewrite Hlen; lia).
  rewrite Hl. reflexivity.
Qed.

(** A [CALL_BUILTIN] whose stack holds fewer values than the node has
    inputs raises: [get_args] hands over what there is, and [args[i]]
    raises [IndexError] for the first missing argument, if nothing raised
    before. *)
Theorem call_builtin_missing_arguments (fuel : nat) (ni : NodeInstance)
    (s : Interpreter) :
  (length (stack s) < length (ni_inputs ni))%nat ->
  exists e : exn,
    operation node_types py_str fuel
      (Build_Operation CALL_BUILTIN (VNodeInstance ni)) s = Raise e.
Proof.
  intros Hlen. simpl. unfold call_builtin.
  pose proof (get_args_length (stack s) (length (ni_inputs ni))) as Hargs.
  destruct (get_args (stack s) (length (ni_inputs ni))) as [args st] eqn:Ea.
  simpl in Hargs. unfold add_builtin.
  destruct (node_types (ni_key ni)); [|by eexists].
  unfold nodes_new. cbv beta iota zeta.
  match goal with
  | |- context [connect_args py_str ?n args 0 ?ins ?x] =>
      destruct (connect_args_raises py_str n args ins 0%nat x) as [e ->]; [lia|]
  end.
  by eexists.
Qed.
End InterpreterCalls.

(** ** The added nodes and the port table *)

Lemma grows_refl (py_str : value -> string) (s : Interpreter) : grows py_str s s.
Proof. split; [exists []; by rewrite app_nil_r | split; auto]. Qed.

Lemma grows_trans (py_str : value -> string) (s1 s2 s3 : Interpreter) :
  grows py_str s1 s2 -> grows py_str s2 s3 -> grows py_str s1 s3.
Proof.
  intros ((n1 & H1) & K1 & T1) ((n2 & H2) & K2 & T2). split; [|split; auto].
  exists (n1 ++ n2). by rewrite H2, H1, app_assoc.
Qed.

(** [grows] looks at the added nodes and at the port table only. *)
Lemma grows_same_r (py_str : value -> string) (s s2 s3 : Interpreter) :
  grows py_str s s2 -> nodes s3 = nodes s2 -> socket_table s3 = socket_table s2 ->
  grows py_str s s3.
Proof.
  unfold grows, table_by_str. intros (Hn & Hk & Ht) -> ->. auto.
Qed.

Lemma grows_same_l (py_str : value -> string) (s s1 s2 : Interpreter) :
  grows py_str s1 s2 -> nodes s1 = nodes s -> socket_table s1 = socket_table s ->
  grows py_str s s2.
Proof.
  unfold grows, table_by_str. intros (Hn & Hk & Ht) <- <-. auto.
Qed.

Lemma grows_local (py_str : value -> string) (s s' : Interpreter) :
  nodes s' = nodes s -> socket_table s' = socket_table s -> grows py_str s s'.
Proof. intros Hn Ht. eapply grows_same_r; [apply grows_refl | |]; auto. Qed.

Lemma wiring_grows (py_str : value -> string) (s s' : Interpreter) :
  wiring s s' -> grows py_str s s'.
Proof. intros (evs & _ & ->). by apply grows_local. Qed.

Lemma grows_node (py_str : value -> string) (s s' : Interpreter) (n : nat) :
  nodes s' = nodes s ++ [n] -> socket_table s' = socket_table s ->
  grows py_str s s'.
Proof.
  intros Hn Ht. unfold grows, table_by_str. rewrite Ht. split; [eauto | auto].
Qed.

Lemma grows_register (py_str : value -> string) (s s' : Interpreter) (n : nat)
    (sk : NodeSocket) :
  nodes s' = nodes s ++ [n] ->
  socket_table s' = <[py_str (VSocket sk) := sk]> (socket_table s) ->
  grows py_str s s'.
Proof.
  intros Hn Ht. unfold grows, table_by_str. rewrite Ht.
  split; [eauto|]. split.
  - intros k Hk. destruct (decide (py_str (VSocket sk) = k)) as [<-|Hne].
    + rewrite lookup_insert_eq. eauto.
    + by rewrite lookup_insert_ne.
  - intros Hok k sk'. destruct (decide (py_str (VSocket sk) = k)) as [<-|Hne].
    + rewrite lookup_insert_eq. intros E. by simplify_eq.
    + rewrite lookup_insert_ne by exact Hne. apply Hok.
Qed.

Lemma run_with_grows (py_str : value -> string)
    (exec : Operation -> Interpreter -> result Interpreter) (ops : list Operation) :
  Forall (fun o => forall s s', exec o s = Ok s' -> grows py_str s s') ops ->
  forall s s', run_with exec ops s = Ok s' -> grows py_str s s'.
Proof.
  induction 1 as [|o ops Ho _ IH]; simpl; intros s s' H.
  - simplify_eq. apply grows_refl.
  - ok_step H. eapply grows_trans; [eapply Ho | eapply IH]; eauto.
Qed.

Section Grows.
Variable node_types : string -> option NodeDecl.
Variable py_str : value -> string.

Lemma add_builtin_local node_info args s n s' :
  add_builtin node_types py_str node_info args s = Ok (n, s') ->
  n = length (bnodes (bpy s)) /\
  nodes s' = nodes s /\ socket_table s' = socket_table s /\ stack s' = stack s.
Proof.
  unfold add_builtin. intros H.
  destruct (node_types _) as [d|]; [|discriminate H].
  unfold nodes_new in H. cbv beta iota zeta in H.
  ok_step H. simplify_eq.
  apply connect_args_wiring in Hstep as (evs & _ & ->). auto.
Qed.

Lemma call_builtin_grows node_info s s' :
  call_builtin node_types py_str node_info s = Ok s' ->
  grows py_str s s' /\ nodes s' = nodes s ++ [length (bnodes (bpy s))].
Proof.
  unfold call_builtin. intros H.
  destruct (get_args _ _) as [args st].
  ok_step H. destruct a as [node s1]. ok_step H. simplify_eq.
  apply add_builtin_local in Hstep as (-> & Hn & Ht & _). simpl in *.
  destruct (ni_outputs node_info) as [|o [|o' os]]; simplify_eq.
  - split; [|simpl; by rewrite Hn].
    eapply grows_node; simpl; [by rewrite Hn | exact Ht].
  - ok_step Hstep0. simplify_eq. simpl. split; [|by rewrite Hn].
    eapply grows_register; simpl; [by rewrite Hn | by rewrite Ht].
  - ok_step Hstep0. simplify_eq. simpl. split; [|by rewrite Hn].
    eapply grows_node; simpl; [by rewrite Hn | exact Ht].
Qed.

Lemma call_function_grows exec f s s' :
  (forall s1 s2, exec s1 = Ok s2 -> grows py_str s1 s2) ->
  call_function exec f s = Ok s' -> grows py_str s s'.
Proof.
  intros Hexec. unfold call_function. intros H.
  destruct (get_args _ _) as [args st]. simpl in *.
  ok_step H. ok_step H. simplify_eq.
  apply Hexec in Hstep.
  apply push_function_outputs_Ok in Hstep0 as (out & -> & _ & _).
  eapply grows_same_r; [eapply grows_same_l; [exact Hstep | |] | |]; reflexivity.
Qed.

Lemma build_node_group_grows exec g s t s' :
  (forall s1 s2, exec s1 = Ok s2 -> grows py_str s1 s2) ->
  build_node_group exec g s = Ok (t, s') -> grows py_str s s'.
Proof.
  intros Hexec H. unfold build_node_group in H.
  ok_step H. destruct a as [[[t' gi] go] b].
  ok_step H. ok_step H. simplify_eq.
  apply Hexec in Hstep0.
  apply connect_group_outputs_wiring in Hstep1 as (e2 & _ & ->).
  eapply grows_same_r; [eapply grows_same_l; [exact Hstep0 | |] | |]; reflexivity.
Qed.

Lemma execute_node_group_grows exec g args s s' :
  (forall s1 s2, exec s1 = Ok s2 -> grows py_str s1 s2) ->
  execute_node_group exec g args s = Ok s' -> grows py_str s s'.
Proof.
  intros Hexec. unfold execute_node_group. intros H.
  destruct (node_group_trees s !! ng_name g) as [t|].
  - apply instantiate_group_Ok in H as (_ & _ & _ & _ & _ & Hn & _ & _ & _ & _ & Ht).
    eapply grows_node; eauto.
  - ok_step H. destruct a as [t s1].
    apply build_node_group_grows in Hstep; [|exact Hexec].
    apply instantiate_group_Ok in H as (_ & _ & _ & _ & _ & Hn & _ & _ & _ & _ & Ht).
    eapply grows_trans; [exact Hstep | eapply grows_node; eauto].
Qed.

Lemma operation_grows (fuel : nat) : forall (op : Operation) (s s' : Interpreter),
  operation node_types py_str fuel op s = Ok s' -> grows py_str s s'.
Proof.
  intros op. induction op as [t d IHf IHg] using Operation_body_ind.
  intros s s' H.
  destruct d;
    try (simpl in H; rewrite eval_elements_pure in H; simpl in H; simplify_eq;
         by apply grows_local).
  all: destruct t; simpl in H; try discriminate H.
  all: try (simplify_eq; by apply grows_local).
  all: try (eapply call_builtin_grows; eassumption).
  all: try (eapply call_function_grows; [|eassumption];
            eapply run_with_grows; eapply Forall_impl; [eapply IHf; reflexivity|];
            simpl; intros o Ho; exact Ho).
  all: try (destruct (get_args _ _) as [args st];
            eapply execute_node_group_grows in H;
            [eapply grows_same_l; [exact H | |]; reflexivity|];
            eapply run_with_grows; eapply Forall_impl; [eapply IHg; reflexivity|];
            simpl; intros o Ho; exact Ho).
  all: try (unfold create_var in H).
  all: frame_branch H.
  all: first [ by apply grows_local
             | by (apply grows_local; simpl; auto)
             | by (apply wiring_grows; auto with interp) ].
Qed.

Lemma run_grows (fuel : nat) (ops : list Operation) (s s' : Interpreter) :
  run node_types py_str fuel ops s = Ok s' -> grows py_str s s'.
Proof.
  apply run_with_grows. apply Forall_forall. intros o _. apply operation_grows.
Qed.
End Grows.

Section InterpreterFrames.
Variable node_types : string -> option NodeDecl.
Variable py_str : value -> string.

(** Whatever an operation stream does when it returns, the current tree
    is the one before and there are as many output slots; an inner graph
    that was cached is still cached under its name; the nodes added
    before are still listed, in the same order, before the new ones; and
    the backend calls logged before are still there, followed by the new
    ones. *)
Theorem run_keeps_tree_cache_and_nodes (fuel : nat) (ops : list Operation)
    (s s' : Interpreter) :
  run node_types py_str fuel ops s = Ok s' ->
  tree s' = tree s /\
  length (function_outputs s') = length (function_outputs s) /\
  (forall n t, node_group_trees s !! n = Some t ->
               node_group_trees s' !! n = Some t) /\
  (exists ns, nodes s' = nodes s ++ ns) /\
  (exists evs, events (bpy s') = events (bpy s) ++ evs).
Proof.
  intros H.
  pose proof (run_frame _ _ _ _ _ _ H) as (Ht & Hf & Hc & _ & evs & Hev & _).
  pose proof (run_grows _ _ _ _ _ _ H) as (Hn & _).
  repeat split; eauto.
Qed.

(** The port table only gains keys, and every entry stays stored under
    the text of its port: if that holds before an operation stream runs,
    it holds when the stream returns. *)
Theorem run_keeps_port_table (fuel : nat) (ops : list Operation)
    (s s' : Interpreter) :
  table_by_str py_str s ->
  run node_types py_str fuel ops s = Ok s' ->
  table_by_str py_str s' /\
  forall k, is_Some (socket_table s !! k) -> is_Some (socket_table s' !! k).
Proof.
  intros Hok H. pose proof (run_grows _ _ _ _ _ _ H) as (_ & Hk & Ht). auto.
Qed.

(** When a [CALL_NODEGROUP] operation returns, the variables, the output
    slots and the current tree of the caller are what they were before
    the call, the name of the group is cached, and the stack is the one
    before the call with the arguments popped and the output ports of the
    new reference node pushed: as many as the cached inner graph
    declares, which on first use is what the descriptor declares. The
    reference node is the last of the added nodes, after those the body
    added. *)
Theorem call_nodegroup_restores_frame (fuel : nat) (g : CompiledNodeGroup)
    (base args : list value) (s s' : Interpreter) :
  stack s = base ++ args ->
  length args = length (ng_inputs g) ->
  operation node_types py_str fuel
    (Build_Operation CALL_NODEGROUP (VNodeGroup g)) s = Ok s' ->
  variables s' = variables s /\
  function_outputs s' = function_outputs s /\
  tree s' = tree s /\
  exists (t node : nat) (inner : list nat),
    node_group_trees s' !! ng_name g = Some t /\
    (node_group_trees s !! ng_name g = None ->
     tree_num_outputs (bpy s') t = length (ng_outputs g)) /\
    nodes s' = nodes s ++ inner ++ [node] /\
    stack s' = base ++ group_node_outputs node (tree_num_outputs (bpy s') t).
Proof.
  intros Hst Hlen H. simpl in H.
  rewrite Hst, <- Hlen, get_args_app in H.
  unfold execute_node_group in H. simpl in H.
  destruct (node_group_trees s !! ng_name g) as [t|] eqn:Hc.
  - apply instantiate_group_Ok in H
      as (evs & _ & _ & Htr & Hstack & Hn & Ht & Hv & Hf & Hg & _).
    simpl in *. repeat split; auto.
    exists t, (length (bnodes (bpy s))), []. simpl.
    unfold tree_num_outputs in *. rewrite Htr.
    split; [by rewrite Hg|]. split; [discriminate|]. split; [exact Hn | exact Hstack].
  - ok_step H. destruct a as [t s1].
    pose proof Hstep as Hbuild.
    apply build_node_group_Ok in Hstep
      as (Ht1 & Hst1 & Hv1 & Hf1 & Hin & Hnum & _);
      [|intros s2 s3; apply run_frame|exact Hc].
    apply (build_node_group_grows py_str) in Hbuild as ((inner & Hinner) & _);
      [|intros s2 s3; apply run_grows].
    apply instantiate_group_Ok in H
      as (evs & _ & _ & Htr & Hstack & Hn & Ht & Hv & Hf & Hg & _).
    simpl in *.
    split; [congruence|]. split; [congruence|]. split; [congruence|].
    exists t, (length (bnodes (bpy s1))), inner.
    unfold tree_num_outputs in *. rewrite Htr.
    split; [by rewrite Hg|]. split; [intros _; exact Hnum|].
    split; [by rewrite Hn, Hinner, app_assoc|].
    by rewrite Hstack, Hst1.
Qed.

(** A function that declares outputs and whose body returns with one of
    its output slots not set to a port makes [CALL_FUNCTION] fail its
    assertion on the outputs. *)
Theorem call_function_unset_output_asserts (fuel : nat) (f : CompiledFunction)
    (s s1 : Interpreter) :
  run node_types py_str fuel (fn_body f) (function_entry f s) = Ok s1 ->
  forallb is_socket (function_outputs s1) = false ->
  operation node_types py_str fuel
    (Build_Operation CALL_FUNCTION (VFunction f)) s
  = Raise (AssertionError "").
Proof.
  intros Hrun Hno. simpl. unfold call_function.
  unfold function_entry, run in Hrun.
  destruct (get_args (stack s) (length (fn_inputs f))) as [args st].
  simpl in *. rewrite Hrun. simpl.
  unfold push_function_outputs.
  destruct (function_outputs s1) as [|o [|o' fo]] eqn:Efo.
  - discriminate Hno.
  - simpl in Hno. rewrite andb_true_r in Hno. by rewrite Hno.
  - rewrite Hno. reflexivity.
Qed.

(** [RENAME_NODE] labels the node added last: right after a
    [CALL_BUILTIN] that is the node the call created. *)
Theorem rename_node_labels_last_added (fuel : nat) (label : value)
    (ni : NodeInstance) (s s1 : Interpreter) :
  is_list_literal label = false ->
  operation node_types py_str fuel
    (Build_Operation CALL_BUILTIN (VNodeInstance ni)) s = Ok s1 ->
  operation node_types py_str fuel (Build_Operation RENAME_NODE label) s1
  = Ok (set_bpy (log (EvSetLabel (length (bnodes (bpy s))) label) (bpy s1)) s1).
Proof.
  intros Hl H. simpl in H.
  apply call_builtin_grows in H as (_ & Hn).
  assert (py_index (nodes s1) (-1) = Some (length (bnodes (bpy s)))) as Hlast.
  { rewrite Hn. unfold py_index. rewrite length_app. simpl.
    replace (- Z.of_nat (length (nodes s) + 1) <=? -1) with true
      by (symmetry; apply Z.leb_le; lia).
    simpl.
    replace (Z.to_nat (Z.of_nat (length (nodes s) + 1) + -1))
      with (length (nodes s)) by lia.
    by rewrite lookup_app_r, Nat.sub_diag by lia. }
  destruct label; try discriminate Hl; simpl; rewrite Hlast; reflexivity.
Qed.
End InterpreterFrames.

(** ** The properties above on the examples *)

Lemma create_var_get_var_roundtrip_witness :
  run demo_node_types demo_str 0
    [Build_Operation CREATE_VAR (VStr "x"); Build_Operation GET_VAR (VStr "x")]
    (set_stack ([VInt 1] ++ [VInt 2]) demo_interpreter)
  = Ok (set_stack ([VInt 1] ++ [VInt 2])
          (set_variables (<["x" := VInt 2]> (variables demo_interpreter))
             demo_interpreter)).
Proof.
  apply (create_var_get_var_roundtrip demo_node_types demo_str 0 "x" (VInt 2)
           [VInt 1] demo_interpreter).
  reflexivity.
Defined.

Lemma create_var_follows_aliases_witness :
  operation demo_node_types demo_str 2 (Build_Operation CREATE_VAR (VStr "x"))
    (set_stack ([] ++ [VName "a"]) demo_aliases)
  = Ok (set_stack []
          (set_variables
             (<["x" := VSocket (Build_NodeSocket 7 true 0)]> (variables demo_aliases))
             demo_aliases)).
Proof.
  apply (create_var_follows_aliases demo_node_types demo_str 2 "x" "a" ["b"]
           (VSocket (Build_NodeSocket 7 true 0)) [] demo_aliases).
  - reflexivity.
  - split; vm_compute; reflexivity.
  - simpl. lia.
Defined.

Lemma get_output_index_bounds_witness :
  operation demo_node_types demo_str 0 (Build_Operation GET_OUTPUT (VInt 2))
    (set_stack ([] ++ [VList [VInt 10; VInt 20]]) demo_interpreter)
  = Raise IndexError /\
  exists v : value,
    [VInt 10; VInt 20] !! Z.to_nat (- (-1) - 1) = Some v /\
    operation demo_node_types demo_str 0 (Build_Operation GET_OUTPUT (VInt (-1)))
      (set_stack ([] ++ [VList [VInt 10; VInt 20]]) demo_interpreter)
    = Ok (set_stack ([] ++ [v]) demo_interpreter).
Proof.
  split.
  - apply (proj1 (get_output_index_bounds demo_node_types demo_str 0 2
                    [VInt 10; VInt 20] [] demo_interpreter)).
    left. simpl. lia.
  - apply (proj2 (get_output_index_bounds demo_node_types demo_str 0 (-1)
                    [VInt 10; VInt 20] [] demo_interpreter)).
    simpl. lia.
Defined.

Lemma pack_list_count_bounds_witness :
  operation demo_node_types demo_str 0 (Build_Operation PACK_LIST (VInt 1))
    demo_interpreter
  = Raise IndexError /\
  operation demo_node_types demo_str 0 (Build_Operation PACK_LIST (VInt (-3)))
    demo_interpreter
  = Ok (push (VList []) demo_interpreter).
Proof.
  split.
  - apply (proj1 (pack_list_count_bounds demo_node_types demo_str 0 1
                    demo_interpreter)).
    simpl. lia.
  - apply (proj2 (pack_list_count_bounds demo_node_types demo_str 0 (-3)
                    demo_interpreter)).
    lia.
Defined.

Lemma call_builtin_outputs_by_position_witness :
  exists s1 : Interpreter,
    operation demo_two_outputs demo_str 0
      (Build_Operation CALL_BUILTIN (VNodeInstance demo_separate))
      (set_stack [VInt 5] demo_interpreter)
    = Ok s1 /\
    exists (node : nat) (o : value) (p : nat),
      nodes s1 = nodes (set_stack [VInt 5] demo_interpreter) ++ [node] /\
      ni_outputs demo_separate !! 0%nat = Some o /\
      socket_at (node_outputs (bpy s1) node) o = Ok p /\
      operation demo_two_outputs demo_str 0
        (Build_Operation GET_OUTPUT (VInt (Z.of_nat 0))) s1
      = Ok (set_stack
              (snd (get_args (stack (set_stack [VInt 5] demo_interpreter))
                      (length (ni_inputs demo_separate)))
               ++ [VSocket (Build_NodeSocket node true p)]) s1).
Proof.
  eexists. split; [vm_compute; reflexivity|].
  apply (call_builtin_outputs_by_position demo_two_outputs demo_str 0
           demo_separate 0 (set_stack [VInt 5] demo_interpreter)).
  - simpl. lia.
  - simpl. lia.
  - vm_compute. reflexivity.
Defined.

Lemma call_builtin_missing_arguments_witness :
  exists e : exn,
    operation demo_two_outputs demo_str 0
      (Build_Operation CALL_BUILTIN (VNodeInstance demo_separate)) demo_interpreter
    = Raise e.
Proof.
  apply (call_builtin_missing_arguments demo_two_outputs demo_str 0 demo_separate
           demo_interpreter).
  simpl. lia.
Defined.

Lemma run_keeps_tree_cache_and_nodes_witness :
  exists s' : Interpreter,
    run demo_node_types demo_str 0
      [Build_Operation CALL_NODEGROUP (VNodeGroup demo_group_one_output);
       Build_Operation END_OF_STATEMENT VNone] demo_interpreter
    = Ok s' /\
    tree s' = tree demo_interpreter /\
    length (function_outputs s') = length (function_outputs demo_interpreter) /\
    (forall n t, node_group_trees demo_interpreter !! n = Some t ->
                 node_group_trees s' !! n = Some t) /\
    (exists ns, nodes s' = nodes demo_interpreter ++ ns) /\
    (exists evs, events (bpy s') = events (bpy demo_interpreter) ++ evs).
Proof.
  eexists. split; [vm_compute; reflexivity|].
  apply (run_keeps_tree_cache_and_nodes demo_node_types demo_str 0
           [Build_Operation CALL_NODEGROUP (VNodeGroup demo_group_one_output);
            Build_Operation END_OF_STATEMENT VNone] demo_interpreter).
  vm_compute. reflexivity.
Defined.

Lemma run_keeps_port_table_witness :
  exists s' : Interpreter,
    run demo_two_outputs demo_str 0
      [Build_Operation CALL_BUILTIN
         (VNodeInstance (Build_NodeInstance "ShaderNodeMath" [] [VInt 0] []))]
      demo_interpreter
    = Ok s' /\
    table_by_str demo_str s' /\
    forall k, is_Some (socket_table demo_interpreter !! k) ->
              is_Some (socket_table s' !! k).
Proof.
  eexists. split; [vm_compute; reflexivity|].
  apply (run_keeps_port_table demo_two_outputs demo_str 0
           [Build_Operation CALL_BUILTIN
              (VNodeInstance (Build_NodeInstance "ShaderNodeMath" [] [VInt 0] []))]
           demo_interpreter).
  - intros k sk Hk. vm_compute in Hk. discriminate Hk.
  - vm_compute. reflexivity.
Defined.

Lemma call_nodegroup_restores_frame_witness :
  exists s' : Interpreter,
    operation demo_node_types demo_str 0
      (Build_Operation CALL_NODEGROUP (VNodeGroup demo_group_one_output))
      demo_caller
    = Ok s' /\
    variables s' = variables demo_caller /\
    function_outputs s' = function_outputs demo_caller /\
    tree s' = tree demo_caller /\
    exists (t node : nat) (inner : list nat),
      node_group_trees s' !! ng_name demo_group_one_output = Some t /\
      (node_group_trees demo_caller !! ng_name demo_group_one_output = None ->
       tree_num_outputs (bpy s') t = length (ng_outputs demo_group_one_output)) /\
      nodes s' = nodes demo_caller ++ inner ++ [node] /\
      stack s' = [VSocket (Build_NodeSocket 8 true 0)]
                 ++ group_node_outputs node (tree_num_outputs (bpy s') t).
Proof.
  eexists. split; [vm_compute; reflexivity|].
  apply (call_nodegroup_restores_frame demo_node_types demo_str 0
           demo_group_one_output [VSocket (Build_NodeSocket 8 true 0)] []
           demo_caller).
  - reflexivity.
  - reflexivity.
  - vm_compute. reflexivity.
Defined.

Lemma call_function_unset_output_asserts_witness :
  operation demo_node_types demo_str 0
    (Build_Operation CALL_FUNCTION (VFunction demo_function_without_return))
    demo_interpreter
  = Raise (AssertionError "").
Proof.
  apply (call_function_unset_output_asserts demo_node_types demo_str 0
           demo_function_without_return demo_interpreter
           (function_entry demo_function_without_return demo_interpreter)).
  - reflexivity.
  - reflexivity.
Defined.

Lemma rename_node_labels_last_added_witness :
  exists s1 : Interpreter,
    operation demo_node_types demo_str 0
      (Build_Operation CALL_BUILTIN
         (VNodeInstance (Build_NodeInstance "ShaderNodeMath" [] [] [])))
      demo_interpreter
    = Ok s1 /\
    operation demo_node_types demo_str 0
      (Build_Operation RENAME_NODE (VStr "sum")) s1
    = Ok (set_bpy (log (EvSetLabel (length (bnodes (bpy demo_interpreter)))
                          (VStr "sum")) (bpy s1)) s1).
Proof.
  eexists. split; [vm_compute; reflexivity|].
  apply (rename_node_labels_last_added demo_node_types demo_str 0 (VStr "sum")
           (Build_NodeInstance "ShaderNodeMath" [] [] []) demo_interpreter).
  - reflexivity.
  - vm_compute. reflexivity.
Defined.

(** * Further properties of the parser *)

(** ** The token window *)

Lemma advance_loop_not_error (n : nat) : forall p : Parser,
  (tokens_left p <= n)%nat ->
  TokenType.eqb (token_type (current (advance_loop n p))) TokenType.ERROR = false.
Proof.
  induction n as [|n IH]; intros p Hn; simpl;
    destruct (fetch_window p) as (_ & Hleft);
    destruct (TokenType.eqb (token_type (current (fetch p))) TokenType.ERROR) eqn:E;
    try exact E.
  - destruct Hleft as [(_ & _ & Heol) | Hs]; [|lia].
    rewrite Heol in E. discriminate E.
  - destruct Hleft as [(_ & _ & Heol) | Hs];
      [rewrite Heol in E; discriminate E|].
    apply IH.
    set (t := current (fetch p)).
    pose proof (error_at_window
                  (Build_Token (lexeme t) TokenType.ERROR (line t) (col t) (start t) "")
                  (error_msg t) (fetch p)) as (Hsc & Hbuf & _).
    unfold tokens_left in *. rewrite Hsc, Hbuf. lia.
Qed.

(** After [advance] the previous token is the token that was current,
    and the current token is never a scanner error: error tokens are
    skipped, at most one of them reported. *)
Theorem advance_skips_error_tokens (p : Parser) :
  previous (advance p) = current p /\
  TokenType.eqb (token_type (current (advance p))) TokenType.ERROR = false /\
  panic_step p (advance p).
Proof.
  split; [apply advance_window|]. split.
  - unfold advance. apply advance_loop_not_error. reflexivity.
  - apply advance_ps, panic_step_refl.
Qed.

(** ** Tokens handed back to the parser *)

Lemma advance_buffered (sc : Scanner) (buf : list Token) (t cur prev : Token)
    (he pm : bool) (node : option ast_defs.stmt) (es : list Error) :
  TokenType.eqb (token_type t) TokenType.ERROR = false ->
  advance (Build_Parser sc (buf ++ [t]) cur prev he pm node es)
  = Build_Parser sc buf t cur he pm node es.
Proof.
  intros Ht. unfold advance. generalize (tokens_left
    (Build_Parser sc (buf ++ [t]) cur prev he pm node es)). intros n.
  destruct n; simpl; unfold fetch; simpl; rewrite py_pop_app; simpl;
    rewrite Ht; reflexivity.
Qed.

Lemma last_cons {A : Type} (l : list A) : forall r d : A,
  List.last (r :: l) d = List.last l r.
Proof.
  induction l as [|x xs IH]; intros r d; [reflexivity|].
  change (List.last (r :: x :: xs) d) with (List.last (x :: xs) d).
  by rewrite !IH.
Qed.

Lemma advance_n_buffered (sc : Scanner) (buf : list Token) (he pm : bool)
    (node : option ast_defs.stmt) (es : list Error) :
  forall (k : nat) (rest : list Token) (first prev : Token),
    error_free rest = true ->
    (k <= length rest)%nat ->
    exists t prev',
      (first :: rest) !! k = Some t /\
      advance_n k (Build_Parser sc (buf ++ rev rest) first prev he pm node es)
      = Build_Parser sc (buf ++ rev (drop k rest)) t prev' he pm node es.
Proof.
  induction k as [|k IH]; intros rest first prev Hfree Hk.
  - exists first, prev. split; reflexivity.
  - destruct rest as [|r rest]; [simpl in Hk; lia|].
    simpl in Hfree. apply andb_true_iff in Hfree as [Hr Hfree].
    apply negb_true_iff in Hr.
    destruct (IH rest r first Hfree) as (t & prev' & Ht & Hadv);
      [simpl in Hk; lia|].
    exists t, prev'. split; [exact Ht|].
    cbn [advance_n rev]. rewrite app_assoc.
    rewrite advance_buffered by exact Hr. exact Hadv.
Qed.

(** [add_tokens] puts tokens in front of the input: the first becomes
    the current token, the calls of [advance] that follow hand out the
    others in order, and one more gives back the token that was current,
    the buffer and the scanner as they were. Nothing is reported on the
    way when no token is a scanner error. [add_tokens] of no token raises
    [IndexError]. *)
Theorem add_tokens_then_advance (first : Token) (rest : list Token) (p : Parser) :
  error_free rest = true ->
  TokenType.eqb (token_type (current p)) TokenType.ERROR = false ->
  add_tokens [] p = Raise IndexError /\
  exists p' : Parser,
    add_tokens (first :: rest) p = Ok p' /\
    (forall k, (k <= length rest)%nat ->
               (first :: rest) !! k = Some (current (advance_n k p'))) /\
    advance_n (S (length rest)) p' = set_previous (List.last rest first) p.
Proof.
  intros Hfree Hcur. split; [reflexivity|].
  eexists. split; [reflexivity|]. split.
  - intros k Hk.
    destruct (advance_n_buffered (scanner p) (token_buffer p ++ [current p])
                (had_error p) (panic_mode p) (curr_node p) (errors p)
                k rest first (previous p) Hfree Hk) as (t & prev' & Ht & ->).
    exact Ht.
  - destruct (advance_n_buffered (scanner p) (token_buffer p ++ [current p])
                (had_error p) (panic_mode p) (curr_node p) (errors p)
                (length rest) rest first (previous p) Hfree (Nat.le_refl _))
      as (t & prev' & Ht & Hadv).
    replace (S (length rest)) with (length rest + 1)%nat by lia.
    assert (Hsplit : forall a b q, advance_n (a + b) q = advance_n b (advance_n a q)).
    { induction a as [|a IHa]; intros b q; simpl; [reflexivity | apply IHa]. }
    rewrite Hsplit, Hadv. rewrite drop_all. simpl. rewrite app_nil_r.
    rewrite advance_buffered by exact Hcur.
    assert (t = List.last rest first) as ->.
    { clear -Ht. revert first Ht. induction rest as [|r rest IHr]; intros first Ht.
      - simpl in Ht. by simplify_eq.
      - simpl length in Ht. change ((first :: r :: rest) !! S (length rest))
          with ((r :: rest) !! length rest) in Ht.
        rewrite (IHr r Ht). symmetry. apply last_cons. }
    unfold set_previous. reflexivity.
Qed.

(** ** The properties of the parser on the examples *)

Lemma add_tokens_then_advance_witness :
  add_tokens [] (parser_on [tok TokenType.INT "2" 5] 6) = Raise IndexError /\
  exists p' : Parser,
    add_tokens [tok TokenType.INT "1" 1; tok TokenType.PLUS "+" 3]
      (parser_on [tok TokenType.INT "2" 5] 6) = Ok p' /\
    (forall k, (k <= length [tok TokenType.PLUS "+" 3])%nat ->
               [tok TokenType.INT "1" 1; tok TokenType.PLUS "+" 3] !! k
               = Some (current (advance_n k p'))) /\
    advance_n (S (length [tok TokenType.PLUS "+" 3])) p'
    = set_previous
        (List.last [tok TokenType.PLUS "+" 3] (tok TokenType.INT "1" 1))
        (parser_on [tok TokenType.INT "2" 5] 6).
Proof.
  apply (add_tokens_then_advance (tok TokenType.INT "1" 1)
           [tok TokenType.PLUS "+" 3] (parser_on [tok TokenType.INT "2" 5] 6)).
  - reflexivity.
  - reflexivity.
Defined.

Lemma rejected_literal_raises_witness :
  parse demo_data_types demo_limited_python (2 + 0)
    (parser_on [tok TokenType.INT (digits_one 4301) 1] 4302)
  = Raise ValueError.
Proof.
  apply (rejected_literal_raises demo_data_types demo_limited_python
           (digits_one 4301) 4302 0).
  vm_compute. reflexivity.
Defined.
